(** * release-utils: version reconciliation, .env / version.json parsing and
    ticket extraction

    A shallow embedding of the pure parts of

      - [service_mapping.py]  ([ServiceMapper])
      - [compare_versions.py] ([VersionComparator])
      - [tags-diff/fetchTicketChangesInBuildsForRepo.py]
        ([LinearTicketExtractor.extract_tickets_from_text])

    followed by the properties the specification states about them.

    Modelling conventions.

    - A Python [str] is a [string]; one [ascii] stands for one code point, so
      the texts covered are those over code points 0..255.  The character
      classes ([isspace], [isword], [lower_char], ...) follow Python's
      Unicode tables on that range.
    - A Python [dict] is an association list in insertion order without
      repeated keys ([dict_wf]); [dict_set] overwrites in place or appends,
      as an item assignment does.
    - A Python [set] of strings is a duplicate-free list ([ListSet]).
    - Code that can raise returns in [pyresult].
    - The version maps handed to [create_unified_comparison] and
      [compare_versions] hold strings, as their signatures say; the result of
      [parse_version_json] holds whatever values the JSON text holds.
    - The [re] and [json] modules are library code.  Regular expressions are
      syntax trees run by a backtracking matcher with Python's priorities
      (greedy repetition, ordered alternation).  [json.loads] is a parameter
      of [parse_version_json]; [Json.loads] is a reference decoder used to
      run it on concrete texts, and [Json.loads_within] is that decoder
      under the interpreter's recursion limit. *)

From Stdlib Require Import String Ascii List Bool Arith Lia ListSet.
Import ListNotations.
Open Scope string_scope.
Open Scope list_scope.
Open Scope nat_scope.

(* ================================================================== *)
(** ** Python values and exceptions *)

Inductive exn : Type :=
| JSONDecodeError (msg : string)
| AttributeError (msg : string)
| RecursionError (msg : string)
| OtherError (msg : string).

Inductive pyresult (A : Type) : Type :=
| Ok (a : A)
| Raise (e : exn).
Arguments Ok {A} a.
Arguments Raise {A} e.

Definition bind {A B : Type} (m : pyresult A) (f : A -> pyresult B) : pyresult B :=
  match m with
  | Ok a => f a
  | Raise e => Raise e
  end.

Notation "x <- m ;; k" := (bind m (fun x => k))
  (at level 61, m at next level, right associativity).

(* ================================================================== *)
(** ** Strings: the [str] methods the sources call *)

Module PyStr.

Definition code (c : ascii) : nat := nat_of_ascii c.

Definition between (lo hi : nat) (c : ascii) : bool :=
  (lo <=? code c) && (code c <=? hi).

(** [str.isspace] on one character: TAB..CR, FS..US, space, NEL, NBSP. *)
Definition isspace (c : ascii) : bool :=
  between 9 13 c || between 28 32 c || (code c =? 133) || (code c =? 160).

(** [\d]: the decimal digits; below 256 these are 0-9. *)
Definition isdecimal (c : ascii) : bool := between 48 57 c.

(** [[A-Z]] *)
Definition isupper_az (c : ascii) : bool := between 65 90 c.

(** Characters with a lowercase mapping: A-Z and the Latin-1 capitals. *)
Definition iscapital (c : ascii) : bool :=
  between 65 90 c || between 192 214 c || between 216 222 c.

(** Letters (the Unicode letter categories) below 256. *)
Definition isalpha (c : ascii) : bool :=
  between 65 90 c || between 97 122 c
  || (code c =? 170) || (code c =? 181) || (code c =? 186)
  || between 192 214 c || between 216 246 c || between 248 255 c.

(** Characters with a numeric value below 256: 0-9, superscripts 1 2 3 and
    the vulgar fractions. *)
Definition isnumeric (c : ascii) : bool :=
  isdecimal c || (code c =? 178) || (code c =? 179) || (code c =? 185)
  || between 188 190 c.

(** [\w]: alphanumeric or underscore. *)
Definition isword (c : ascii) : bool :=
  isalpha c || isnumeric c || (code c =? 95).

Definition lower_char (c : ascii) : ascii :=
  if iscapital c then ascii_of_nat (code c + 32) else c.

(** [s.lower()] *)
Fixpoint lower (s : string) : string :=
  match s with
  | EmptyString => EmptyString
  | String c s' => String (lower_char c) (lower s')
  end.

Fixpoint lstrip (s : string) : string :=
  match s with
  | EmptyString => EmptyString
  | String c s' => if isspace c then lstrip s' else s
  end.

Fixpoint rstrip (s : string) : string :=
  match s with
  | EmptyString => EmptyString
  | String c s' =>
      match rstrip s' with
      | EmptyString => if isspace c then EmptyString else String c EmptyString
      | r => String c r
      end
  end.

(** [s.strip()] *)
Definition strip (s : string) : string := rstrip (lstrip s).

(** [s.split('\n')] *)
Fixpoint split_nl (s : string) : list string :=
  match s with
  | EmptyString => [EmptyString]
  | String c s' =>
      if (code c =? 10) then EmptyString :: split_nl s'
      else match split_nl s' with
           | l :: ls => String c l :: ls
           | [] => [String c EmptyString]
           end
  end.

(** [s.startswith(p)] *)
Definition startswith (p s : string) : bool := String.prefix p s.

(** [p in s] *)
Fixpoint contains (p s : string) : bool :=
  String.prefix p s ||
  match s with
  | EmptyString => false
  | String _ s' => contains p s'
  end.

(** [s[:n]] *)
Fixpoint take (n : nat) (s : string) : string :=
  match n, s with
  | S n', String c s' => String c (take n' s')
  | _, _ => EmptyString
  end.

(** Every character of [s] satisfies [p]. *)
Fixpoint all (p : ascii -> bool) (s : string) : bool :=
  match s with
  | EmptyString => true
  | String c s' => p c && all p s'
  end.

(** [s * n] *)
Fixpoint mul (s : string) (n : nat) : string :=
  match n with
  | 0 => EmptyString
  | S n' => String.append s (mul s n')
  end.

(** Truthiness of a [str]: non-empty. *)
Definition truthy (s : string) : bool :=
  match s with
  | EmptyString => false
  | _ => true
  end.

End PyStr.

(* ================================================================== *)
(** ** Dictionaries in insertion order *)

Section Dict.
Context {V : Type}.

Definition dict : Type := list (string * V).

Definition keys (d : dict) : list string := map fst d.

(** [d.get(k)] *)
Fixpoint dict_get (d : dict) (k : string) : option V :=
  match d with
  | [] => None
  | (k', v) :: d' => if String.eqb k' k then Some v else dict_get d' k
  end.

(** [d[k] = v] *)
Fixpoint dict_set (d : dict) (k : string) (v : V) : dict :=
  match d with
  | [] => [(k, v)]
  | (k', v') :: d' =>
      if String.eqb k' k then (k', v) :: d' else (k', v') :: dict_set d' k v
  end.

(** [k in d] *)
Definition dict_mem (d : dict) (k : string) : bool :=
  match dict_get d k with
  | Some _ => true
  | None => false
  end.

(** A dict display [{k1: v1, k2: v2, ...}]: the pairs are stored left to
    right, a repeated key keeps its first position and its last value. *)
Definition dict_of_display (l : list (string * V)) : dict :=
  fold_left (fun d kv => dict_set d (fst kv) (snd kv)) l [].

Definition dict_wf (d : dict) : Prop := NoDup (keys d).
End Dict.
Arguments dict V : clear implicits.

(* ================================================================== *)
(** ** The [re] module: patterns and the backtracking matcher *)

Module Re.

(** The pattern syntax the sources use.  Repetition is only ever applied to a
    single character class; [Rep p lo hi] is the greedy [p{lo,hi}], with
    [hi = None] for no upper bound. *)
Inductive regex : Type :=
| Eps
| Lit (c : ascii)
| Cls (p : ascii -> bool)
| Seq (r1 r2 : regex)
| Alt (r1 r2 : regex)
| Rep (p : ascii -> bool) (lo : nat) (hi : option nat)
| Grp (n : nat) (r : regex).

(** A literal word. *)
Fixpoint lits (s : string) : regex :=
  match s with
  | EmptyString => Eps
  | String c s' => Seq (Lit c) (lits s')
  end.

(** Concatenation and alternation of several patterns. *)
Definition seq (rs : list regex) : regex := fold_right Seq Eps rs.

Fixpoint alts (rs : list regex) : regex :=
  match rs with
  | [] => Eps
  | [r] => r
  | r :: rs' => Alt r (alts rs')
  end.

(** Number of capturing groups: [len(match.groups())]. *)
Fixpoint ngroups (r : regex) : nat :=
  match r with
  | Seq r1 r2 | Alt r1 r2 => ngroups r1 + ngroups r2
  | Grp _ r1 => S (ngroups r1)
  | _ => 0
  end.

(** Captured groups, most recent binding first. *)
Definition captures : Type := list (nat * string).

Fixpoint caps_get (cs : captures) (n : nat) : option string :=
  match cs with
  | [] => None
  | (m, w) :: cs' => if m =? n then Some w else caps_get cs' n
  end.

(** A literal character of the pattern against a character of the text;
    with [re.IGNORECASE] both are compared in lower case. *)
Definition char_eq (ignorecase : bool) (c c' : ascii) : bool :=
  if ignorecase then Ascii.eqb (PyStr.lower_char c) (PyStr.lower_char c')
  else Ascii.eqb c c'.

Definition more (hi : option nat) : bool :=
  match hi with
  | None => true
  | Some h => 0 <? h
  end.

Section Matcher.
Context {R : Type}.

(** Greedy repetition: take as many characters as allowed, give back one
    at a time while the continuation fails. *)
Fixpoint rep_greedy (p : ascii -> bool) (lo : nat) (hi : option nat)
    (s : string) (k : string -> option R) {struct s} : option R :=
  match s with
  | EmptyString => if lo =? 0 then k s else None
  | String c s' =>
      if p c && more hi then
        match rep_greedy p (pred lo) (option_map pred hi) s' k with
        | Some res => Some res
        | None => if lo =? 0 then k s else None
        end
      else if lo =? 0 then k s else None
  end.

(** The matcher, in continuation-passing style: [k] is run on the rest of
    the text and the groups captured so far, and a failure of [k] makes the
    matcher try its next alternative. *)
Fixpoint rmatch (ignorecase : bool) (r : regex) (s : string) (cs : captures)
    (k : string -> captures -> option R) {struct r} : option R :=
  match r with
  | Eps => k s cs
  | Lit c =>
      match s with
      | String c' s' => if char_eq ignorecase c c' then k s' cs else None
      | EmptyString => None
      end
  | Cls p =>
      match s with
      | String c' s' => if p c' then k s' cs else None
      | EmptyString => None
      end
  | Seq r1 r2 =>
      rmatch ignorecase r1 s cs (fun s1 cs1 => rmatch ignorecase r2 s1 cs1 k)
  | Alt r1 r2 =>
      match rmatch ignorecase r1 s cs k with
      | Some res => Some res
      | None => rmatch ignorecase r2 s cs k
      end
  | Rep p lo hi => rep_greedy p lo hi s (fun s' => k s' cs)
  | Grp n r1 =>
      rmatch ignorecase r1 s cs
        (fun s1 cs1 =>
           k s1 ((n, PyStr.take (String.length s - String.length s1) s) :: cs1))
  end.
End Matcher.

(** A match object: the groups and the text left after the match. *)
Record match_obj : Type := mkMatch {
  m_caps : captures;
  m_rest : string
}.

(** [match.group(n)], [None] for a group that took no part in the match. *)
Definition group (m : match_obj) (n : nat) : option string :=
  caps_get (m_caps m) n.

(** [re.match(pattern, s, flags)]: anchored at the start of [s] only. *)
Definition re_match (ignorecase : bool) (r : regex) (s : string)
    : option match_obj :=
  rmatch ignorecase r s [] (fun s' cs => Some (mkMatch cs s')).

(** [pattern.findall(s)] for a pattern with one group: scan left to right,
    at each position not inside the previous match try the pattern, collect
    group 1 and resume after the match.  [skip] counts the characters of the
    current match still to pass.  None of the patterns used matches the empty
    string. *)
Fixpoint findall_from (r : regex) (s : string) (skip : nat) : list string :=
  match skip with
  | S n =>
      match s with
      | String _ s' => findall_from r s' n
      | EmptyString => []
      end
  | 0 =>
      match re_match false r s with
      | Some m =>
          let found := match group m 1 with Some g => g | None => "" end in
          let len := String.length s - String.length (m_rest m) in
          found :: match s with
                   | String _ s' => findall_from r s' (len - 1)
                   | EmptyString => []
                   end
      | None =>
          match s with
          | String _ s' => findall_from r s' 0
          | EmptyString => []
          end
      end
  end.

Definition findall (r : regex) (s : string) : list string := findall_from r s 0.

(** *** What a match is, without the search order

    [mrel ic r s cs s' cs']: pattern [r] can consume a prefix of [s], leaving
    [s'], and turn the captures [cs] into [cs'].  The matcher returns the
    first such match, in its priority order, that its continuation accepts. *)
Definition within (hi : option nat) (n : nat) : Prop :=
  match hi with
  | None => True
  | Some h => n <= h
  end.

Inductive mrel (ic : bool)
  : regex -> string -> captures -> string -> captures -> Prop :=
| M_eps s cs : mrel ic Eps s cs s cs
| M_lit c c' s cs :
    char_eq ic c c' = true -> mrel ic (Lit c) (String c' s) cs s cs
| M_cls (p : ascii -> bool) c s cs :
    p c = true -> mrel ic (Cls p) (String c s) cs s cs
| M_seq r1 r2 s cs s1 cs1 s2 cs2 :
    mrel ic r1 s cs s1 cs1 -> mrel ic r2 s1 cs1 s2 cs2 ->
    mrel ic (Seq r1 r2) s cs s2 cs2
| M_alt_l r1 r2 s cs s' cs' :
    mrel ic r1 s cs s' cs' -> mrel ic (Alt r1 r2) s cs s' cs'
| M_alt_r r1 r2 s cs s' cs' :
    mrel ic r2 s cs s' cs' -> mrel ic (Alt r1 r2) s cs s' cs'
| M_rep (p : ascii -> bool) lo hi w s cs :
    PyStr.all p w = true -> lo <= String.length w ->
    within hi (String.length w) ->
    mrel ic (Rep p lo hi) (String.append w s) cs s cs
| M_grp n r s cs s1 cs1 :
    mrel ic r s cs s1 cs1 ->
    mrel ic (Grp n r) s cs s1
         ((n, PyStr.take (String.length s - String.length s1) s) :: cs1).

(** The groups of a pattern with their bodies. *)
Fixpoint groups (r : regex) : list (nat * regex) :=
  match r with
  | Seq r1 r2 | Alt r1 r2 => groups r1 ++ groups r2
  | Grp n r1 => (n, r1) :: groups r1
  | _ => []
  end.

(** Group [n] takes part in every match of [r]. *)
Fixpoint sets (r : regex) (n : nat) : bool :=
  match r with
  | Seq r1 r2 => sets r1 n || sets r2 n
  | Alt r1 r2 => sets r1 n && sets r2 n
  | Grp m r1 => (m =? n) || sets r1 n
  | _ => false
  end.

End Re.

(* ================================================================== *)
(** ** The [json] module: values, and a reference decoder and encoder *)

Module Json.

(** What [json.loads] returns.  Numbers (and the constants NaN, Infinity,
    -Infinity) keep their literal: the code under study only asks whether a
    value is a [str] or a [dict].  An object is a dict: a repeated key keeps
    its first position and its last value. *)
Unset Elimination Schemes.
Inductive value : Type :=
| Null
| Bool (b : bool)
| Num (literal : string)
| Str (s : string)
| Arr (elements : list value)
| Obj (items : list (string * value)).
Set Elimination Schemes.

(** [isinstance(v, dict)] *)
Definition is_dict (v : value) : bool :=
  match v with
  | Obj _ => true
  | _ => false
  end.

(** [isinstance(v, str)] *)
Definition is_str (v : value) : bool :=
  match v with
  | Str _ => true
  | _ => false
  end.

Definition quote : ascii := "034"%char.
Definition backslash : ascii := "092"%char.

Definition is_ws (c : ascii) : bool :=
  (PyStr.code c =? 32) || (PyStr.code c =? 9) || (PyStr.code c =? 10)
  || (PyStr.code c =? 13).

Fixpoint skip_ws (s : string) : string :=
  match s with
  | EmptyString => EmptyString
  | String c s' => if is_ws c then skip_ws s' else s
  end.

(** The longest prefix of [p]-characters, and the rest. *)
Fixpoint span (p : ascii -> bool) (s : string) : string * string :=
  match s with
  | EmptyString => (EmptyString, EmptyString)
  | String c s' =>
      if p c then let '(w, r) := span p s' in (String c w, r)
      else (EmptyString, s)
  end.

Definition hex_value (c : ascii) : option nat :=
  if PyStr.between 48 57 c then Some (PyStr.code c - 48)
  else if PyStr.between 97 102 c then Some (PyStr.code c - 87)
  else if PyStr.between 65 70 c then Some (PyStr.code c - 55)
  else None.

(** The code point of a [\uXXXX] escape, when it is below 256. *)
Definition unicode_escape (h1 h2 h3 h4 : ascii) : option ascii :=
  match hex_value h1, hex_value h2, hex_value h3, hex_value h4 with
  | Some 0, Some 0, Some a, Some b => Some (ascii_of_nat (16 * a + b))
  | _, _, _, _ => None
  end.

(** The body of a string, after its opening quote: the decoded text and
    what follows the closing quote. *)
Fixpoint scan_string (s : string) : option (string * string) :=
  match s with
  | EmptyString => None
  | String c s1 =>
      if Ascii.eqb c quote then Some (EmptyString, s1)
      else if Ascii.eqb c backslash then
        match s1 with
        | EmptyString => None
        | String e s2 =>
            let continue (d : ascii) (rest : string) :=
              match scan_string rest with
              | Some (w, r) => Some (String d w, r)
              | None => None
              end in
            if Ascii.eqb e quote then continue quote s2
            else if Ascii.eqb e backslash then continue backslash s2
            else if Ascii.eqb e "/" then continue "/"%char s2
            else if Ascii.eqb e "b" then continue (ascii_of_nat 8) s2
            else if Ascii.eqb e "f" then continue (ascii_of_nat 12) s2
            else if Ascii.eqb e "n" then continue (ascii_of_nat 10) s2
            else if Ascii.eqb e "r" then continue (ascii_of_nat 13) s2
            else if Ascii.eqb e "t" then continue (ascii_of_nat 9) s2
            else if Ascii.eqb e "u" then
              match s2 with
              | String h1 (String h2 (String h3 (String h4 s3))) =>
                  match unicode_escape h1 h2 h3 h4 with
                  | Some d => continue d s3
                  | None => None
                  end
              | _ => None
              end
            else None
        end
      else if PyStr.code c <? 32 then None
      else
        match scan_string s1 with
        | Some (w, r) => Some (String c w, r)
        | None => None
        end
  end.

(** The exponent of a number, if one follows. *)
Definition scan_exponent (lit s : string) : string * string :=
  match s with
  | String e s1 =>
      if Ascii.eqb e "e" || Ascii.eqb e "E" then
        let '(sign, s2) :=
          match s1 with
          | String g s2 =>
              if Ascii.eqb g "+" || Ascii.eqb g "-"
              then (String g EmptyString, s2) else (EmptyString, s1)
          | EmptyString => (EmptyString, s1)
          end in
        let '(ds, s3) := span PyStr.isdecimal s2 in
        if PyStr.truthy ds
        then (String.append lit (String e (String.append sign ds)), s3)
        else (lit, s)
      else (lit, s)
  | EmptyString => (lit, s)
  end.

(** The fraction and the exponent of a number, if they follow. *)
Definition scan_fraction (lit s : string) : string * string :=
  match s with
  | String c s1 =>
      if Ascii.eqb c "." then
        let '(ds, s2) := span PyStr.isdecimal s1 in
        if PyStr.truthy ds
        then scan_exponent (String.append lit (String c ds)) s2
        else (lit, s)
      else scan_exponent lit s
  | EmptyString => (lit, s)
  end.

(** A number: an optional minus sign, 0 or a digit 1-9 followed by digits,
    then optionally a fraction and an exponent. *)
Definition scan_number (s : string) : option (string * string) :=
  let '(sign, s1) :=
    match s with
    | String c s' =>
        if Ascii.eqb c "-" then (String c EmptyString, s') else (EmptyString, s)
    | EmptyString => (EmptyString, s)
    end in
  match s1 with
  | String c s2 =>
      if Ascii.eqb c "0" then
        Some (scan_fraction (String.append sign (String c EmptyString)) s2)
      else if PyStr.isdecimal c then
        let '(ds, s3) := span PyStr.isdecimal s2 in
        Some (scan_fraction (String.append sign (String c ds)) s3)
      else None
  | EmptyString => None
  end.

(** [s] with the word [w] removed from its front. *)
Fixpoint after_word (w s : string) : option string :=
  match w, s with
  | EmptyString, _ => Some s
  | String a w', String b s' => if Ascii.eqb a b then after_word w' s' else None
  | String _ _, EmptyString => None
  end.

Definition scan_constant (s : string) : option (value * string) :=
  match after_word "null" s with
  | Some r => Some (Null, r)
  | None =>
  match after_word "true" s with
  | Some r => Some (Bool true, r)
  | None =>
  match after_word "false" s with
  | Some r => Some (Bool false, r)
  | None =>
  match after_word "NaN" s with
  | Some r => Some (Num "NaN", r)
  | None =>
  match after_word "Infinity" s with
  | Some r => Some (Num "Infinity", r)
  | None =>
  match after_word "-Infinity" s with
  | Some r => Some (Num "-Infinity", r)
  | None =>
  match scan_number s with
  | Some (lit, r) => Some (Num lit, r)
  | None => None
  end end end end end end end.

(** Recursive descent; [fuel] bounds the number of values and members
    read.  [parse_members] and [parse_elements] start at a member or an
    element, white space skipped, with the ones read so far in [acc]. *)
Fixpoint parse_value (fuel : nat) (s : string) {struct fuel}
    : option (value * string) :=
  match fuel with
  | 0 => None
  | S f =>
      match s with
      | EmptyString => None
      | String c s1 =>
          if Ascii.eqb c quote then
            match scan_string s1 with
            | Some (w, r) => Some (Str w, r)
            | None => None
            end
          else if Ascii.eqb c "{" then
            match skip_ws s1 with
            | String d s2 =>
                if Ascii.eqb d "}" then Some (Obj [], s2)
                else parse_members f (String d s2) []
            | EmptyString => None
            end
          else if Ascii.eqb c "[" then
            match skip_ws s1 with
            | String d s2 =>
                if Ascii.eqb d "]" then Some (Arr [], s2)
                else parse_elements f (String d s2) []
            | EmptyString => None
            end
          else scan_constant s
      end
  end
with parse_members (fuel : nat) (s : string) (acc : list (string * value))
    {struct fuel} : option (value * string) :=
  match fuel with
  | 0 => None
  | S f =>
      match s with
      | String c s1 =>
          if Ascii.eqb c quote then
            match scan_string s1 with
            | Some (key, s2) =>
                match skip_ws s2 with
                | String d s3 =>
                    if Ascii.eqb d ":" then
                      match parse_value f (skip_ws s3) with
                      | Some (v, s4) =>
                          let acc' := dict_set acc key v in
                          match skip_ws s4 with
                          | String e s5 =>
                              if Ascii.eqb e "," then
                                parse_members f (skip_ws s5) acc'
                              else if Ascii.eqb e "}" then Some (Obj acc', s5)
                              else None
                          | EmptyString => None
                          end
                      | None => None
                      end
                    else None
                | EmptyString => None
                end
            | None => None
            end
          else None
      | EmptyString => None
      end
  end
with parse_elements (fuel : nat) (s : string) (acc : list value)
    {struct fuel} : option (value * string) :=
  match fuel with
  | 0 => None
  | S f =>
      match parse_value f s with
      | Some (v, s1) =>
          match skip_ws s1 with
          | String e s2 =>
              if Ascii.eqb e "," then parse_elements f (skip_ws s2) (acc ++ [v])
              else if Ascii.eqb e "]" then Some (Arr (acc ++ [v]), s2)
              else None
          | EmptyString => None
          end
      | None => None
      end
  end.

(** Reference [json.loads]: one value, white space around it, nothing
    else. *)
Definition loads (text : string) : pyresult value :=
  match parse_value (2 * String.length text + 2) (skip_ws text) with
  | Some (v, rest) =>
      match skip_ws rest with
      | EmptyString => Ok v
      | String _ _ => Raise (JSONDecodeError "Extra data")
      end
  | None => Raise (JSONDecodeError "Expecting value")
  end.

(** *** The decoder under the interpreter's recursion limit

    The decoder of CPython calls itself once for each array or object it
    enters, before it reads what is inside, and the interpreter raises
    [RecursionError] once the calls nest deeper than its limit allows.
    [depth] is the number of arrays and objects that may still be entered;
    apart from that check the three functions are the ones above. *)

Definition expecting_value : exn := JSONDecodeError "Expecting value".

(** The error of the interpreter when the limit is hit on entering [what],
    an object or an array. *)
Definition too_deep (what : string) : exn :=
  RecursionError
    (String.append "maximum recursion depth exceeded while decoding a JSON "
       (String.append what " from a unicode string")).

Definition is_too_deep {A : Type} (r : pyresult A) : bool :=
  match r with
  | Raise (RecursionError _) => true
  | _ => false
  end.

Fixpoint parse_value_within (fuel depth : nat) (s : string) {struct fuel}
    : pyresult (value * string) :=
  match fuel with
  | 0 => Raise expecting_value
  | S f =>
      match s with
      | EmptyString => Raise expecting_value
      | String c s1 =>
          if Ascii.eqb c quote then
            match scan_string s1 with
            | Some (w, r) => Ok (Str w, r)
            | None => Raise expecting_value
            end
          else if Ascii.eqb c "{" then
            match depth with
            | 0 => Raise (too_deep "object")
            | S inner =>
                match skip_ws s1 with
                | String d s2 =>
                    if Ascii.eqb d "}" then Ok (Obj [], s2)
                    else parse_members_within f inner (String d s2) []
                | EmptyString => Raise expecting_value
                end
            end
          else if Ascii.eqb c "[" then
            match depth with
            | 0 => Raise (too_deep "array")
            | S inner =>
                match skip_ws s1 with
                | String d s2 =>
                    if Ascii.eqb d "]" then Ok (Arr [], s2)
                    else parse_elements_within f inner (String d s2) []
                | EmptyString => Raise expecting_value
                end
            end
          else
            match scan_constant s with
            | Some r => Ok r
            | None => Raise expecting_value
            end
      end
  end
with parse_members_within (fuel depth : nat) (s : string)
    (acc : list (string * value)) {struct fuel}
    : pyresult (value * string) :=
  match fuel with
  | 0 => Raise expecting_value
  | S f =>
      match s with
      | String c s1 =>
          if Ascii.eqb c quote then
            match scan_string s1 with
            | Some (key, s2) =>
                match skip_ws s2 with
                | String d s3 =>
                    if Ascii.eqb d ":" then
                      match parse_value_within f depth (skip_ws s3) with
                      | Ok (v, s4) =>
                          let acc' := dict_set acc key v in
                          match skip_ws s4 with
                          | String e s5 =>
                              if Ascii.eqb e "," then
                                parse_members_within f depth (skip_ws s5) acc'
                              else if Ascii.eqb e "}" then Ok (Obj acc', s5)
                              else Raise expecting_value
                          | EmptyString => Raise expecting_value
                          end
                      | Raise e => Raise e
                      end
                    else Raise expecting_value
                | EmptyString => Raise expecting_value
                end
            | None => Raise expecting_value
            end
          else Raise expecting_value
      | EmptyString => Raise expecting_value
      end
  end
with parse_elements_within (fuel depth : nat) (s : string) (acc : list value)
    {struct fuel} : pyresult (value * string) :=
  match fuel with
  | 0 => Raise expecting_value
  | S f =>
      match parse_value_within f depth s with
      | Ok (v, s1) =>
          match skip_ws s1 with
          | String e s2 =>
              if Ascii.eqb e "," then
                parse_elements_within f depth (skip_ws s2) (acc ++ [v])
              else if Ascii.eqb e "]" then Ok (Arr (acc ++ [v]), s2)
              else Raise expecting_value
          | EmptyString => Raise expecting_value
          end
      | Raise e => Raise e
      end
  end.

(** What the decoder above gives, as a result of the one under the limit. *)
Definition of_option (o : option (value * string))
    : pyresult (value * string) :=
  match o with
  | Some r => Ok r
  | None => Raise expecting_value
  end.

(** [json.loads] when [depth] nested calls are left before the limit. *)
Definition loads_within (depth : nat) (text : string) : pyresult value :=
  match
    parse_value_within (2 * String.length text + 2) depth (skip_ws text)
  with
  | Ok (v, rest) =>
      match skip_ws rest with
      | EmptyString => Ok v
      | String _ _ => Raise (JSONDecodeError "Extra data")
      end
  | Raise e => Raise e
  end.

Definition hex_digit (n : nat) : ascii :=
  if n <? 10 then ascii_of_nat (48 + n) else ascii_of_nat (87 + n).

(** One character of a string as [json.dumps] writes it (with its default
    [ensure_ascii]). *)
Definition encode_char (c : ascii) : string :=
  if Ascii.eqb c quote then String backslash (String quote EmptyString)
  else if Ascii.eqb c backslash then String backslash (String backslash EmptyString)
  else if PyStr.code c =? 10 then String backslash "n"
  else if PyStr.code c =? 13 then String backslash "r"
  else if PyStr.code c =? 9 then String backslash "t"
  else if PyStr.code c =? 8 then String backslash "b"
  else if PyStr.code c =? 12 then String backslash "f"
  else if PyStr.between 32 126 c then String c EmptyString
  else String backslash
         (String "u" (String "0" (String "0"
            (String (hex_digit (PyStr.code c / 16))
               (String (hex_digit (PyStr.code c mod 16)) EmptyString))))).

Fixpoint encode_chars (s : string) : string :=
  match s with
  | EmptyString => EmptyString
  | String c s' => String.append (encode_char c) (encode_chars s')
  end.

Definition encode_string (s : string) : string :=
  String quote (String.append (encode_chars s) (String quote EmptyString)).

Fixpoint encode_members (m : list (string * string)) : string :=
  match m with
  | [] => EmptyString
  | [(k, v)] =>
      String.append (encode_string k) (String.append ": " (encode_string v))
  | (k, v) :: m' =>
      String.append (encode_string k)
        (String.append ": "
           (String.append (encode_string v)
              (String.append ", " (encode_members m'))))
  end.

(** Reference [json.dumps] of a flat map of strings. *)
Definition dumps_flat (m : list (string * string)) : string :=
  String "{" (String.append (encode_members m) "}").

End Json.

(* ================================================================== *)
(** ** service_mapping.py *)

(** One entry of the unified comparison: the four-field dict built in
    [create_unified_comparison]. *)
Record comparison : Type := mkComparison {
  env_version : option string;
  deployed_version : option string;
  env_name : option string;
  deployed_name : option string
}.

Module ServiceMapper.

(** The class attribute [SERVICE_NAME_MAPPING]; [None] is the marker for a
    service with no deployed counterpart.  The display lists
    [stackgen_notifications] twice, as the source does. *)
Definition SERVICE_NAME_MAPPING : dict (option string) :=
  dict_of_display
    [ ("appcd", Some "appcd");
      ("iacgen", Some "iac-gen");
      ("appcdui", Some "ui");
      ("stack_exporter", Some "exporter");
      ("stackgen_vault", Some "vault");
      ("integrations", Some "integrations");
      ("backstage_adapter", Some "backstage-adapter");
      ("infra_catalog_tracker", Some "infra-catalog-tracker");
      ("deployment_manager", Some "deployment-manager");
      ("stackgen_notifications", Some "notifications");
      ("tf_module_service", Some "tf-module-service");
      ("audit_manager", Some "audit-manager");
      ("sgai_orchestration", Some "sgai-orchestration");
      ("stackgen_notifications", Some "notifications");
      ("appcd_analyzer", None);
      ("appcdvira", None);
      ("llm_gateway", None);
      ("sgai_knowledge", None);
      ("sgai_control", None);
      ("community_infra_gen", None);
      ("stackgen_subagents", None) ].

(** [SERVICE_NAME_MAPPING.get(k)]: [None] for a missing key and for a key
    stored with [None]. *)
Definition mapping_get (k : string) : option string :=
  match dict_get SERVICE_NAME_MAPPING k with
  | Some v => v
  | None => None
  end.

Definition map_env_to_deployed (env_service_name : string) : option string :=
  let mapped_name := mapping_get (PyStr.lower env_service_name) in
  match mapped_name with
  | None => None
  | Some m => Some (if PyStr.truthy m then m else PyStr.lower env_service_name)
  end.

(** Truthiness of an optional [str]: neither [None] nor empty. *)
Definition truthy_opt (o : option string) : bool :=
  match o with
  | Some s => PyStr.truthy s
  | None => false
  end.

(** Body of the first loop: the record stored under [env_service]. *)
Definition env_step (deployed_versions : dict string)
    (unified : dict comparison) (item : string * string) : dict comparison :=
  let '(env_service, env_version) := item in
  let deployed_service := map_env_to_deployed env_service in
  match deployed_service with
  | None =>
      dict_set unified env_service
        (mkComparison (Some env_version) None (Some env_service) None)
  | Some ds =>
      let deployed_version := dict_get deployed_versions ds in
      dict_set unified env_service
        (mkComparison (Some env_version) deployed_version
                      (Some env_service) (Some ds))
  end.

(** Body of the second loop: collect the deployed names referenced. *)
Definition mapped_step (mapped : set string) (env_service : string) : set string :=
  let deployed_service := map_env_to_deployed env_service in
  if truthy_opt deployed_service then
    match deployed_service with
    | Some ds => set_add string_dec ds mapped
    | None => mapped
    end
  else mapped.

(** Body of the third loop: deployed services no env key refers to. *)
Definition deployed_step (mapped : set string)
    (unified : dict comparison) (item : string * string) : dict comparison :=
  let '(deployed_service, deployed_version) := item in
  if negb (set_mem string_dec deployed_service mapped) then
    dict_set unified (String.append "deployed_only_" deployed_service)
      (mkComparison None (Some deployed_version) None (Some deployed_service))
  else unified.

Definition create_unified_comparison
    (env_versions deployed_versions : dict string) : dict comparison :=
  let unified := fold_left (env_step deployed_versions) env_versions [] in
  let mapped_deployed_services :=
    fold_left mapped_step (keys env_versions) (empty_set string) in
  fold_left (deployed_step mapped_deployed_services) deployed_versions unified.

End ServiceMapper.

(* ================================================================== *)
(** ** compare_versions.py *)

Record comparison_results : Type := mkResults {
  differences : dict comparison;
  matches : dict comparison;
  env_only : dict comparison;
  deployed_only : dict comparison
}.

Module VersionComparator.

(** *** [parse_env_content] *)

Import Re.

Definition isquote (c : ascii) : bool :=
  (PyStr.code c =? 34) || (PyStr.code c =? 39).

(** The class of the value: neither white space nor a quote. *)
Definition isvalue (c : ascii) : bool :=
  negb (PyStr.isspace c || isquote c).

(** [[^:]] *)
Definition notcolon (c : ascii) : bool := negb (PyStr.code c =? 58).

(** The patterns, in the order of the source; Q stands for the class of the
    double and the single quote, V for the class [isvalue].

    [(\w+)_VERSION\s*=\s*Q?(V+)Q?] *)
Definition pattern_suffix_version : regex :=
  seq [ Grp 1 (Rep PyStr.isword 1 None); lits "_VERSION";
        Rep PyStr.isspace 0 None; Lit "="; Rep PyStr.isspace 0 None;
        Rep isquote 0 (Some 1); Grp 2 (Rep isvalue 1 None);
        Rep isquote 0 (Some 1) ].

(** [VERSION_(\w+)\s*=\s*Q?(V+)Q?] *)
Definition pattern_prefix_version : regex :=
  seq [ lits "VERSION_"; Grp 1 (Rep PyStr.isword 1 None);
        Rep PyStr.isspace 0 None; Lit "="; Rep PyStr.isspace 0 None;
        Rep isquote 0 (Some 1); Grp 2 (Rep isvalue 1 None);
        Rep isquote 0 (Some 1) ].

(** [(\w+)_TAG\s*=\s*Q?(V+)Q?] *)
Definition pattern_suffix_tag : regex :=
  seq [ Grp 1 (Rep PyStr.isword 1 None); lits "_TAG";
        Rep PyStr.isspace 0 None; Lit "="; Rep PyStr.isspace 0 None;
        Rep isquote 0 (Some 1); Grp 2 (Rep isvalue 1 None);
        Rep isquote 0 (Some 1) ].

(** [IMAGE_(\w+)\s*=\s*Q?[^:]+:(V+)Q?] *)
Definition pattern_image : regex :=
  seq [ lits "IMAGE_"; Grp 1 (Rep PyStr.isword 1 None);
        Rep PyStr.isspace 0 None; Lit "="; Rep PyStr.isspace 0 None;
        Rep isquote 0 (Some 1); Rep notcolon 1 None; Lit ":";
        Grp 2 (Rep isvalue 1 None); Rep isquote 0 (Some 1) ].

(** [(SGAI_ORCHESTRATION|STACKGEN_NOTIFICATIONS|APPCD_ANALYZER|SGAI_KNOWLEDGE|SGAI_CONTROL)\s*=\s*Q?(V+)Q?] *)
Definition pattern_special : regex :=
  seq [ Grp 1 (alts [ lits "SGAI_ORCHESTRATION"; lits "STACKGEN_NOTIFICATIONS";
                      lits "APPCD_ANALYZER"; lits "SGAI_KNOWLEDGE";
                      lits "SGAI_CONTROL" ]);
        Rep PyStr.isspace 0 None; Lit "="; Rep PyStr.isspace 0 None;
        Rep isquote 0 (Some 1); Grp 2 (Rep isvalue 1 None);
        Rep isquote 0 (Some 1) ].

Definition version_patterns : list regex :=
  [ pattern_suffix_version; pattern_prefix_version; pattern_suffix_tag;
    pattern_image; pattern_special ].

(** A [str] method called on the result of [match.group]: on [None] the
    attribute lookup raises. *)
Definition call_method (o : option string) (f : string -> string)
    : pyresult string :=
  match o with
  | Some s => Ok (f s)
  | None => Raise (AttributeError "'NoneType' object has no attribute")
  end.

(** The [for pattern in version_patterns] loop on one stripped line: the
    [break] ends it at the first pattern that matches with two groups. *)
Fixpoint for_patterns (patterns : list regex) (line : string)
    (versions : dict string) : pyresult (dict string) :=
  match patterns with
  | [] => Ok versions
  | pattern :: rest =>
      match re_match true pattern line with
      | Some m =>
          if ngroups pattern =? 2 then
            service_name <- call_method (group m 1) PyStr.lower ;;
            version <- call_method (group m 2) PyStr.strip ;;
            Ok (dict_set versions service_name version)
          else for_patterns rest line versions
      | None => for_patterns rest line versions
      end
  end.

(** Body of the [for line in ...] loop. *)
Definition line_step (versions : dict string) (line : string)
    : pyresult (dict string) :=
  let line := PyStr.strip line in
  if negb (PyStr.truthy line) || PyStr.startswith "#" line then Ok versions
  else for_patterns version_patterns line versions.

Fixpoint for_lines (lines : list string) (versions : dict string)
    : pyresult (dict string) :=
  match lines with
  | [] => Ok versions
  | line :: rest =>
      versions' <- line_step versions line ;;
      for_lines rest versions'
  end.

Definition parse_env_content (env_content : string) : pyresult (dict string) :=
  for_lines (PyStr.split_nl env_content) [].

(** *** [parse_version_json] *)

Section ParseVersionJson.
Import Json.

(** [json.loads], which raises [JSONDecodeError] on a text that is not
    JSON. *)
Variable json_loads : string -> pyresult value.

(** Body of the loop over the sub-keys of a nested object without a
    [version] field. *)
Definition sub_step (key : string) (versions : dict value)
    (item : string * value) : dict value :=
  let '(sub_key, sub_value) := item in
  if PyStr.contains "version" (PyStr.lower sub_key) && is_str sub_value then
    dict_set versions
      (String.append (PyStr.lower key) (String "_" (PyStr.lower sub_key)))
      sub_value
  else versions.

(** Body of the loop over the items of the top-level object. *)
Definition item_step (versions : dict value) (item : string * value)
    : dict value :=
  let '(key, value) := item in
  match value with
  | Str _ => dict_set versions (PyStr.lower key) value
  | Obj sub =>
      match dict_get sub "version" with
      | Some version => dict_set versions (PyStr.lower key) version
      | None => fold_left (sub_step key) sub versions
      end
  | _ => versions
  end.

(** The values of the result are whatever the JSON holds: the annotation
    [Dict[str, str]] is not enforced. *)
Definition parse_version_json (version_content : string)
    : pyresult (dict value) :=
  match json_loads version_content with
  | Ok data =>
      let versions := [] in
      match data with
      | Obj items => Ok (fold_left item_step items versions)
      | _ => Ok versions
      end
  | Raise (JSONDecodeError msg) =>
      Ok [("content", Str (PyStr.strip version_content))]
  | Raise e => Raise e
  end.

End ParseVersionJson.

(** *** [compare_versions] *)

(** Body of the classification loop of [compare_versions]. *)
Definition classify_step (acc : comparison_results)
    (item : string * comparison) : comparison_results :=
  let '(service, data) := item in
  let env_ver := env_version data in
  let deployed_ver := deployed_version data in
  match env_ver with
  | None =>
      mkResults (differences acc) (matches acc) (env_only acc)
                (dict_set (deployed_only acc) service data)
  | Some ev =>
      match deployed_ver with
      | None =>
          mkResults (differences acc) (matches acc)
                    (dict_set (env_only acc) service data) (deployed_only acc)
      | Some dv =>
          if negb (String.eqb ev dv) then
            mkResults (dict_set (differences acc) service data) (matches acc)
                      (env_only acc) (deployed_only acc)
          else
            mkResults (differences acc) (dict_set (matches acc) service data)
                      (env_only acc) (deployed_only acc)
      end
  end.

Definition compare_versions (deployed_versions repo_versions : dict string)
    : comparison_results * bool :=
  let unified_comparison :=
    ServiceMapper.create_unified_comparison repo_versions deployed_versions in
  let results :=
    fold_left classify_step unified_comparison (mkResults [] [] [] []) in
  let has_differences :=
    (0 <? length (differences results))
    || (0 <? length (env_only results))
    || (0 <? length (deployed_only results)) in
  (results, has_differences).

End VersionComparator.

(** A flat map of strings as the dict of Python values it is. *)
Definition flat (m : dict string) : dict Json.value :=
  map (fun kv => (fst kv, Json.Str (snd kv))) m.

(** Every key is already in lower case. *)
Definition lowercase_keys (m : dict string) : bool :=
  forallb (fun kv => String.eqb (PyStr.lower (fst kv)) (fst kv)) m.

(* ================================================================== *)
(** ** tags-diff/fetchTicketChangesInBuildsForRepo.py *)

Module LinearTicketExtractor.
Import Re.

(** [\[([A-Z]{2,6}-\d{1,6})\]], compiled without flags. *)
Definition ticket_pattern : regex :=
  seq [ Lit "["; Grp 1 (seq [ Rep PyStr.isupper_az 2 (Some 6); Lit "-";
                              Rep PyStr.isdecimal 1 (Some 6) ]);
        Lit "]" ].

(** [tickets.add(match)] for each element of [matches]. *)
Definition extract_tickets_from_text (text : string) : set string :=
  let matches := findall ticket_pattern text in
  fold_left (fun tickets m => set_add string_dec m tickets) matches
            (empty_set string).

End LinearTicketExtractor.

(* ================================================================== *)
(** ** The specification's vocabulary for reconciliation *)

(** The four classes of a unified comparison record, as the data model
    words them. *)
Definition is_matched (r : comparison) : bool :=
  match env_version r, deployed_version r with
  | Some e, Some d => String.eqb e d
  | _, _ => false
  end.

Definition is_differing (r : comparison) : bool :=
  match env_version r, deployed_version r with
  | Some e, Some d => negb (String.eqb e d)
  | _, _ => false
  end.

Definition is_env_only (r : comparison) : bool :=
  match deployed_version r with
  | None => true
  | Some _ => false
  end.

Definition is_deployed_only (r : comparison) : bool :=
  match env_version r with
  | None => true
  | Some _ => false
  end.

(** Number of [true]s in a list of tests. *)
Definition count_true (l : list bool) : nat := length (filter (fun b => b) l).

Definition is_empty {A : Type} (l : list A) : bool :=
  match l with
  | [] => true
  | _ :: _ => false
  end.

(** [d] is the mapped deployed-convention name of some key of [env]. *)
Definition referenced (env : dict string) (d : string) : bool :=
  existsb
    (fun e => match ServiceMapper.map_env_to_deployed e with
              | Some d' => String.eqb d' d
              | None => false
              end)
    (keys env).

(** A record with the env side absent that names the deployed service [d]. *)
Definition deployed_only_for (d : string) (item : string * comparison) : bool :=
  let r := snd item in
  match env_name r, env_version r, deployed_name r with
  | None, None, Some d' => String.eqb d' d
  | _, _, _ => false
  end.

(** A record carrying the env key [e] whose deployed side is absent. *)
Definition env_only_for (e : string) (item : string * comparison) : bool :=
  let r := snd item in
  match env_name r, deployed_name r, deployed_version r with
  | Some e', None, None => String.eqb e' e
  | _, _, _ => false
  end.

(* ================================================================== *)
(** ** The specification's vocabulary for the parsers and the extractor *)

Definition is_none {A : Type} (o : option A) : bool :=
  match o with
  | None => true
  | Some _ => false
  end.

(** A line of the .env text that is empty, a comment, or matched by none of
    the patterns, once stripped. *)
Definition skipped (line : string) : bool :=
  let l := PyStr.strip line in
  negb (PyStr.truthy l) || PyStr.startswith "#" l
  || forallb (fun p => is_none (Re.re_match true p l)) VersionComparator.version_patterns.

(** A ticket key: 2 to 6 letters A-Z, a hyphen, 1 to 6 digits. *)
Definition is_ticket (t : string) : Prop :=
  exists prefix number,
    t = String.append prefix (String "-" number)
    /\ PyStr.all PyStr.isupper_az prefix = true
    /\ 2 <= String.length prefix <= 6
    /\ PyStr.all PyStr.isdecimal number = true
    /\ 1 <= String.length number <= 6.

(** [t] occurs in [text] enclosed in square brackets. *)
Definition bracketed (t text : string) : Prop :=
  exists before after,
    text = String.append before
             (String "[" (String.append t (String "]" after))).

(* ================================================================== *)
(** ** Auxiliary notions of the proofs *)

(** The test the [elif deployed_ver is None] branch is reached under. *)
Definition reaches_env_only (r : comparison) : bool :=
  negb (is_deployed_only r) && is_env_only r.

(** [k] is a key of none of the four buckets. *)
Definition fresh_in (acc : comparison_results) (k : string) : Prop :=
  ~ In k (keys (differences acc)) /\ ~ In k (keys (matches acc))
  /\ ~ In k (keys (env_only acc)) /\ ~ In k (keys (deployed_only acc)).

(** Any character but the opening bracket. *)
Definition not_open (c : ascii) : bool := negb (Ascii.eqb c "[").

(** The dict obtained by storing the entries of a flat map one by one. *)
Definition store_all (m : list (string * string)) (acc : dict Json.value)
    : dict Json.value :=
  fold_left (fun a kv => dict_set a (fst kv) (Json.Str (snd kv))) m acc.


(* ================================================================== *)
(** * Further code of the repository

    Beyond the three functions above, this part embeds

      - the ticket reports of [tags-diff/fetchTicketChangesInBuildsForRepo.py]
        ([fetch_all_ticket_details], and the grouping by project of
        [save_tickets_to_file] and [print_tickets]);
      - [tags-diff/process_all_repos.py] ([RepositoryProcessor]);
      - [tags-diff/generate_input_json.py] ([parse_env_file],
        [generate_input_json]);
      - [tags-diff/single_repo_ticket_processor.py] ([parse_repo_input],
        [process_single_request], [process_from_file]);
      - [tags-diff/compare_tags.py] ([format_commit_info]).

    Subprocesses, the network and the clock are parameters: what
    [compare_tags.py] prints, what the Linear API answers, what [urlparse]
    finds in a URL, how a date is printed.  Each is asked once per argument,
    so a function of the argument stands for it.  Time stamps are left out
    of the records. *)

From Stdlib Require Import NArith Permutation Sorted.

(* ================================================================== *)
(** ** Vocabulary for the further properties of reconciliation *)

(** Every service of the env map has a deployed counterpart with the same
    version, and every deployed service is referenced by an env service. *)
Definition in_sync (env deployed : dict string) : bool :=
  forallb
    (fun ev => match ServiceMapper.map_env_to_deployed (fst ev) with
               | Some d => match dict_get deployed d with
                           | Some dv => String.eqb (snd ev) dv
                           | None => false
                           end
               | None => false
               end) env
  && forallb (referenced env) (keys deployed).

(** The record the first loop of [create_unified_comparison] builds for the
    env entry [e], [v]. *)
Definition env_record (deployed : dict string) (e v : string) : comparison :=
  mkComparison (Some v)
    (match ServiceMapper.map_env_to_deployed e with
     | Some ds => dict_get deployed ds
     | None => None
     end)
    (Some e) (ServiceMapper.map_env_to_deployed e).

(** The synthetic keys of the third loop: one for each deployed service no
    env key refers to. *)
Definition deployed_only_keys (env deployed : dict string) : list string :=
  map (String.append "deployed_only_")
      (filter (fun d => negb (referenced env d)) (keys deployed)).

(* ================================================================== *)
(** ** Vocabulary for the further properties of [parse_env_content] *)

(** The line feed, as a text. *)
Definition nl : string := String "010"%char EmptyString.

(** An entry as [parse_env_content] stores them: a non-empty key of word
    characters in lower case, a non-empty value without white space or
    quotes. *)
Definition clean_entry (kv : string * string) : bool :=
  String.eqb (PyStr.lower (fst kv)) (fst kv)
  && PyStr.truthy (fst kv)
  && PyStr.all PyStr.isword (fst kv)
  && PyStr.truthy (snd kv)
  && PyStr.all VersionComparator.isvalue (snd kv).

(** Nothing, or one quote character. *)
Definition opt_quote (q : string) : bool :=
  match q with
  | EmptyString => true
  | String c EmptyString => VersionComparator.isquote c
  | _ => false
  end.

(** A quote character [c], or nothing, taken off: what [strip(c)] does to
    an optional quote at either end of a word that holds none. *)
Definition unquote (c : ascii) (q : string) : string :=
  match q with
  | String x EmptyString => if Ascii.eqb x c then EmptyString else q
  | _ => q
  end.

(** White space other than the line feed. *)
Definition isblank (c : ascii) : bool :=
  PyStr.isspace c && negb (PyStr.code c =? 10).

(** A line [NAME_VERSION = "value"], with optional blanks around the equals
    sign and optional quotes around the value. *)
Definition version_line (name ws1 ws2 q1 value q2 : string) : string :=
  String.append name
    (String.append "_VERSION"
       (String.append ws1
          (String "="
             (String.append ws2
                (String.append q1 (String.append value q2)))))).

(** What the first pattern asks for after [_VERSION]: blanks, the equals
    sign, blanks, an optional quote, the value (group 2), an optional
    quote. *)
Definition assignment_tail : Re.regex :=
  Re.seq [ Re.Rep PyStr.isspace 0 None; Re.Lit "=";
           Re.Rep PyStr.isspace 0 None;
           Re.Rep VersionComparator.isquote 0 (Some 1);
           Re.Grp 2 (Re.Rep VersionComparator.isvalue 1 None);
           Re.Rep VersionComparator.isquote 0 (Some 1) ].

(** ** Vocabulary for the further properties of [parse_version_json] *)

(** The value of the last item of [m] whose key is [k] once in lower case. *)
Fixpoint lookup_last_ci (m : dict string) (k : string) : option string :=
  match m with
  | [] => None
  | (k', v) :: m' =>
      match lookup_last_ci m' k with
      | Some x => Some x
      | None => if String.eqb (PyStr.lower k') k then Some v else None
      end
  end.

(** Dicts whose keys are all in lower case and distinct. *)
Definition lower_keyed (d : dict Json.value) : Prop :=
  dict_wf d /\ Forall (fun k => PyStr.lower k = k) (keys d).

(** ** Vocabulary for the further properties of the ticket extractor *)

(** The characters a bracketed ticket key is written with. *)
Definition ticket_char (c : ascii) : bool :=
  PyStr.isupper_az c || PyStr.isdecimal c
  || Ascii.eqb c "[" || Ascii.eqb c "]" || Ascii.eqb c "-".

(* ================================================================== *)
(** ** Built-ins of the ticket reports *)

(** [sorted(l)] on strings: ascending in the order of the code points.  Any
    sorting algorithm gives the same list, since strings that compare equal
    are the same string; this one inserts each element in turn. *)
Fixpoint insert_sorted (x : string) (l : list string) : list string :=
  match l with
  | [] => [x]
  | y :: l' => if String.leb x y then x :: l else y :: insert_sorted x l'
  end.

Definition sorted (l : list string) : list string :=
  fold_right insert_sorted [] l.

(** Ascending lists. *)
Definition ascending : list string -> Prop :=
  StronglySorted (fun a b => String.leb a b = true).

(** [s.split('-')[0]]: the text before the first hyphen, all of it when
    there is none. *)
Fixpoint before_hyphen (s : string) : string :=
  match s with
  | EmptyString => EmptyString
  | String c s' => if Ascii.eqb c "-" then EmptyString
                   else String c (before_hyphen s')
  end.

(** [s.strip(c)] for a single character [c]. *)
Fixpoint lstrip_char (c : ascii) (s : string) : string :=
  match s with
  | EmptyString => EmptyString
  | String x s' => if Ascii.eqb x c then lstrip_char c s' else s
  end.

Fixpoint rstrip_char (c : ascii) (s : string) : string :=
  match s with
  | EmptyString => EmptyString
  | String x s' =>
      match rstrip_char c s' with
      | EmptyString => if Ascii.eqb x c then EmptyString
                       else String x EmptyString
      | r => String x r
      end
  end.

Definition strip_char (c : ascii) (s : string) : string :=
  rstrip_char c (lstrip_char c s).

(** Where [$] matches: at the end of the text, or before a line feed that
    ends it. *)
Definition at_end (s : string) : bool :=
  match s with
  | EmptyString => true
  | String c EmptyString => PyStr.code c =? 10
  | _ => false
  end.

(** [re.match] for a pattern that ends with [$]. *)
Definition re_match_end (ignorecase : bool) (r : Re.regex) (s : string)
    : option Re.match_obj :=
  Re.rmatch ignorecase r s []
    (fun s' cs => if at_end s' then Some (Re.mkMatch cs s') else None).

(** [s.split(c)] for a single character [c]. *)
Fixpoint split_on (c : ascii) (s : string) : list string :=
  match s with
  | EmptyString => [EmptyString]
  | String x s' =>
      if Ascii.eqb x c then EmptyString :: split_on c s'
      else match split_on c s' with
           | l :: ls => String x l :: ls
           | [] => [String x EmptyString]
           end
  end.

(** [s.split()]: the maximal runs of characters other than white space. *)
Fixpoint split_ws (s : string) : list string :=
  match s with
  | EmptyString => []
  | String x s' =>
      if PyStr.isspace x then split_ws s'
      else
        match s' with
        | EmptyString => [String x EmptyString]
        | String y _ =>
            if PyStr.isspace y then String x EmptyString :: split_ws s'
            else match split_ws s' with
                 | w :: ws => String x w :: ws
                 | [] => [String x EmptyString]
                 end
        end
  end.

(** [d.get(k, default)] *)
Definition get_default {V : Type} (d : dict V) (k : string) (default : V) : V :=
  match dict_get d k with
  | Some v => v
  | None => default
  end.

(** [s.update(l)] on a set. *)
Definition set_update (s : set string) (l : list string) : set string :=
  fold_left (fun acc x => set_add string_dec x acc) l s.

(* ================================================================== *)
(** ** Grouping tickets by project

    The same loop stands in [save_tickets_to_file], in [print_tickets] and,
    twice, in [process_all_services]. *)

(** Body of the grouping loop:
    [if prefix not in projects: projects[prefix] = []] and then
    [projects[prefix].append(ticket)]; the lookup of the second statement
    finds the list the first one ensured. *)
Definition group_step (projects : dict (list string)) (ticket : string)
    : dict (list string) :=
  let prefix := before_hyphen ticket in
  let projects :=
    if negb (dict_mem projects prefix) then dict_set projects prefix []
    else projects in
  match dict_get projects prefix with
  | Some project_tickets =>
      dict_set projects prefix (project_tickets ++ [ticket])
  | None => projects
  end.

Definition group_by_project (tickets : list string) : dict (list string) :=
  fold_left group_step tickets [].

(** The ticket is filed under [prefix]. *)
Definition has_prefix (prefix ticket : string) : bool :=
  String.eqb (before_hyphen ticket) prefix.

(** Sum of the [len(project_tickets)] the summaries print. *)
Definition group_sizes (projects : dict (list string)) : nat :=
  list_sum (map (fun kv => length (snd kv)) projects).

(** A project prefix: 2 to 6 letters A-Z. *)
Definition is_project (p : string) : Prop :=
  PyStr.all PyStr.isupper_az p = true /\ 2 <= String.length p <= 6.

(* ================================================================== *)
(** ** tags-diff/fetchTicketChangesInBuildsForRepo.py, the ticket details *)

(** What [fetch_ticket_details] returns for a ticket the API knows. *)
Record details : Type := mkDetails {
  d_id : string;
  d_title : string;
  d_state : string;
  d_assignee : string
}.

Module LinearTicketDetails.
Section Extractor.

(** [self.api_key], [None] when neither the argument nor the environment
    gives one. *)
Variable api_key : option string.

(** [fetch_ticket_details], which asks the Linear API. *)
Variable fetch_ticket_details : string -> option details.

Definition fetch_all_ticket_details (tickets : set string)
    : dict (option details) :=
  if negb (ServiceMapper.truthy_opt api_key) then
    dict_of_display (map (fun ticket => (ticket, None)) tickets)
  else
    fold_left
      (fun ticket_details ticket =>
         let details := fetch_ticket_details ticket in
         dict_set ticket_details ticket details)
      (sorted tickets) [].

(** The projects of the summary of [save_tickets_to_file] and of the verbose
    [print_tickets]: the grouping loop run on [sorted(tickets)]. *)
Definition projects_of (tickets : set string) : dict (list string) :=
  let sorted_tickets := sorted tickets in
  group_by_project sorted_tickets.

End Extractor.
End LinearTicketDetails.

(* ================================================================== *)
(** ** tags-diff/process_all_repos.py *)

Module RepositoryProcessor.

(** The [status] field of a service result. *)
Inductive status : Type :=
| new_service
| no_new_version
| error
| success.

(** The dict [process_service] returns. *)
Record service_result : Type := mkResult {
  r_service : string;
  r_repository : string;
  r_repo_path : string;
  r_version_key : string;
  r_current_tag : string;
  r_new_tag : string;
  r_status : status;
  r_tickets : list string;
  r_ticket_count : nat;
  r_error : option string
}.

(** The [metadata] of the report, without its time stamp. *)
Record metadata : Type := mkMetadata {
  meta_total_services : nat;
  meta_processed : nat;
  meta_skipped : nat;
  meta_failed : nat;
  meta_total_unique_tickets : nat
}.

(** The dict [process_all_services] returns. *)
Record report : Type := mkReport {
  rep_metadata : metadata;
  rep_services : list service_result;
  rep_all_tickets : list string;
  rep_tickets_by_project : dict (list string)
}.

(** The local variables of the loop of [process_all_services]. *)
Record loop_state : Type := mkState {
  results : list service_result;
  processed : nat;
  skipped : nat;
  failed : nat;
  total_tickets : set string
}.

(** Same pattern and same body as the method of [LinearTicketExtractor]. *)
Definition extract_tickets_from_text (text : string) : set string :=
  LinearTicketExtractor.extract_tickets_from_text text.

Section Processor.

(** The fields set by [__init__]. *)
Variable skip_unchanged : bool.
Variable fetch_linear_details : bool.
Variable linear_api_key : option string.

(** [extract_repo_path], built on [urlparse]; [None] when it raises. *)
Variable extract_repo_path : string -> option string.

(** [call_compare_tags], which runs [compare_tags.py] and returns what it
    prints, the empty string when it fails. *)
Variable call_compare_tags : string -> string -> string -> string.

(** [fetch_ticket_details], which asks the Linear API. *)
Variable fetch_ticket_details : string -> option details.

Definition fetch_all_ticket_details (tickets : set string)
    : dict (option details) :=
  if negb fetch_linear_details
     || negb (ServiceMapper.truthy_opt linear_api_key) then
    dict_of_display (map (fun ticket => (ticket, None)) tickets)
  else
    fold_left
      (fun ticket_details ticket =>
         let details := fetch_ticket_details ticket in
         dict_set ticket_details ticket details)
      (sorted tickets) [].

Definition should_process_service (service : dict string) : bool :=
  let current := get_default service "current_tag" "" in
  let new := get_default service "new_tag" "" in
  if negb (PyStr.truthy current) && negb (PyStr.truthy new) then false
  else if skip_unchanged && String.eqb current new then false
  else true.

Definition process_service (service : dict string) : option service_result :=
  let service_name := get_default service "service" "unknown" in
  let repo_url := get_default service "repository" "" in
  let current_tag := get_default service "current_tag" "" in
  let new_tag := get_default service "new_tag" "" in
  let version_key := get_default service "version_key" "" in
  match extract_repo_path repo_url with
  | None => None
  | Some repo_path =>
      if negb (PyStr.truthy repo_path) then None
      else if negb (PyStr.truthy current_tag) && PyStr.truthy new_tag then
        Some (mkResult service_name repo_url repo_path version_key
                       current_tag new_tag new_service [] 0 None)
      else if negb (PyStr.truthy new_tag) then
        Some (mkResult service_name repo_url repo_path version_key
                       current_tag new_tag no_new_version [] 0 None)
      else
        let output := call_compare_tags repo_path current_tag new_tag in
        if negb (PyStr.truthy output) then
          Some (mkResult service_name repo_url repo_path version_key
                         current_tag new_tag error [] 0
                         (Some "Failed to fetch commits or no commits found"))
        else
          let tickets := extract_tickets_from_text output in
          let sorted_tickets := sorted tickets in
          Some (mkResult service_name repo_url repo_path version_key
                         current_tag new_tag success sorted_tickets
                         (length tickets) None)
  end.

(** Body of the loop over the services. *)
Definition service_step (st : loop_state) (service : dict string)
    : loop_state :=
  if negb (should_process_service service) then
    mkState (results st) (processed st) (skipped st + 1) (failed st)
            (total_tickets st)
  else
    match process_service service with
    | Some result =>
        let results := results st ++ [result] in
        match r_status result with
        | success =>
            mkState results (processed st + 1) (skipped st) (failed st)
                    (set_update (total_tickets st) (r_tickets result))
        | error =>
            mkState results (processed st) (skipped st) (failed st + 1)
                    (total_tickets st)
        | _ =>
            mkState results (processed st) (skipped st) (failed st)
                    (total_tickets st)
        end
    | None =>
        mkState (results st) (processed st) (skipped st) (failed st + 1)
                (total_tickets st)
    end.

Definition services_loop (services : list (dict string)) : loop_state :=
  fold_left service_step services (mkState [] 0 0 0 (empty_set string)).

(** The loop that collects [all_tickets_set] from the results. *)
Definition collect_tickets (results : list service_result) : set string :=
  fold_left
    (fun all_tickets_set result =>
       match r_status result with
       | success => set_update all_tickets_set (r_tickets result)
       | _ => all_tickets_set
       end)
    results (empty_set string).

(** One entry of [all_tickets]: the id and the title when the details hold a
    title, the id alone otherwise. *)
Definition ticket_entry (ticket_details_map : dict (option details))
    (ticket_id : string) : string :=
  match get_default ticket_details_map ticket_id None with
  | Some details =>
      if PyStr.truthy (d_title details) then
        String.append ticket_id (String.append ": " (d_title details))
      else ticket_id
  | None => ticket_id
  end.

(** The loop [for prefix in tickets_by_project] that sorts every group. *)
Definition sort_groups (tickets_by_project : dict (list string))
    : dict (list string) :=
  fold_left
    (fun acc prefix =>
       match dict_get acc prefix with
       | Some group => dict_set acc prefix (sorted group)
       | None => acc
       end)
    (keys tickets_by_project) tickets_by_project.

Definition process_all_services (services : list (dict string)) : report :=
  let total_services := length services in
  let st := services_loop services in
  let all_tickets_set := collect_tickets (results st) in
  let ticket_details_map := fetch_all_ticket_details all_tickets_set in
  let all_tickets :=
    map (ticket_entry ticket_details_map) (sorted all_tickets_set) in
  let tickets_by_project :=
    sort_groups (group_by_project (sorted all_tickets_set)) in
  mkReport
    (mkMetadata total_services (processed st) (skipped st) (failed st)
                (length all_tickets_set))
    (results st) all_tickets tickets_by_project.

End Processor.

(** *** What the report is expected to satisfy *)

Definition is_pending (r : service_result) : bool :=
  match r_status r with
  | new_service | no_new_version => true
  | _ => false
  end.

Definition is_success (r : service_result) : bool :=
  match r_status r with
  | success => true
  | _ => false
  end.

(** The fields of a result agree with its status. *)
Definition result_ok (r : service_result) : Prop :=
  r_repo_path r <> EmptyString
  /\ r_ticket_count r = length (r_tickets r)
  /\ match r_status r with
     | success =>
         r_current_tag r <> EmptyString /\ r_new_tag r <> EmptyString
         /\ r_error r = None
         /\ NoDup (r_tickets r) /\ ascending (r_tickets r)
         /\ Forall is_ticket (r_tickets r)
     | error =>
         r_current_tag r <> EmptyString /\ r_new_tag r <> EmptyString
         /\ r_error r <> None /\ r_tickets r = []
     | new_service =>
         r_current_tag r = EmptyString /\ r_new_tag r <> EmptyString
         /\ r_error r = None /\ r_tickets r = []
     | no_new_version =>
         r_current_tag r <> EmptyString /\ r_new_tag r = EmptyString
         /\ r_error r = None /\ r_tickets r = []
     end.

Definition is_error (r : service_result) : bool :=
  match r_status r with
  | error => true
  | _ => false
  end.

(** Number of members of a list that pass a test. *)
Definition count {A : Type} (p : A -> bool) (l : list A) : nat :=
  length (filter p l).

(** The state of the loop of [process_all_services] once the services [seen]
    are done, for the given [should_process_service] and
    [process_service]. *)
Definition loop_invariant (should : dict string -> bool)
    (process : dict string -> option service_result)
    (seen : list (dict string)) (st : loop_state) : Prop :=
  processed st + skipped st + failed st + count is_pending (results st)
  = length seen
  /\ processed st = count is_success (results st)
  /\ skipped st = count (fun s => negb (should s)) seen
  /\ failed st
     = count is_error (results st)
       + count (fun s => should s && is_none (process s)) seen
  /\ results st
     = flat_map (fun s => if should s
                          then match process s with
                               | Some r => [r]
                               | None => []
                               end
                          else []) seen.

(** The entry of [all_tickets] for a ticket with the given details. *)
Definition entry_for (ticket_id : string) (d : option details) : string :=
  match d with
  | Some details =>
      if PyStr.truthy (d_title details) then
        String.append ticket_id (String.append ": " (d_title details))
      else ticket_id
  | None => ticket_id
  end.

End RepositoryProcessor.

(* ================================================================== *)
(** ** tags-diff/generate_input_json.py *)

Module GenerateInputJson.

(** The values of [SERVICE_VERSION_MAP]. *)
Record service_info : Type := mkInfo {
  version_key : string;
  repository : string
}.

Definition SERVICE_VERSION_MAP : dict service_info :=
  dict_of_display
    [ ("ui", mkInfo "APPCDUI_VERSION" "https://github.com/appcd-dev/appcd-ui");
      ("appcd", mkInfo "APPCD_VERSION" "https://github.com/appcd-dev/appcd");
      ("iac-gen", mkInfo "IACGEN_VERSION" "https://github.com/appcd-dev/iac-gen");
      ("exporter",
       mkInfo "STACK_EXPORTER_VERSION"
              "https://github.com/appcd-dev/stack-exporter");
      ("vault",
       mkInfo "STACKGEN_VAULT_VERSION"
              "https://github.com/appcd-dev/stackgen-vault");
      ("integrations",
       mkInfo "INTEGRATIONS_VERSION"
              "https://github.com/appcd-dev/integrations");
      ("backstage-adapter",
       mkInfo "BACKSTAGE_ADAPTER_VERSION"
              "https://github.com/appcd-dev/backstage-adapter");
      ("infra-catalog-tracker",
       mkInfo "INFRA_CATALOG_TRACKER_VERSION"
              "https://github.com/appcd-dev/infra-catalog-tracker");
      ("sgai-orchestration",
       mkInfo "SGAI_ORCHESTRATION"
              "https://github.com/appcd-dev/sgai-orchestration");
      ("deployment-manager",
       mkInfo "DEPLOYMENT_MANAGER_VERSION"
              "https://github.com/appcd-dev/deployment-manager");
      ("notifications",
       mkInfo "STACKGEN_NOTIFICATION"
              "https://github.com/appcd-dev/stackgen-notification");
      ("tf-module-service",
       mkInfo "TF_MODULE_SERVICE_VERSION"
              "https://github.com/appcd-dev/tf-module-service");
      ("audit-manager",
       mkInfo "AUDIT_MANAGER_VERSION"
              "https://github.com/appcd-dev/audit-manager");
      ("aiden", mkInfo "AIDEN_VERSION" "https://github.com/appcd-dev/aiden");
      ("aiden-ui",
       mkInfo "AIDEN_UI_VERSION" "https://github.com/appcd-dev/aiden-ui-v2") ].

(** [[A-Z_]], [[A-Z0-9_]] and the dot. *)
Definition isname_start (c : ascii) : bool :=
  PyStr.isupper_az c || (PyStr.code c =? 95).

Definition isname_char (c : ascii) : bool :=
  PyStr.isupper_az c || PyStr.between 48 57 c || (PyStr.code c =? 95).

Definition notnewline (c : ascii) : bool := negb (PyStr.code c =? 10).

(** The pattern of [parse_env_file]: a name (group 1: a capital letter or
    an underscore, then capital letters, digits and underscores), white
    space, the equals sign, white space, and one character or more up to
    the end (group 2).  The final dollar is left to [re_match_end]. *)
Definition env_line_pattern : Re.regex :=
  Re.seq [ Re.Grp 1 (Re.Seq (Re.Cls isname_start) (Re.Rep isname_char 0 None));
           Re.Rep PyStr.isspace 0 None; Re.Lit "=";
           Re.Rep PyStr.isspace 0 None;
           Re.Grp 2 (Re.Rep notnewline 1 None) ].

(** Body of the loop of [parse_env_file].  Both groups take part in every
    match, so [match.groups()] unpacks into two strings. *)
Definition env_line_step (env_vars : dict string) (line : string)
    : dict string :=
  let line := PyStr.strip line in
  if negb (PyStr.truthy line) || PyStr.startswith "#" line then env_vars
  else
    match re_match_end false env_line_pattern line with
    | Some m =>
        match Re.group m 1, Re.group m 2 with
        | Some key, Some value =>
            let value :=
              strip_char "'" (strip_char "034" (PyStr.strip value)) in
            dict_set env_vars key value
        | _, _ => env_vars
        end
    | None => env_vars
    end.

Definition parse_env_file (content : string) : dict string :=
  fold_left env_line_step (PyStr.split_nl content) [].

(** The dict appended for one service. *)
Definition entry (service_name : string) (info : service_info)
    (current_tag new_tag : string) : dict string :=
  dict_of_display
    [ ("service", service_name);
      ("repository", repository info);
      ("version_key", version_key info);
      ("current_tag", current_tag);
      ("new_tag", new_tag) ].

(** Body of the loop over the items of the table. *)
Definition service_step (current_versions new_versions : dict string)
    (result : list (dict string)) (item : string * service_info)
    : list (dict string) :=
  let '(service_name, service_info) := item in
  let current_tag := get_default current_versions service_name "v1.0.0" in
  let new_tag := get_default new_versions (version_key service_info) "" in
  if PyStr.truthy current_tag || PyStr.truthy new_tag then
    result ++ [entry service_name service_info current_tag new_tag]
  else result.

Definition generate_input_json (current_versions new_versions : dict string)
    : list (dict string) :=
  fold_left (service_step current_versions new_versions)
            SERVICE_VERSION_MAP [].

(** *** What the entries are expected to satisfy *)

(** A line [KEY = "value"] of an env file. *)
Definition env_line (key ws1 ws2 q1 value q2 : string) : string :=
  String.append key
    (String.append ws1
       (String "="
          (String.append ws2
             (String.append q1 (String.append value q2))))).

(** A name the pattern of [parse_env_file] takes for a key. *)
Definition is_env_key (key : string) : bool :=
  match key with
  | EmptyString => false
  | String c rest => isname_start c && PyStr.all isname_char rest
  end.

(** The service is deployed with an empty version and the env file gives
    it no version. *)
Definition without_versions (current_versions new_versions : dict string)
    (item : string * service_info) : bool :=
  match dict_get current_versions (fst item) with
  | Some current => negb (PyStr.truthy current)
  | None => false
  end
  && negb (PyStr.truthy
             (get_default new_versions (version_key (snd item)) "")).

End GenerateInputJson.

(* ================================================================== *)
(** ** tags-diff/single_repo_ticket_processor.py *)

Module SingleRepoTicketProcessor.

Definition parse_repo_input (input_line : string)
    : option (string * string * string) :=
  let input_line := PyStr.strip input_line in
  if negb (PyStr.truthy input_line) then None
  else
    let colon_format :=
      if PyStr.contains ":" input_line then
        match split_on ":" input_line with
        | [repo; from_tag; to_tag] =>
            Some (PyStr.strip repo, PyStr.strip from_tag, PyStr.strip to_tag)
        | _ => None
        end
      else None in
    match colon_format with
    | Some parsed => Some parsed
    | None =>
        match split_ws input_line with
        | [repo; from_tag; to_tag] =>
            Some (PyStr.strip repo, PyStr.strip from_tag, PyStr.strip to_tag)
        | _ => None
        end
    end.

(** [s.replace(a, b)] for single characters. *)
Fixpoint replace_char (a b : ascii) (s : string) : string :=
  match s with
  | EmptyString => EmptyString
  | String c s' =>
      String (if Ascii.eqb c a then b else c) (replace_char a b s')
  end.

(** The dict built by [process_single_request], without its time stamp;
    [error] is the key that is only set on a failure. *)
Record request_result : Type := mkRequest {
  repo : string;
  from_tag : string;
  to_tag : string;
  success : bool;
  ticket_count : nat;
  output_file : string;
  error : option string
}.

(** The dicts live in a store and the lists hold references to them: the
    dict that [process_single_request] appends to [failed_requests] is the
    one it then writes [error] into, and the one it returns. *)
Definition ref : Type := nat.

Record processor : Type := mkProcessor {
  store : list request_result;
  results : list ref;
  failed_requests : list ref
}.

(** [SingleRepoTicketProcessor()] *)
Definition new_processor : processor := mkProcessor [] [] [].

Definition deref (p : processor) (r : ref) : option request_result :=
  nth_error (store p) r.

(** [result['error'] = output] on the dict behind a reference. *)
Fixpoint set_error (s : list request_result) (r : ref) (output : string)
    : list request_result :=
  match s, r with
  | [], _ => []
  | x :: s', 0 =>
      mkRequest (repo x) (from_tag x) (to_tag x) (success x) (ticket_count x)
                (output_file x) (Some output) :: s'
  | x :: s', S r' => x :: set_error s' r' output
  end.

Section Requests.

(** [call_fetch_tickets_script], which runs the extractor script: whether
    it succeeded, what it printed, and the ticket count read back. *)
Variable call_fetch_tickets_script :
  string -> string -> string -> string -> bool -> bool * string * nat.

(** [process_single_request] with [output_file] left to its default. *)
Definition process_single_request (p : processor)
    (repo from_tag to_tag : string) (verbose : bool) : processor * ref :=
  let safe_repo_name := replace_char ":" "_" (replace_char "/" "_" repo) in
  let output_file :=
    String.append "tickets_"
      (String.append safe_repo_name
         (String.append "_"
            (String.append from_tag
               (String.append "_to_" (String.append to_tag ".txt"))))) in
  let '(success, output, ticket_count) :=
    call_fetch_tickets_script repo from_tag to_tag output_file verbose in
  let result := length (store p) in
  let store1 :=
    store p ++ [mkRequest repo from_tag to_tag success ticket_count
                          output_file None] in
  if success then
    (mkProcessor store1 (results p ++ [result]) (failed_requests p), result)
  else
    let failed := failed_requests p ++ [result] in
    (mkProcessor (set_error store1 result output) (results p) failed, result).

(** Body of the loop of [process_from_file] over the lines read. *)
Definition file_line_step (verbose : bool) (acc : processor * list ref)
    (line : string) : processor * list ref :=
  let '(p, results) := acc in
  let line := PyStr.strip line in
  if negb (PyStr.truthy line) || PyStr.startswith "#" line then acc
  else
    match parse_repo_input line with
    | None => acc
    | Some (repo, from_tag, to_tag) =>
        let '(p', result) :=
          process_single_request p repo from_tag to_tag verbose in
        (p', results ++ [result])
    end.

(** [process_from_file] on the lines of the input file. *)
Definition process_from_file (p : processor) (lines : list string)
    (verbose : bool) : processor * list ref :=
  fold_left (file_line_step verbose) lines (p, []).

End Requests.

(** *** What the summary report prints *)

(** [result.get('error', 'Unknown error')] *)
Definition shown_error (r : request_result) : string :=
  match error r with
  | Some e => e
  | None => "Unknown error"
  end.

(** The dict records what the script answered for its request; [error] is
    set exactly on a failure, to what the script printed. *)
Definition recorded
    (call : string -> string -> string -> string -> bool
            -> bool * string * nat)
    (verbose : bool) (x : request_result) : Prop :=
  let '(s, output, n) :=
    call (repo x) (from_tag x) (to_tag x) (output_file x) verbose in
  success x = s /\ ticket_count x = n
  /\ error x = if s then None else Some output.

(** The dict behind the reference is a success. *)
Definition succeeded (p : processor) (r : ref) : bool :=
  match deref p r with
  | Some x => success x
  | None => false
  end.

(** A processor whose two lists share out the dicts of its store. *)
Definition processor_ok
    (call : string -> string -> string -> string -> bool
            -> bool * string * nat)
    (verbose : bool) (p : processor) : Prop :=
  Forall (recorded call verbose) (store p)
  /\ results p = filter (succeeded p) (seq 0 (length (store p)))
  /\ failed_requests p
     = filter (fun r => negb (succeeded p r)) (seq 0 (length (store p))).

(** The line is a request: not blank, not a comment, and in one of the two
    formats. *)
Definition is_request (line : string) : bool :=
  let l := PyStr.strip line in
  negb (negb (PyStr.truthy l) || PyStr.startswith "#" l)
  && negb (is_none (parse_repo_input l)).

End SingleRepoTicketProcessor.

(* ================================================================== *)
(** ** tags-diff/compare_tags.py, the line printed for a commit *)

Module GitHubTagComparator.

(** The fields of a commit of the GitHub API that the line shows:
    [commit['sha']], [commit['commit']['message']] and, under
    [commit['commit']['author']], [name] and [date]. *)
Record commit : Type := mkCommit {
  sha : string;
  message : string;
  author_name : string;
  author_date : string
}.

(** [s.split('\n')[0]] *)
Definition first_line (s : string) : string :=
  hd EmptyString (PyStr.split_nl s).

Section Format.

(** The date read by [datetime.fromisoformat] and printed by [strftime],
    [None] when reading it raises. *)
Variable iso_minutes : string -> option string.

Definition formatted_date (c : commit) : string :=
  match iso_minutes (author_date c) with
  | Some formatted => formatted
  | None => author_date c
  end.

Definition format_commit_info (c : commit) : string :=
  let sha := PyStr.take 7 (sha c) in
  let message := first_line (message c) in
  let author := author_name c in
  String.append "  "
    (String.append sha
       (String.append " - "
          (String.append message
             (String.append " ("
                (String.append author
                   (String.append ", "
                      (String.append (formatted_date c) ")"))))))).

End Format.
End GitHubTagComparator.

(* ================================================================== *)
(** * Properties *)

(** The three kinds of record of a unified comparison. *)
Example unified_sample :
  ServiceMapper.create_unified_comparison
    [("appcd", "v0.65.4"); ("llm_gateway", "v0.6.3")]
    [("appcd", "v2025.7.10"); ("exporter", "v0.9.9")]
  = [ ("appcd", mkComparison (Some "v0.65.4") (Some "v2025.7.10")
                             (Some "appcd") (Some "appcd"));
      ("llm_gateway", mkComparison (Some "v0.6.3") None
                                   (Some "llm_gateway") None);
      ("deployed_only_exporter", mkComparison None (Some "v0.9.9")
                                              None (Some "exporter")) ].
Proof. reflexivity. Qed.

(** The specification's example of a differing service. *)
Example compare_sample :
  VersionComparator.compare_versions [("appcd", "v2025.7.10")] [("appcd", "v0.65.4")]
  = (mkResults
       [("appcd", mkComparison (Some "v0.65.4") (Some "v2025.7.10")
                               (Some "appcd") (Some "appcd"))]
       [] [] [],
     true).
Proof. reflexivity. Qed.

(* ================================================================== *)
(** ** Facts about dictionaries *)

Section DictFacts.
Context {V : Type}.
Implicit Types (d : dict V) (k : string) (v : V).

Lemma dict_get_set_eq d k v : dict_get (dict_set d k v) k = Some v.
Proof.
  induction d as [|[k' v'] d IH]; simpl.
  - now rewrite String.eqb_refl.
  - destruct (String.eqb k' k) eqn:E; simpl; rewrite E; auto.
Qed.

Lemma dict_get_set_neq d k k' v :
  k <> k' -> dict_get (dict_set d k v) k' = dict_get d k'.
Proof.
  intros Hne. induction d as [|[k0 v0] d IH]; simpl.
  - apply String.eqb_neq in Hne. now rewrite Hne.
  - destruct (String.eqb k0 k) eqn:E; simpl.
    + apply String.eqb_eq in E. subst k0.
      apply String.eqb_neq in Hne. now rewrite Hne.
    + now rewrite IH.
Qed.

Lemma dict_get_In d k v : dict_get d k = Some v -> In (k, v) d.
Proof.
  induction d as [|[k' v'] d IH]; simpl; [discriminate|].
  destruct (String.eqb k' k) eqn:E; intros H.
  - apply String.eqb_eq in E. injection H as ->. subst. now left.
  - right. auto.
Qed.

Lemma dict_get_None d k : dict_get d k = None <-> ~ In k (keys d).
Proof.
  induction d as [|[k' v'] d IH]; simpl; [tauto|].
  destruct (String.eqb k' k) eqn:E.
  - apply String.eqb_eq in E. split; [discriminate | intros H; exfalso; auto].
  - apply String.eqb_neq in E. rewrite IH. tauto.
Qed.

Lemma In_dict_get d k v : dict_wf d -> In (k, v) d -> dict_get d k = Some v.
Proof.
  unfold dict_wf. induction d as [|[k' v'] d IH]; simpl; [tauto|].
  intros Hnd [H|H]; inversion Hnd as [|? ? Hnotin Hnd']; subst.
  - injection H as -> ->. now rewrite String.eqb_refl.
  - destruct (String.eqb k' k) eqn:E; auto.
    apply String.eqb_eq in E. subst k'.
    exfalso. apply Hnotin. change k with (fst (k, v)). now apply in_map.
Qed.

Lemma dict_mem_In d k : dict_mem d k = true <-> In k (keys d).
Proof.
  unfold dict_mem. destruct (dict_get d k) eqn:E.
  - split; auto. intros _. apply dict_get_In in E.
    change k with (fst (k, v)). now apply in_map.
  - split; [discriminate|]. intros H. now apply dict_get_None in E.
Qed.

Lemma dict_set_fresh d k v :
  ~ In k (keys d) -> dict_set d k v = d ++ [(k, v)].
Proof.
  induction d as [|[k' v'] d IH]; simpl; auto.
  intros H. destruct (String.eqb k' k) eqn:E.
  - apply String.eqb_eq in E. tauto.
  - rewrite IH; auto.
Qed.

Lemma In_dict_set d k v k' v' :
  In (k', v') (dict_set d k v) -> (k' = k /\ v' = v) \/ In (k', v') d.
Proof.
  induction d as [|[k0 v0] d IH]; simpl.
  - intros [H|[]]. injection H as -> ->. auto.
  - destruct (String.eqb k0 k) eqn:E; simpl.
    + apply String.eqb_eq in E. subst k0.
      intros [H|H]; [injection H as -> ->|]; auto.
    + intros [H|H]; auto. destruct (IH H); auto.
Qed.

Lemma keys_dict_set d k v :
  keys (dict_set d k v) = if dict_mem d k then keys d else keys d ++ [k].
Proof.
  unfold dict_mem. induction d as [|[k' v'] d IH]; simpl; auto.
  destruct (String.eqb k' k) eqn:E; simpl; auto.
  rewrite IH. now destruct (dict_get d k).
Qed.

Lemma dict_wf_set d k v : dict_wf d -> dict_wf (dict_set d k v).
Proof.
  unfold dict_wf. intros H. rewrite keys_dict_set.
  destruct (dict_mem d k) eqn:E; auto.
  assert (Hk : ~ In k (keys d)).
  { intros Hin. apply dict_mem_In in Hin. congruence. }
  clear E. induction (keys d) as [|a l IH]; simpl.
  - constructor; [tauto | constructor].
  - inversion H; subst. constructor.
    + rewrite in_app_iff. simpl. simpl in Hk. intuition congruence.
    + apply IH; auto. simpl in Hk. tauto.
Qed.

Lemma dict_wf_NoDup d : dict_wf d -> NoDup d.
Proof. unfold dict_wf, keys. apply NoDup_map_inv. Qed.

Lemma dict_wf_functional d k v v' :
  dict_wf d -> In (k, v) d -> In (k, v') d -> v = v'.
Proof.
  intros Hwf H1 H2. apply (In_dict_get _ _ _ Hwf) in H1, H2. congruence.
Qed.

(** Values stored by [dict_set] keep an invariant of the values. *)
Lemma Forall_dict_set (P : V -> Prop) d k v :
  Forall (fun kv => P (snd kv)) d -> P v ->
  Forall (fun kv => P (snd kv)) (dict_set d k v).
Proof.
  intros Hd Hv. apply Forall_forall. intros [k' v'] Hin.
  apply In_dict_set in Hin. destruct Hin as [[-> ->]|Hin]; auto.
  rewrite Forall_forall in Hd. apply (Hd _ Hin).
Qed.

(** In a duplicate-free list, a predicate satisfied by one member only
    filters down to that member. *)
Lemma filter_singleton {A : Type} (p : A -> bool) (l : list A) (a : A) :
  NoDup l -> In a l -> p a = true ->
  (forall x, In x l -> p x = true -> x = a) ->
  filter p l = [a].
Proof.
  intros Hnd Hin Hpa Huniq. induction l as [|x l IH]; [destruct Hin|].
  inversion Hnd as [|? ? Hx Hnd']; subst. simpl.
  assert (Hrest : forall l', (forall y, In y l' -> p y = true -> False) ->
                             filter p l' = []).
  { induction l' as [|y l' IH']; simpl; auto. intros Hno.
    destruct (p y) eqn:E; [exfalso; apply (Hno y); simpl; auto|].
    apply IH'. intros z Hz. apply Hno. simpl; auto. }
  destruct Hin as [->|Hin].
  - rewrite Hpa. f_equal. apply Hrest. intros y Hy Hpy.
    assert (y = a) by (apply Huniq; simpl; auto). subst. auto.
  - destruct (p x) eqn:E.
    + assert (x = a) by (apply Huniq; simpl; auto). subst. tauto.
    + apply IH; auto. intros y Hy. apply Huniq. simpl; auto.
Qed.

Lemma filter_none {A : Type} (p : A -> bool) (l : list A) :
  (forall x, In x l -> p x = false) -> filter p l = [].
Proof.
  induction l as [|x l IH]; simpl; auto. intros H.
  rewrite (H x) by auto. apply IH. auto.
Qed.
End DictFacts.

(* ================================================================== *)
(** ** Reconciliation: [create_unified_comparison] *)

Section Reconcile.
Import ServiceMapper.

(** Every value of the table that is not the marker is a non-empty name,
    so the fallback of [map_env_to_deployed] is never taken. *)
Lemma mapping_get_truthy k m : mapping_get k = Some m -> PyStr.truthy m = true.
Proof.
  unfold mapping_get. destruct (dict_get SERVICE_NAME_MAPPING k) as [v|] eqn:E;
    [|discriminate].
  intros ->. apply dict_get_In in E.
  assert (H : forallb (fun kv => match snd kv with
                                 | Some m' => PyStr.truthy m'
                                 | None => true
                                 end) SERVICE_NAME_MAPPING = true)
    by reflexivity.
  rewrite forallb_forall in H. apply (H _ E).
Qed.

Lemma map_env_to_deployed_some e d :
  map_env_to_deployed e = Some d ->
  mapping_get (PyStr.lower e) = Some d /\ PyStr.truthy d = true.
Proof.
  unfold map_env_to_deployed.
  destruct (mapping_get (PyStr.lower e)) as [m|] eqn:E; [|discriminate].
  pose proof (mapping_get_truthy _ _ E) as Ht. rewrite Ht.
  intros H. injection H as <-. auto.
Qed.

Lemma set_mem_add (x y : string) (s : set string) :
  set_mem string_dec x (set_add string_dec y s)
  = String.eqb y x || set_mem string_dec x s.
Proof.
  induction s as [|a s IH]; simpl.
  - destruct (string_dec x y) as [->|Hne].
    + now rewrite String.eqb_refl.
    + assert (y <> x) by congruence.
      apply String.eqb_neq in H. now rewrite H.
  - destruct (string_dec y a) as [->|Hya]; simpl.
    + destruct (string_dec x a) as [->|Hxa].
      * now rewrite orb_true_r.
      * assert (a <> x) by congruence.
        apply String.eqb_neq in H. now rewrite H.
    + destruct (string_dec x a) as [->|Hxa].
      * now rewrite orb_true_r.
      * exact IH.
Qed.

(** The second loop collects exactly the referenced deployed names. *)
Lemma mapped_fold ks : forall s0 d,
  set_mem string_dec d (fold_left mapped_step ks s0)
  = set_mem string_dec d s0
    || existsb (fun e => match map_env_to_deployed e with
                         | Some d' => String.eqb d' d
                         | None => false
                         end) ks.
Proof.
  induction ks as [|e ks IH]; intros s0 d; simpl.
  - now rewrite orb_false_r.
  - rewrite IH. unfold mapped_step.
    destruct (map_env_to_deployed e) as [ds|] eqn:E; simpl.
    + destruct (map_env_to_deployed_some _ _ E) as [_ ->].
      rewrite set_mem_add.
      destruct (String.eqb ds d), (set_mem string_dec d s0); reflexivity.
    + reflexivity.
Qed.

Lemma mapped_referenced env d :
  set_mem string_dec d (fold_left mapped_step (keys env) (empty_set string))
  = referenced env d.
Proof. rewrite mapped_fold. reflexivity. Qed.

Lemma env_fold_wf dep env : forall u,
  dict_wf u -> dict_wf (fold_left (env_step dep) env u).
Proof.
  induction env as [|[e v] env IH]; simpl; auto.
  intros u Hu. apply IH. unfold env_step.
  destruct (map_env_to_deployed e); now apply dict_wf_set.
Qed.

Lemma deployed_fold_wf mapped dep : forall u,
  dict_wf u -> dict_wf (fold_left (deployed_step mapped) dep u).
Proof.
  induction dep as [|[d v] dep IH]; simpl; auto.
  intros u Hu. apply IH. unfold deployed_step.
  destruct (negb (set_mem string_dec d mapped)); auto.
  now apply dict_wf_set.
Qed.

Lemma unified_wf env dep : dict_wf (create_unified_comparison env dep).
Proof.
  unfold create_unified_comparison.
  apply deployed_fold_wf, env_fold_wf. constructor.
Qed.

(** An invariant of the values is kept by the first and the third loop. *)
Lemma env_fold_Forall (P : comparison -> Prop) dep env :
  (forall e v o, P (mkComparison (Some v) o (Some e) (map_env_to_deployed e))) ->
  forall u, Forall (fun kv => P (snd kv)) u ->
            Forall (fun kv => P (snd kv)) (fold_left (env_step dep) env u).
Proof.
  intros HP. induction env as [|[e v] env IH]; simpl; auto.
  intros u Hu. apply IH. unfold env_step.
  pose proof (HP e v) as HP'.
  destruct (map_env_to_deployed e); apply Forall_dict_set; auto.
Qed.

Lemma deployed_fold_In mapped dep : forall u k r,
  In (k, r) (fold_left (deployed_step mapped) dep u) ->
  In (k, r) u \/
  exists d v, In (d, v) dep /\ set_mem string_dec d mapped = false
              /\ k = String.append "deployed_only_" d
              /\ r = mkComparison None (Some v) None (Some d).
Proof.
  induction dep as [|[d v] dep IH]; simpl; auto.
  intros u k r Hin. apply IH in Hin. destruct Hin as [Hin|Hin].
  - unfold deployed_step in Hin.
    destruct (set_mem string_dec d mapped) eqn:E; simpl in Hin; auto.
    apply In_dict_set in Hin. destruct Hin as [[-> ->]|Hin]; auto.
    right. exists d, v. auto.
  - right. destruct Hin as (d' & v' & H1 & H2). exists d', v'. auto.
Qed.

Lemma append_inj_l (p a b : string) :
  String.append p a = String.append p b -> a = b.
Proof. induction p; simpl; intros H; [auto | injection H; auto]. Qed.

Lemma deployed_fold_get mapped dep : forall u d v,
  dict_wf dep -> In (d, v) dep -> set_mem string_dec d mapped = false ->
  dict_get (fold_left (deployed_step mapped) dep u)
           (String.append "deployed_only_" d)
  = Some (mkComparison None (Some v) None (Some d)).
Proof.
  induction dep as [|[d' v'] dep IH] using rev_ind; intros u d v Hwf Hin Hm.
  - destruct Hin.
  - rewrite fold_left_app. simpl.
    unfold dict_wf, keys in Hwf. rewrite map_app in Hwf. simpl in Hwf.
    apply in_app_or in Hin. destruct Hin as [Hin|[Hin|[]]].
    + assert (Hne : d' <> d).
      { intros ->. apply NoDup_remove_2 in Hwf. rewrite app_nil_r in Hwf.
        apply Hwf. change d with (fst (d, v)). now apply in_map. }
      unfold deployed_step at 1.
      assert (Hwf' : dict_wf dep).
      { apply NoDup_remove_1 in Hwf. now rewrite app_nil_r in Hwf. }
      destruct (negb (set_mem string_dec d' mapped)); [|now apply IH].
      rewrite dict_get_set_neq; [now apply IH|].
      intros Heq. apply (append_inj_l "deployed_only_") in Heq. auto.
    + injection Hin as -> ->. unfold deployed_step at 1. rewrite Hm. simpl.
      apply dict_get_set_eq.
Qed.
End Reconcile.

(* ================================================================== *)
(** ** Classification: [compare_versions] *)

Section Classification.
Import ServiceMapper VersionComparator.

Lemma keys_app {V : Type} (a b : dict V) : keys (a ++ b) = keys a ++ keys b.
Proof. apply map_app. Qed.

(** On keys not yet stored, the classification loop appends each record
    to the bucket its branch selects. *)
Lemma classify_fold l : forall acc,
  NoDup (keys l) -> (forall k, In k (keys l) -> fresh_in acc k) ->
  fold_left classify_step l acc
  = mkResults
      (differences acc ++ filter (fun kv => is_differing (snd kv)) l)
      (matches acc ++ filter (fun kv => is_matched (snd kv)) l)
      (env_only acc ++ filter (fun kv => reaches_env_only (snd kv)) l)
      (deployed_only acc ++ filter (fun kv => is_deployed_only (snd kv)) l).
Proof.
  induction l as [|[k r] l IH]; intros acc Hnd Hfresh.
  - simpl. rewrite !app_nil_r. now destruct acc.
  - simpl in Hnd. inversion Hnd as [|? ? Hk Hnd']; subst.
    destruct (Hfresh k (or_introl eq_refl)) as (F1 & F2 & F3 & F4).
    assert (Hstep : forall k', In k' (keys l) -> k' <> k).
    { intros k' Hin ->. auto. }
    simpl fold_left. rewrite IH; auto.
    + unfold classify_step, is_differing, is_matched, reaches_env_only,
        is_deployed_only, is_env_only; simpl.
      destruct (env_version r) as [ev|], (deployed_version r) as [dv|]; simpl;
        try destruct (String.eqb ev dv); simpl;
        rewrite ?dict_set_fresh by assumption;
        rewrite <- ?app_assoc; reflexivity.
    + intros k' Hin. pose proof (Hstep k' Hin) as Hne.
      destruct (Hfresh k' (or_intror Hin)) as (G1 & G2 & G3 & G4).
      unfold classify_step, fresh_in.
      destruct (env_version r) as [ev|], (deployed_version r) as [dv|]; simpl;
        try destruct (String.eqb ev dv); simpl;
        rewrite ?dict_set_fresh by assumption;
        rewrite ?keys_app, ?in_app_iff; simpl; intuition congruence.
Qed.

(** Every record of the unified comparison has a version on some side. *)
Lemma unified_has_version env dep :
  Forall (fun kv => is_deployed_only (snd kv) && is_env_only (snd kv) = false)
         (create_unified_comparison env dep).
Proof.
  apply Forall_forall. intros [k r] Hin. simpl.
  unfold create_unified_comparison in Hin.
  apply deployed_fold_In in Hin. destruct Hin as [Hin|Hin].
  - assert (H : Forall (fun kv => is_deployed_only (snd kv) = false)
                       (fold_left (env_step dep) env [])).
    { apply (env_fold_Forall (fun r => is_deployed_only r = false)); auto. }
    rewrite Forall_forall in H. specialize (H _ Hin). simpl in H.
    now rewrite H.
  - destruct Hin as (d & v & _ & _ & _ & ->). reflexivity.
Qed.

Lemma count_classes (r : comparison) :
  is_deployed_only r && is_env_only r = false ->
  count_true [is_matched r; is_differing r; is_env_only r; is_deployed_only r]
  = 1.
Proof.
  unfold is_matched, is_differing, is_env_only, is_deployed_only, count_true.
  destruct (env_version r) as [e|], (deployed_version r) as [d|]; simpl;
    try discriminate; try reflexivity.
  destruct (String.eqb e d); reflexivity.
Qed.

(** In a well-formed dict, a key belongs to the part filtered by a test on
    the values exactly when its own value passes the test. *)
Lemma dict_mem_filter {V : Type} (p : V -> bool) (l : dict V) k r :
  dict_wf l -> In (k, r) l ->
  dict_mem (filter (fun kv => p (snd kv)) l) k = p r.
Proof.
  intros Hwf Hin. destruct (p r) eqn:E.
  - apply dict_mem_In. change k with (fst (k, r)). apply in_map.
    apply filter_In. auto.
  - destruct (dict_mem _ k) eqn:M; auto.
    apply dict_mem_In in M. unfold keys in M. apply in_map_iff in M.
    destruct M as ([k' r'] & Hk & Hin'). simpl in Hk. subst k'.
    apply filter_In in Hin'. destruct Hin' as [Hin' Hp]. simpl in Hp.
    rewrite (dict_wf_functional _ _ _ _ Hwf Hin Hin') in E. congruence.
Qed.

Lemma compare_versions_buckets env deployed :
  fst (compare_versions deployed env)
  = let unified := create_unified_comparison env deployed in
    mkResults (filter (fun kv => is_differing (snd kv)) unified)
              (filter (fun kv => is_matched (snd kv)) unified)
              (filter (fun kv => is_env_only (snd kv)) unified)
              (filter (fun kv => is_deployed_only (snd kv)) unified).
Proof.
  unfold compare_versions. simpl.
  rewrite classify_fold.
  - simpl. f_equal. apply filter_ext_in. intros [k r] Hin. simpl.
    pose proof (unified_has_version env deployed) as H.
    rewrite Forall_forall in H. specialize (H _ Hin). simpl in H.
    unfold reaches_env_only.
    destruct (is_deployed_only r), (is_env_only r); simpl in *; congruence.
  - apply unified_wf.
  - intros k _. unfold fresh_in. simpl. tauto.
Qed.

Lemma positive_length {A : Type} (l : list A) :
  (0 <? length l) = negb (is_empty l).
Proof. now destruct l. Qed.

Lemma has_differences_nonempty env deployed :
  snd (compare_versions deployed env)
  = let res := fst (compare_versions deployed env) in
    negb (is_empty (differences res)) || negb (is_empty (env_only res))
    || negb (is_empty (deployed_only res)).
Proof. unfold compare_versions. simpl. now rewrite !positive_length. Qed.

Lemma is_empty_false {A : Type} (l : list A) : is_empty l = false <-> l <> [].
Proof. destruct l; simpl; split; congruence. Qed.
End Classification.

(* ================================================================== *)
(** ** Claims on reconciliation and classification *)

Section ReconciliationClaims.
Import ServiceMapper VersionComparator.

(** C1. For all env and deployed maps (and the static table), the four
    buckets returned by [compare_versions] are exactly the records of the
    unified comparison that are, respectively, matched (both versions present
    and equal), differing (both present and unequal), env-only (deployed
    version absent) and deployed-only (env version absent); every record
    satisfies exactly one of the four definitions and its key is a key of
    exactly one bucket; and [has_differences] is true iff one of the
    differing, env-only or deployed-only buckets is non-empty. *)
Theorem C1_buckets_partition (env deployed : dict string) :
  let unified := create_unified_comparison env deployed in
  let res := fst (compare_versions deployed env) in
  let has_differences := snd (compare_versions deployed env) in
  matches res = filter (fun kv => is_matched (snd kv)) unified
  /\ differences res = filter (fun kv => is_differing (snd kv)) unified
  /\ env_only res = filter (fun kv => is_env_only (snd kv)) unified
  /\ deployed_only res = filter (fun kv => is_deployed_only (snd kv)) unified
  /\ forallb (fun kv =>
        count_true [is_matched (snd kv); is_differing (snd kv);
                    is_env_only (snd kv); is_deployed_only (snd kv)] =? 1)
       unified = true
  /\ forallb (fun kv =>
        count_true [dict_mem (matches res) (fst kv);
                    dict_mem (differences res) (fst kv);
                    dict_mem (env_only res) (fst kv);
                    dict_mem (deployed_only res) (fst kv)] =? 1)
       unified = true
  /\ (has_differences = true <->
      differences res <> [] \/ env_only res <> [] \/ deployed_only res <> []).
Proof.
  intros unified res has_differences.
  assert (Hres : res = mkResults
            (filter (fun kv => is_differing (snd kv)) unified)
            (filter (fun kv => is_matched (snd kv)) unified)
            (filter (fun kv => is_env_only (snd kv)) unified)
            (filter (fun kv => is_deployed_only (snd kv)) unified))
    by apply compare_versions_buckets.
  assert (Hone : forall kv, In kv unified ->
            count_true [is_matched (snd kv); is_differing (snd kv);
                        is_env_only (snd kv); is_deployed_only (snd kv)] = 1).
  { intros kv Hin. apply count_classes.
    pose proof (unified_has_version env deployed) as H.
    rewrite Forall_forall in H. apply (H _ Hin). }
  repeat split.
  - now rewrite Hres.
  - now rewrite Hres.
  - now rewrite Hres.
  - now rewrite Hres.
  - apply forallb_forall. intros kv Hin. rewrite (Hone kv Hin). reflexivity.
  - apply forallb_forall. intros [k r] Hin. rewrite Hres. simpl.
    rewrite !(dict_mem_filter _ _ k r) by (apply unified_wf || exact Hin).
    pose proof (Hone (k, r) Hin) as H1. simpl snd in H1. rewrite H1.
    reflexivity.
  - subst has_differences. rewrite has_differences_nonempty. fold res.
    cbv zeta.
    destruct (differences res); [|intros _; left; discriminate].
    destruct (env_only res); [|intros _; right; left; discriminate].
    destruct (deployed_only res); [discriminate|].
    intros _; right; right; discriminate.
  - subst has_differences. rewrite has_differences_nonempty. fold res.
    cbv zeta.
    destruct (differences res), (env_only res), (deployed_only res);
      simpl; intuition congruence.
Qed.

(** C9. Presence of a version is [is not None], not non-emptiness: a record
    of the unified comparison whose deployed version is the empty string and
    whose env version is [e] lands in the differing bucket, and not in the
    env-only one, when [e] is non-empty, and in the matched bucket when [e]
    is empty too. *)
Theorem C9_presence_is_not_none
    (env deployed : dict string) (service : string) (data : comparison)
    (e : string) :
  In (service, data) (create_unified_comparison env deployed) ->
  env_version data = Some e ->
  deployed_version data = Some "" ->
  let res := fst (compare_versions deployed env) in
  if PyStr.truthy e
  then In (service, data) (differences res)
       /\ dict_mem (env_only res) service = false
       /\ dict_mem (matches res) service = false
  else In (service, data) (matches res)
       /\ dict_mem (env_only res) service = false
       /\ dict_mem (differences res) service = false.
Proof.
  intros Hin He Hd res. subst res. rewrite compare_versions_buckets. simpl.
  rewrite !(dict_mem_filter _ _ service data) by (apply unified_wf || exact Hin).
  unfold is_env_only, is_matched, is_differing. rewrite He, Hd.
  destruct e as [|c e]; simpl; repeat split; auto;
    apply filter_In; split; auto; simpl;
    unfold is_matched, is_differing; rewrite He, Hd; reflexivity.
Qed.

Lemma C9_presence_is_not_none_witness :
  let env := [("appcd", "v0.65.4"); ("iacgen", "")] in
  let deployed := [("appcd", ""); ("iac-gen", "")] in
  let r1 := mkComparison (Some "v0.65.4") (Some "") (Some "appcd") (Some "appcd") in
  let r2 := mkComparison (Some "") (Some "") (Some "iacgen") (Some "iac-gen") in
  let res := fst (compare_versions deployed env) in
  (In ("appcd", r1) (create_unified_comparison env deployed)
   /\ In ("appcd", r1) (differences res)
   /\ dict_mem (env_only res) "appcd" = false
   /\ dict_mem (matches res) "appcd" = false)
  /\ (In ("iacgen", r2) (create_unified_comparison env deployed)
      /\ In ("iacgen", r2) (matches res)
      /\ dict_mem (env_only res) "iacgen" = false
      /\ dict_mem (differences res) "iacgen" = false).
Proof.
  intros env deployed r1 r2 res. split.
  - split; [simpl; auto|].
    apply (C9_presence_is_not_none env deployed "appcd" r1 "v0.65.4");
      [simpl; auto | reflexivity | reflexivity].
  - split; [simpl; auto|].
    apply (C9_presence_is_not_none env deployed "iacgen" r2 "");
      [simpl; auto | reflexivity | reflexivity].
Defined.

(** C3. A key [d] of the deployed map with value [v]: when no key of the env
    map is mapped to [d], the unified comparison holds exactly one
    deployed-only record for [d] (env name and env version absent), stored
    under [deployed_only_d] with version [v]; when some env key is mapped to
    [d], it holds none. *)
Theorem C3_deployed_only_records
    (env deployed : dict string) (d v : string) :
  dict_wf deployed ->
  In (d, v) deployed ->
  filter (deployed_only_for d) (create_unified_comparison env deployed)
  = if referenced env d then []
    else [(String.append "deployed_only_" d,
           mkComparison None (Some v) None (Some d))].
Proof.
  intros Hwf Hin.
  assert (Henv : forall k r, In (k, r) (fold_left (env_step deployed) env []) ->
                             deployed_only_for d (k, r) = false).
  { intros k r H.
    assert (F : Forall (fun kv => is_deployed_only (snd kv) = false)
                       (fold_left (env_step deployed) env []))
      by (apply (env_fold_Forall (fun r => is_deployed_only r = false)); auto).
    rewrite Forall_forall in F. specialize (F _ H). simpl in F.
    unfold deployed_only_for, is_deployed_only in *. simpl.
    destruct (env_name r), (env_version r); congruence. }
  destruct (referenced env d) eqn:Href.
  - apply filter_none. intros [k r] H.
    unfold create_unified_comparison in H. apply deployed_fold_In in H.
    destruct H as [H|(d' & v' & _ & Hm & _ & ->)]; [now apply Henv|].
    unfold deployed_only_for. simpl.
    destruct (String.eqb d' d) eqn:E; auto.
    apply String.eqb_eq in E. subst d'.
    rewrite mapped_referenced in Hm. congruence.
  - apply filter_singleton.
    + apply dict_wf_NoDup, unified_wf.
    + apply dict_get_In. unfold create_unified_comparison.
      apply deployed_fold_get; auto. now rewrite mapped_referenced.
    + unfold deployed_only_for. simpl. apply String.eqb_refl.
    + intros [k r] H Hp.
      unfold create_unified_comparison in H. apply deployed_fold_In in H.
      destruct H as [H|(d' & v' & Hin' & _ & -> & ->)].
      * rewrite (Henv _ _ H) in Hp. discriminate.
      * unfold deployed_only_for in Hp. simpl in Hp.
        apply String.eqb_eq in Hp. subst d'.
        now rewrite (dict_wf_functional _ _ _ _ Hwf Hin Hin').
Qed.

Lemma C3_deployed_only_records_witness :
  let env := [("appcd", "v0.65.4"); ("llm_gateway", "v0.6.3")] in
  let deployed := [("appcd", "v2025.7.10"); ("exporter", "v0.9.9")] in
  (dict_wf deployed /\ In ("exporter", "v0.9.9") deployed
   /\ filter (deployed_only_for "exporter") (create_unified_comparison env deployed)
      = [("deployed_only_exporter",
          mkComparison None (Some "v0.9.9") None (Some "exporter"))])
  /\ (In ("appcd", "v2025.7.10") deployed
      /\ filter (deployed_only_for "appcd") (create_unified_comparison env deployed)
         = []).
Proof.
  intros env deployed.
  assert (Hwf : dict_wf deployed).
  { unfold dict_wf. simpl. repeat constructor; simpl; intuition discriminate. }
  split.
  - split; [exact Hwf|]. split; [simpl; auto|].
    apply (C3_deployed_only_records env deployed "exporter" "v0.9.9" Hwf).
    simpl; auto.
  - split; [simpl; auto|].
    apply (C3_deployed_only_records env deployed "appcd" "v2025.7.10" Hwf).
    simpl; auto.
Defined.

(** The first loop stores, under each env key, the record of that key. *)
Lemma env_fold_In dep env : forall u k r,
  In (k, r) (fold_left (env_step dep) env u) ->
  In (k, r) u \/
  exists v, In (k, v) env
            /\ r = mkComparison (Some v)
                     (match map_env_to_deployed k with
                      | Some ds => dict_get dep ds
                      | None => None
                      end)
                     (Some k) (map_env_to_deployed k).
Proof.
  induction env as [|[e v] env IH]; simpl; auto.
  intros u k r Hin. apply IH in Hin. destruct Hin as [Hin|(v' & Hin & ->)].
  - unfold env_step in Hin.
    destruct (map_env_to_deployed e) as [ds|] eqn:E;
      apply In_dict_set in Hin; destruct Hin as [[-> ->]|Hin]; auto;
      right; exists v; rewrite E; auto.
  - right. exists v'. auto.
Qed.

Lemma env_fold_get dep env : forall u e v,
  dict_wf env -> In (e, v) env ->
  dict_get (fold_left (env_step dep) env u) e
  = Some (mkComparison (Some v)
            (match map_env_to_deployed e with
             | Some ds => dict_get dep ds
             | None => None
             end)
            (Some e) (map_env_to_deployed e)).
Proof.
  induction env as [|[e' v'] env IH] using rev_ind; intros u e v Hwf Hin.
  - destruct Hin.
  - rewrite fold_left_app. simpl.
    unfold dict_wf, keys in Hwf. rewrite map_app in Hwf. simpl in Hwf.
    apply in_app_or in Hin. destruct Hin as [Hin|[Hin|[]]].
    + assert (Hne : e' <> e).
      { intros ->. apply NoDup_remove_2 in Hwf. rewrite app_nil_r in Hwf.
        apply Hwf. change e with (fst (e, v)). now apply in_map. }
      assert (Hwf' : dict_wf env).
      { apply NoDup_remove_1 in Hwf. now rewrite app_nil_r in Hwf. }
      unfold env_step at 1.
      destruct (map_env_to_deployed e'); rewrite dict_get_set_neq; auto.
    + injection Hin as -> ->. unfold env_step at 1.
      destruct (map_env_to_deployed e); apply dict_get_set_eq.
Qed.

(** The third loop leaves alone every key that is not the synthetic key of
    an unreferenced deployed service. *)
Lemma deployed_fold_keep mapped dep : forall u k,
  (forall d, In d (keys dep) -> set_mem string_dec d mapped = false ->
             String.append "deployed_only_" d <> k) ->
  dict_get (fold_left (deployed_step mapped) dep u) k = dict_get u k.
Proof.
  induction dep as [|[d v] dep IH]; simpl; auto.
  intros u k Hno. rewrite IH by (intros d' Hd'; apply Hno; auto).
  unfold deployed_step.
  destruct (set_mem string_dec d mapped) eqn:E; simpl; auto.
  apply dict_get_set_neq. apply Hno; auto.
Qed.

(** Where C2 holds: an env key without a deployed counterpart keeps its one
    env-only record as long as no unreferenced deployed key [d] makes
    [deployed_only_d] equal to it. *)
Lemma env_only_record_kept (env deployed : dict string) (e v : string) :
  dict_wf env -> In (e, v) env -> map_env_to_deployed e = None ->
  (forall d, In d (keys deployed) -> referenced env d = false ->
             String.append "deployed_only_" d <> e) ->
  filter (env_only_for e) (create_unified_comparison env deployed)
  = [(e, mkComparison (Some v) None (Some e) None)].
Proof.
  intros Hwf Hin Hmap Hno. apply filter_singleton.
  - apply dict_wf_NoDup, unified_wf.
  - apply dict_get_In. unfold create_unified_comparison.
    rewrite deployed_fold_keep.
    + rewrite (env_fold_get deployed env [] e v Hwf Hin). now rewrite Hmap.
    + intros d Hd Hm. rewrite mapped_referenced in Hm. now apply Hno.
  - unfold env_only_for. simpl. apply String.eqb_refl.
  - intros [k r] H Hp. unfold create_unified_comparison in H.
    apply deployed_fold_In in H.
    destruct H as [H|(d' & v' & _ & _ & _ & ->)]; [|discriminate Hp].
    apply env_fold_In in H. destruct H as [[]|(v' & Hin' & ->)].
    unfold env_only_for in Hp. simpl in Hp.
    destruct (map_env_to_deployed k) eqn:Ek; [discriminate|].
    apply String.eqb_eq in Hp. subst k.
    now rewrite (dict_wf_functional _ _ _ _ Hwf Hin Hin').
Qed.

(** The example of C2: whatever the deployed map holds, [llm_gateway] gets
    its one env-only record. *)
Lemma llm_gateway_env_only (deployed : dict string) :
  filter (env_only_for "llm_gateway")
    (create_unified_comparison [("llm_gateway", "v0.6.3")] deployed)
  = [("llm_gateway",
      mkComparison (Some "v0.6.3") None (Some "llm_gateway") None)].
Proof.
  apply env_only_record_kept.
  - unfold dict_wf. simpl. repeat constructor. intros [].
  - simpl. auto.
  - reflexivity.
  - intros d _ _. simpl. discriminate.
Qed.

(** C2, at the input where the code departs from it.  The env key
    [deployed_only_x], as read from the line DEPLOYED_ONLY_X_VERSION=v1, has
    no entry in the table, so the first loop stores an env-only record under
    it; the third loop then stores the deployed-only record of the
    unreferenced deployed key [x] under the same dict key, and the env-only
    record is gone from the result. *)
Theorem C2_env_only_record_overwritten :
  parse_env_content "DEPLOYED_ONLY_X_VERSION=v1" = Ok [("deployed_only_x", "v1")]
  /\ mapping_get "deployed_only_x" = None
  /\ fold_left (env_step [("x", "v2")]) [("deployed_only_x", "v1")] []
     = [("deployed_only_x",
         mkComparison (Some "v1") None (Some "deployed_only_x") None)]
  /\ create_unified_comparison [("deployed_only_x", "v1")] [("x", "v2")]
     = [("deployed_only_x", mkComparison None (Some "v2") None (Some "x"))]
  /\ filter (env_only_for "deployed_only_x")
       (create_unified_comparison [("deployed_only_x", "v1")] [("x", "v2")])
     = [].
Proof. repeat split. Qed.
End ReconciliationClaims.

(* ================================================================== *)
(** ** Facts about strings *)

Section StringFacts.
Import PyStr.

Lemma append_assoc (a b c : string) :
  String.append (String.append a b) c = String.append a (String.append b c).
Proof. induction a; simpl; congruence. Qed.

Lemma append_nil_r (a : string) : String.append a "" = a.
Proof. induction a; simpl; congruence. Qed.

Lemma length_append (a b : string) :
  String.length (String.append a b) = String.length a + String.length b.
Proof. induction a; simpl; auto. Qed.

Lemma take_append (w s : string) :
  take (String.length (String.append w s) - String.length s)
       (String.append w s) = w.
Proof.
  rewrite length_append.
  replace (String.length w + String.length s - String.length s)
    with (String.length w) by lia.
  induction w; simpl; [now destruct s | congruence].
Qed.

Lemma all_append (p : ascii -> bool) (a b : string) :
  all p (String.append a b) = all p a && all p b.
Proof. induction a; simpl; auto. rewrite IHa. now rewrite andb_assoc. Qed.

Lemma all_impl (p q : ascii -> bool) (s : string) :
  (forall c, p c = true -> q c = true) -> all p s = true -> all q s = true.
Proof.
  intros H. induction s; simpl; auto.
  rewrite !andb_true_iff. intros [? ?]. auto.
Qed.

(** A run of [p]-characters ended by a non-[p] character is determined by
    the text it starts. *)
Lemma span_unique (p : ascii -> bool) (w1 w2 : string) c1 c2 r1 r2 :
  all p w1 = true -> all p w2 = true -> p c1 = false -> p c2 = false ->
  String.append w1 (String c1 r1) = String.append w2 (String c2 r2) ->
  w1 = w2 /\ c1 = c2 /\ r1 = r2.
Proof.
  revert w2. induction w1 as [|a w1 IH]; intros [|b w2]; simpl;
    rewrite ?andb_true_iff; intros H1 H2 Hc1 Hc2 Heq.
  - injection Heq as -> ->. auto.
  - injection Heq as -> _. destruct H2. congruence.
  - injection Heq as -> _. destruct H1. congruence.
  - injection Heq as -> Heq. destruct H1, H2.
    destruct (IH w2) as (-> & -> & ->); auto.
Qed.

(** A prefix free of the character [x] cannot reach past the first [x]. *)
Lemma prefix_before (x : ascii) (u rest pre post : string) :
  all (fun c => negb (Ascii.eqb c x)) u = true ->
  String.append u rest = String.append pre (String x post) ->
  String.length u <= String.length pre.
Proof.
  revert pre. induction u as [|a u IH]; intros [|b pre]; simpl; try lia.
  - rewrite andb_true_iff. intros [Ha _] Heq. injection Heq as -> _.
    now rewrite Ascii.eqb_refl in Ha.
  - rewrite andb_true_iff. intros [_ Hu] Heq. injection Heq as _ Heq.
    apply IH in Heq; auto. lia.
Qed.

Lemma rstrip_id (s : string) :
  all (fun c => negb (isspace c)) s = true -> rstrip s = s.
Proof.
  induction s as [|c s IH]; simpl; auto.
  rewrite andb_true_iff. intros [Hc Hs]. rewrite (IH Hs).
  destruct s; auto. now destruct (isspace c).
Qed.

Lemma strip_id (s : string) :
  all (fun c => negb (isspace c)) s = true -> strip s = s.
Proof.
  intros H. unfold strip.
  assert (Hl : lstrip s = s).
  { destruct s as [|c s]; simpl in *; auto.
    apply andb_true_iff in H. destruct H as [Hc _].
    now destruct (isspace c). }
  rewrite Hl. now apply rstrip_id.
Qed.

(** [lower] keeps the length, moves each capital letter 32 code points up
    and leaves no capital letter behind. *)
Lemma lower_char_not_capital (c : ascii) :
  iscapital (lower_char c) = false.
Proof. destruct c as [[] [] [] [] [] [] [] []]; reflexivity. Qed.

Lemma lower_no_capital (s : string) :
  all (fun c => negb (iscapital c)) (lower s) = true.
Proof.
  induction s as [|c s IH]; [reflexivity|].
  simpl. now rewrite lower_char_not_capital, IH.
Qed.

Lemma length_lower (s : string) :
  String.length (lower s) = String.length s.
Proof. induction s as [|c s IH]; simpl; congruence. Qed.

Lemma get_lower (s : string) : forall i c,
  String.get i s = Some c ->
  String.get i (lower s)
  = Some (if iscapital c then ascii_of_nat (code c + 32) else c).
Proof.
  induction s as [|a s IH]; intros i c H; [discriminate|].
  destruct i as [|i]; simpl in *.
  - now injection H as ->.
  - now apply IH.
Qed.
End StringFacts.

(* ================================================================== *)
(** ** The matcher against [mrel] *)

Section MatcherFacts.
Import Re.

Lemma rep_greedy_sound {R : Type} (p : ascii -> bool) s :
  forall lo hi (k : string -> option R) res,
  rep_greedy p lo hi s k = Some res ->
  exists w s', s = String.append w s' /\ PyStr.all p w = true
               /\ lo <= String.length w /\ within hi (String.length w)
               /\ k s' = Some res.
Proof.
  induction s as [|c s IH]; intros lo hi k res; simpl.
  - destruct (Nat.eqb_spec lo 0); [|discriminate]. intros H.
    exists "", "". subst. simpl. repeat split; auto.
    destruct hi; simpl; lia.
  - assert (Hstop : (if lo =? 0 then k (String c s) else None) = Some res ->
              exists w s', String c s = String.append w s'
                /\ PyStr.all p w = true /\ lo <= String.length w
                /\ within hi (String.length w) /\ k s' = Some res).
    { destruct (Nat.eqb_spec lo 0); [|discriminate]. intros H.
      exists "", (String c s). subst. simpl. repeat split; auto.
      destruct hi; simpl; lia. }
    destruct (p c && more hi) eqn:E; auto.
    destruct (rep_greedy p (pred lo) (option_map pred hi) s k) as [res'|] eqn:Er;
      auto.
    intros H. injection H as ->.
    apply IH in Er. destruct Er as (w & s' & -> & Hw & Hlo & Hhi & Hk).
    apply andb_true_iff in E. destruct E as [Hc Hmore].
    exists (String c w), s'. simpl. rewrite Hc, Hw.
    repeat split; auto; [lia|].
    destruct hi as [h|]; simpl in *; auto.
    apply Nat.ltb_lt in Hmore. lia.
Qed.

Lemma rep_greedy_complete {R : Type} (p : ascii -> bool) w :
  forall lo hi s' (k : string -> option R) res,
  PyStr.all p w = true -> lo <= String.length w ->
  within hi (String.length w) -> k s' = Some res ->
  exists res', rep_greedy p lo hi (String.append w s') k = Some res'.
Proof.
  induction w as [|c w IH]; intros lo hi s' k res Hw Hlo Hhi Hk.
  - simpl in *. assert (lo = 0) by lia. subst lo.
    destruct s' as [|c s']; simpl; [eauto|].
    destruct (p c && more hi); [|eauto].
    destruct (rep_greedy p 0 (option_map pred hi) s' k); eauto.
  - simpl in *. apply andb_true_iff in Hw. destruct Hw as [Hc Hw].
    assert (Hmore : more hi = true).
    { destruct hi as [h|]; simpl in *; auto. apply Nat.ltb_lt. lia. }
    rewrite Hc, Hmore. simpl.
    destruct (IH (pred lo) (option_map pred hi) s' k res) as [res' ->]; auto.
    + lia.
    + destruct hi as [h|]; simpl in *; auto. lia.
    + eauto.
Qed.

(** Soundness: an answer of the matcher comes from a match that the
    continuation accepted. *)
Lemma rmatch_sound {R : Type} ic r :
  forall s cs (k : string -> captures -> option R) res,
  rmatch ic r s cs k = Some res ->
  exists s' cs', mrel ic r s cs s' cs' /\ k s' cs' = Some res.
Proof.
  induction r as [|c|p|r1 IH1 r2 IH2|r1 IH1 r2 IH2|p lo hi|n r1 IH1];
    intros s cs k res; simpl.
  - intros H. exists s, cs. split; [constructor | auto].
  - destruct s as [|c' s]; [discriminate|].
    destruct (char_eq ic c c') eqn:E; [|discriminate].
    intros H. exists s, cs. split; [now constructor | auto].
  - destruct s as [|c' s]; [discriminate|].
    destruct (p c') eqn:E; [|discriminate].
    intros H. exists s, cs. split; [now constructor | auto].
  - intros H. apply IH1 in H. destruct H as (s1 & cs1 & M1 & H).
    apply IH2 in H. destruct H as (s2 & cs2 & M2 & H).
    exists s2, cs2. split; [econstructor; eauto | auto].
  - destruct (rmatch ic r1 s cs k) as [res'|] eqn:E.
    + intros H. injection H as ->. apply IH1 in E.
      destruct E as (s' & cs' & M & H). exists s', cs'.
      split; [now apply M_alt_l | auto].
    + intros H. apply IH2 in H.
      destruct H as (s' & cs' & M & H). exists s', cs'.
      split; [now apply M_alt_r | auto].
  - intros H. apply rep_greedy_sound in H.
    destruct H as (w & s' & -> & Hw & Hlo & Hhi & Hk).
    exists s', cs. split; [now constructor | auto].
  - intros H. apply IH1 in H. destruct H as (s1 & cs1 & M & H).
    eexists _, _. split; [apply M_grp; eauto | exact H].
Qed.

(** Completeness: when some match is accepted by the continuation, the
    matcher answers. *)
Lemma rmatch_complete ic r s cs s' cs' :
  mrel ic r s cs s' cs' ->
  forall (R : Type) (k : string -> captures -> option R) res,
  k s' cs' = Some res -> exists res', rmatch ic r s cs k = Some res'.
Proof.
  induction 1 as [s cs|c c' s cs Hc|p c s cs Hc
                 |r1 r2 s cs s1 cs1 s2 cs2 M1 IH1 M2 IH2
                 |r1 r2 s cs s' cs' M IH|r1 r2 s cs s' cs' M IH
                 |p lo hi w s cs Hw Hlo Hhi|n r s cs s1 cs1 M IH];
    intros R k res Hk; simpl.
  - eauto.
  - rewrite Hc. eauto.
  - rewrite Hc. eauto.
  - destruct (IH2 R k res Hk) as [res2 H2].
    apply (IH1 R _ res2 H2).
  - destruct (IH R k res Hk) as [res1 ->]. eauto.
  - destruct (rmatch ic r1 s cs k); eauto.
  - apply (rep_greedy_complete p w lo hi s _ res); auto.
  - apply (IH R _ res Hk).
Qed.

(** A match consumes a prefix. *)
Lemma mrel_prefix ic r s cs s' cs' :
  mrel ic r s cs s' cs' -> exists w, s = String.append w s'.
Proof.
  induction 1.
  - now exists "".
  - now exists (String c' "").
  - now exists (String c "").
  - destruct IHmrel1 as [w1 ->], IHmrel2 as [w2 ->].
    exists (String.append w1 w2). now rewrite append_assoc.
  - auto.
  - auto.
  - now exists w.
  - auto.
Qed.

(** A group that takes part in every match of [r] is set after a match. *)
Lemma mrel_sets ic r s cs s' cs' :
  mrel ic r s cs s' cs' ->
  forall n, sets r n = true \/ caps_get cs n <> None ->
            caps_get cs' n <> None.
Proof.
  induction 1; intros m; simpl;
    try (intros [Hd|Hn]; [discriminate | exact Hn]).
  - rewrite orb_true_iff. intros [[H1|H2]|Hn].
    + apply IHmrel2. right. apply IHmrel1. now left.
    + apply IHmrel2. now left.
    + apply IHmrel2. right. apply IHmrel1. now right.
  - rewrite andb_true_iff. intros [[H1 _]|Hn]; apply IHmrel; auto.
  - rewrite andb_true_iff. intros [[_ H2]|Hn]; apply IHmrel; auto.
  - rewrite orb_true_iff. destruct (n =? m) eqn:E; [discriminate|].
    intros [[H1|H1]|Hn]; [discriminate| |]; apply IHmrel; auto.
Qed.

(** What a group holds after a match is either what it held before or the
    text consumed by one of its occurrences in the pattern. *)
Lemma mrel_caps ic r s cs s' cs' :
  mrel ic r s cs s' cs' ->
  forall n,
    caps_get cs' n = caps_get cs n \/
    exists body s0 cs0 s1 cs1,
      In (n, body) (groups r) /\ mrel ic body s0 cs0 s1 cs1
      /\ caps_get cs' n
         = Some (PyStr.take (String.length s0 - String.length s1) s0).
Proof.
  induction 1; intros m; simpl; auto.
  - destruct (IHmrel2 m) as [E2|(body & s0 & cs0 & s1' & cs1' & Hin & M & Hg)].
    + rewrite E2.
      destruct (IHmrel1 m)
        as [E1|(body & s0 & cs0 & s1' & cs1' & Hin & M & Hg)]; auto.
      right. exists body, s0, cs0, s1', cs1'. rewrite in_app_iff. auto.
    + right. exists body, s0, cs0, s1', cs1'. rewrite in_app_iff. auto.
  - destruct (IHmrel m) as [E|(body & s0 & cs0 & s1' & cs1' & Hin & M & Hg)];
      auto.
    right. exists body, s0, cs0, s1', cs1'. rewrite in_app_iff. auto.
  - destruct (IHmrel m) as [E|(body & s0 & cs0 & s1' & cs1' & Hin & M & Hg)];
      auto.
    right. exists body, s0, cs0, s1', cs1'. rewrite in_app_iff. auto.
  - destruct (Nat.eqb_spec n m) as [->|Hne].
    + right. exists r, s, cs, s1, cs1. auto.
    + destruct (IHmrel m) as [E|(body & s0 & cs0 & s1' & cs1' & Hin & M & Hg)];
        auto.
      right. exists body, s0, cs0, s1', cs1'. auto.
Qed.

Lemma re_match_sound ic r s m :
  re_match ic r s = Some m -> mrel ic r s [] (m_rest m) (m_caps m).
Proof.
  unfold re_match. intros H. apply rmatch_sound in H.
  destruct H as (s' & cs' & M & H). injection H as <-. exact M.
Qed.

Lemma re_match_complete ic r s s' cs' :
  mrel ic r s [] s' cs' -> exists m, re_match ic r s = Some m.
Proof.
  intros M. unfold re_match.
  apply (rmatch_complete _ _ _ _ _ _ M _ _ (mkMatch cs' s')). reflexivity.
Qed.
End MatcherFacts.

(* ================================================================== *)
(** ** [parse_env_content] *)

Section EnvParserFacts.
Import Re VersionComparator.

Lemma ngroups_two p : In p version_patterns -> ngroups p = 2.
Proof.
  unfold version_patterns. simpl.
  intros [<-|[<-|[<-|[<-|[<-|[]]]]]]; reflexivity.
Qed.

(** Every pattern of the list sets both groups, the second to a non-empty
    word of value characters. *)
Lemma env_pattern_groups p l m :
  In p version_patterns -> re_match true p l = Some m ->
  exists g1 g2, group m 1 = Some g1 /\ group m 2 = Some g2
                /\ PyStr.all isvalue g2 = true /\ PyStr.truthy g2 = true.
Proof.
  intros Hin Hm. apply re_match_sound in Hm. unfold group.
  assert (S1 : sets p 1 = true /\ sets p 2 = true).
  { unfold version_patterns in Hin. simpl in Hin.
    destruct Hin as [<-|[<-|[<-|[<-|[<-|[]]]]]]; split; reflexivity. }
  destruct S1 as [S1 S2].
  pose proof (mrel_sets _ _ _ _ _ _ Hm 1 (or_introl S1)) as G1.
  pose proof (mrel_sets _ _ _ _ _ _ Hm 2 (or_introl S2)) as G2.
  destruct (caps_get (m_caps m) 1) as [g1|]; [|congruence].
  destruct (mrel_caps _ _ _ _ _ _ Hm 2)
    as [E|(body & s0 & cs0 & s1 & cs1 & Hb & M & Hg)].
  { simpl in E. congruence. }
  assert (Hbody : body = Rep isvalue 1 None).
  { unfold version_patterns in Hin. simpl in Hin.
    destruct Hin as [<-|[<-|[<-|[<-|[<-|[]]]]]]; cbn in Hb;
      repeat (destruct Hb as [Hb|Hb]; [congruence|]);
      try (injection Hb as <-; reflexivity); destruct Hb. }
  subst body. inversion M; subst.
  rewrite take_append in Hg. exists g1, w. repeat split; auto.
  destruct w; simpl in *; [lia | auto].
Qed.

Lemma isvalue_not_space (s : string) :
  PyStr.all isvalue s = true ->
  PyStr.all (fun c => negb (PyStr.isspace c)) s = true.
Proof.
  apply all_impl. intros c. unfold isvalue.
  rewrite !negb_true_iff, orb_false_iff. tauto.
Qed.

(** The pattern loop ends at the first pattern that matches. *)
Lemma for_patterns_first before : forall p later l versions m,
  (forall q, In q before -> re_match true q l = None) ->
  re_match true p l = Some m -> ngroups p = 2 ->
  for_patterns (before ++ p :: later) l versions
  = (service_name <- call_method (group m 1) PyStr.lower ;;
     version <- call_method (group m 2) PyStr.strip ;;
     Ok (dict_set versions service_name version)).
Proof.
  induction before as [|q before IH]; intros p later l versions m Hnone Hm Hn.
  - simpl. now rewrite Hm, Hn.
  - simpl. rewrite (Hnone q) by (simpl; auto).
    apply IH; auto. intros q' Hq'. apply Hnone. simpl; auto.
Qed.

Lemma for_patterns_none ps : forall l versions,
  forallb (fun p => is_none (re_match true p l)) ps = true ->
  for_patterns ps l versions = Ok versions.
Proof.
  induction ps as [|p ps IH]; intros l versions; simpl; auto.
  rewrite andb_true_iff. intros [Hp Hps].
  destruct (re_match true p l); [discriminate | auto].
Qed.

Lemma for_patterns_ok ps : forall l versions,
  (forall p, In p ps -> In p version_patterns) ->
  exists versions', for_patterns ps l versions = Ok versions'.
Proof.
  induction ps as [|p ps IH]; intros l versions Hsub; simpl; [eauto|].
  assert (Hrest : forall q, In q ps -> In q version_patterns)
    by (intros q Hq; apply Hsub; simpl; auto).
  destruct (re_match true p l) as [m|] eqn:Hm; [|auto].
  rewrite (ngroups_two p) by (apply Hsub; simpl; auto). simpl.
  destruct (env_pattern_groups p l m) as (g1 & g2 & -> & -> & _);
    [apply Hsub; simpl; auto | auto |].
  simpl. eauto.
Qed.

Lemma line_step_skipped versions line :
  line_step versions line
  = if skipped line then Ok versions
    else for_patterns version_patterns (PyStr.strip line) versions.
Proof.
  unfold line_step, skipped. cbv zeta.
  set (l := PyStr.strip line).
  destruct (negb (PyStr.truthy l) || PyStr.startswith "#" l).
  - reflexivity.
  - rewrite orb_false_l.
    destruct (forallb (fun p => is_none (re_match true p l)) version_patterns)
      eqn:E; [|reflexivity].
    now apply for_patterns_none.
Qed.

Lemma line_step_ok versions line :
  exists versions', line_step versions line = Ok versions'.
Proof.
  unfold line_step.
  destruct (negb _ || _); [eauto|]. apply for_patterns_ok. auto.
Qed.

Lemma for_lines_ok lines : forall versions,
  exists versions', for_lines lines versions = Ok versions'.
Proof.
  induction lines as [|line lines IH]; intros versions; simpl; [eauto|].
  destruct (line_step_ok versions line) as [v' ->]. simpl. apply IH.
Qed.

Lemma for_lines_app before : forall after versions,
  for_lines (before ++ after) versions
  = (versions' <- for_lines before versions ;; for_lines after versions').
Proof.
  induction before as [|line before IH]; intros after versions; simpl; auto.
  destruct (line_step versions line); simpl; auto.
Qed.

Lemma for_lines_filter lines : forall versions,
  for_lines lines versions
  = for_lines (filter (fun l => negb (skipped l)) lines) versions.
Proof.
  induction lines as [|line lines IH]; intros versions; simpl; auto.
  destruct (skipped line) eqn:E; simpl.
  - rewrite line_step_skipped, E. simpl. apply IH.
  - destruct (line_step versions line); simpl; auto.
Qed.
End EnvParserFacts.

(* ================================================================== *)
(** ** Claims on [parse_env_content] *)

Section EnvParserClaims.
Import Re VersionComparator.

(** C8. [parse_env_content] returns a map for every text and never raises;
    a line that is empty, a comment or matched by no pattern leaves the map
    as it is, so the result is the one obtained from the other lines
    alone. *)
Theorem C8_parse_env_total (text : string) :
  (exists versions, parse_env_content text = Ok versions)
  /\ parse_env_content text
     = for_lines (filter (fun l => negb (skipped l)) (PyStr.split_nl text)) []
  /\ (forall versions line,
        line_step versions line
        = if skipped line then Ok versions
          else for_patterns version_patterns (PyStr.strip line) versions).
Proof.
  split; [apply for_lines_ok|]. split.
  - apply for_lines_filter.
  - apply line_step_skipped.
Qed.

(** C4. On a line of the text that is neither empty nor a comment once
    stripped, the first pattern of the list that matches decides the entry,
    whatever patterns come after it.  The key is group 1 of that match in
    lower case: it has the length of group 1, every capital letter of group 1
    is replaced by its small letter (32 code points further) and every other
    character is kept, so that the key holds no capital letter.  The value is
    group 2, which holds no quote and no white space (so that stripping
    leaves it unchanged), and the map after the line binds the key to it. *)
Theorem C4_first_match_wins
    (text : string) (before after : list string) (line : string)
    (earlier later : list regex) (p : regex) (m : match_obj) :
  PyStr.split_nl text = before ++ line :: after ->
  PyStr.truthy (PyStr.strip line) = true ->
  PyStr.startswith "#" (PyStr.strip line) = false ->
  version_patterns = earlier ++ p :: later ->
  forallb (fun q => is_none (re_match true q (PyStr.strip line))) earlier = true ->
  re_match true p (PyStr.strip line) = Some m ->
  exists versions g1 g2 key,
    for_lines before [] = Ok versions
    /\ group m 1 = Some g1 /\ group m 2 = Some g2
    /\ key = PyStr.lower g1
    /\ String.length key = String.length g1
    /\ (forall i c,
          String.get i g1 = Some c ->
          String.get i key
          = Some (if PyStr.iscapital c
                  then ascii_of_nat (PyStr.code c + 32) else c))
    /\ PyStr.all (fun c => negb (PyStr.iscapital c)) key = true
    /\ line_step versions line = Ok (dict_set versions key g2)
    /\ dict_get (dict_set versions key g2) key = Some g2
    /\ parse_env_content text = for_lines after (dict_set versions key g2)
    /\ (forall others,
          for_patterns (earlier ++ p :: others) (PyStr.strip line) versions
          = Ok (dict_set versions key g2))
    /\ PyStr.all isvalue g2 = true
    /\ PyStr.strip g2 = g2.
Proof.
  intros Hsplit Hne Hnc Hpats Hearlier Hm.
  assert (Hin : In p version_patterns)
    by (rewrite Hpats, in_app_iff; simpl; auto).
  destruct (env_pattern_groups p _ m Hin Hm) as (g1 & g2 & G1 & G2 & Hval & _).
  destruct (for_lines_ok before []) as [versions Hbefore].
  assert (Hstrip : PyStr.strip g2 = g2)
    by (apply strip_id, isvalue_not_space, Hval).
  assert (Hfirst : forall others,
            for_patterns (earlier ++ p :: others) (PyStr.strip line) versions
            = Ok (dict_set versions (PyStr.lower g1) g2)).
  { intros others.
    rewrite (for_patterns_first earlier p others _ versions m); auto.
    - rewrite G1, G2. simpl. now rewrite Hstrip.
    - intros q Hq. rewrite forallb_forall in Hearlier.
      specialize (Hearlier q Hq). now destruct (re_match true q _).
    - now apply ngroups_two. }
  assert (Hline : line_step versions line
                  = Ok (dict_set versions (PyStr.lower g1) g2)).
  { unfold line_step. cbv zeta. rewrite Hne, Hnc. simpl negb. simpl orb.
    rewrite Hpats. apply Hfirst. }
  exists versions, g1, g2, (PyStr.lower g1).
  repeat split; auto.
  - apply length_lower.
  - apply get_lower.
  - apply lower_no_capital.
  - apply dict_get_set_eq.
  - unfold parse_env_content. rewrite Hsplit, for_lines_app, Hbefore.
    simpl. now rewrite Hline.
Qed.

Lemma C4_first_match_wins_witness :
  let text := "# versions
APPCD_TAG=v0.65.4
NOISE" in
  let line := "APPCD_TAG=v0.65.4" in
  let m := mkMatch [(2, "v0.65.4"); (1, "APPCD")] "" in
  (PyStr.split_nl text = ["# versions"] ++ line :: ["NOISE"]
   /\ PyStr.truthy (PyStr.strip line) = true
   /\ PyStr.startswith "#" (PyStr.strip line) = false
   /\ version_patterns
      = [pattern_suffix_version; pattern_prefix_version]
          ++ pattern_suffix_tag :: [pattern_image; pattern_special]
   /\ forallb (fun q => is_none (re_match true q (PyStr.strip line)))
              [pattern_suffix_version; pattern_prefix_version] = true
   /\ re_match true pattern_suffix_tag (PyStr.strip line) = Some m)
  /\ for_lines ["# versions"] [] = Ok []
  /\ group m 1 = Some "APPCD" /\ group m 2 = Some "v0.65.4"
  /\ line_step [] line = Ok [("appcd", "v0.65.4")]
  /\ dict_get [("appcd", "v0.65.4")] "appcd" = Some "v0.65.4"
  /\ parse_env_content text = Ok [("appcd", "v0.65.4")]
  /\ (forall others,
        for_patterns ([pattern_suffix_version; pattern_prefix_version]
                        ++ pattern_suffix_tag :: others)
                     (PyStr.strip line) []
        = Ok [("appcd", "v0.65.4")]).
Proof.
  intros text line m.
  split; [repeat split; reflexivity|].
  destruct (C4_first_match_wins text ["# versions"] ["NOISE"] line
              [pattern_suffix_version; pattern_prefix_version]
              [pattern_image; pattern_special] pattern_suffix_tag m)
    as (versions & g1 & g2 & key & Hbefore & G1 & G2 & Hkey & _ & _ & _
        & Hline & Hget & Hall & Hfirst & _ & _);
    try reflexivity.
  injection Hbefore as <-. injection G1 as <-. injection G2 as <-.
  subst key.
  split; [reflexivity|]. split; [reflexivity|]. split; [reflexivity|].
  split; [exact Hline|]. split; [exact Hget|]. split; [exact Hall|].
  exact Hfirst.
Defined.

(** One line for each kind of pattern, and lines that are skipped. *)
Example parse_env_pattern_kinds :
  parse_env_content "APPCD_VERSION=v0.65.4" = Ok [("appcd", "v0.65.4")]
  /\ parse_env_content "VERSION_UI = '1.2'" = Ok [("ui", "1.2")]
  /\ parse_env_content "IACGEN_TAG=v0.52.6" = Ok [("iacgen", "v0.52.6")]
  /\ parse_env_content "IMAGE_VAULT=registry/vault:v0.5.1" = Ok [("vault", "v0.5.1")]
  /\ parse_env_content "sgai_control=main" = Ok [("sgai_control", "main")]
  /\ parse_env_content "IMAGE_FOO_VERSION=repo:tag" = Ok [("image_foo", "repo:tag")]
  /\ parse_env_content "# APPCD_VERSION=v1

no pattern here" = Ok [].
Proof. repeat split; reflexivity. Qed.
End EnvParserClaims.

(* ================================================================== *)
(** ** Ticket extraction *)

Section TicketFacts.
Import Re LinearTicketExtractor.

Lemma ticket_no_open t :
  is_ticket t -> PyStr.all not_open (String.append t "]") = true.
Proof.
  intros (p & n & -> & Hp & _ & Hn & _).
  assert (Hp' : PyStr.all not_open p = true).
  { apply (all_impl PyStr.isupper_az); auto.
    intros c. unfold PyStr.isupper_az, PyStr.between, PyStr.code, not_open.
    destruct (Ascii.eqb_spec c "["); [subst; simpl; discriminate | auto]. }
  assert (Hn' : PyStr.all not_open n = true).
  { apply (all_impl PyStr.isdecimal); auto.
    intros c. unfold PyStr.isdecimal, PyStr.between, PyStr.code, not_open.
    destruct (Ascii.eqb_spec c "["); [subst; simpl; discriminate | auto]. }
  rewrite !all_append. simpl. now rewrite Hp', Hn'.
Qed.

(** A match of the pattern is an opening bracket, a ticket key, a closing
    bracket; group 1 is the key. *)
Lemma ticket_match_sound s m :
  re_match false ticket_pattern s = Some m ->
  exists t, is_ticket t
            /\ s = String "[" (String.append t (String "]" (m_rest m)))
            /\ group m 1 = Some t.
Proof.
  intros H. apply re_match_sound in H.
  destruct m as [caps rest]. simpl in H. unfold group. simpl m_caps.
  unfold ticket_pattern, seq in H. simpl in H.
  inversion H as [| | |? ? ? ? s1 cs1 ? ? Hopen Hrest| | | |]; subst; clear H.
  inversion Hopen as [|? c0 ? ? Hc| | | | | |]; subst; clear Hopen.
  unfold char_eq in Hc. apply Ascii.eqb_eq in Hc. subst c0.
  inversion Hrest as [| | |? ? ? ? s2 cs2 ? ? Hgrp Hclose| | | |]; subst;
    clear Hrest.
  inversion Hclose as [| | |? ? ? ? s3 cs3 ? ? Hc1 Hc2| | | |]; subst;
    clear Hclose.
  inversion Hc2; subst; clear Hc2.
  inversion Hc1 as [|? c1 ? ? Hc| | | | | |]; subst; clear Hc1.
  unfold char_eq in Hc. apply Ascii.eqb_eq in Hc. subst c1.
  inversion Hgrp as [| | | | | | |? ? ? ? ? cs4 Hbody]; subst; clear Hgrp.
  inversion Hbody as [| | |? ? ? ? s5 cs5 ? ? Hup Hb1| | | |]; subst;
    clear Hbody.
  inversion Hb1 as [| | |? ? ? ? s6 cs6 ? ? Hdash Hb2| | | |]; subst;
    clear Hb1.
  inversion Hb2 as [| | |? ? ? ? s7 cs7 ? ? Hdig Hb3| | | |]; subst;
    clear Hb2.
  inversion Hb3; subst; clear Hb3.
  inversion Hdash as [|? c2 ? ? Hc| | | | | |]; subst; clear Hdash.
  unfold char_eq in Hc. apply Ascii.eqb_eq in Hc. subst c2.
  inversion Hdig as [| | | | | |? ? ? n ? ? Hn Hnlo Hnhi|]; subst; clear Hdig.
  inversion Hup as [| | | | | |? ? ? p ? ? Hp Hplo Hphi Heq|]; subst; clear Hup.
  exists (String.append p (String "-" n)). split; [|split].
  - exists p, n. simpl in *. repeat split; auto.
  - rewrite append_assoc. reflexivity.
  - simpl caps_get.
    replace (String.append p (String "-" (String.append n (String "]" rest))))
      with (String.append (String.append p (String "-" n)) (String "]" rest))
      by (now rewrite append_assoc).
    now rewrite take_append.
Qed.

Lemma ticket_unique t t' r r' :
  is_ticket t -> is_ticket t' ->
  String.append t (String "]" r) = String.append t' (String "]" r') ->
  t = t' /\ r = r'.
Proof.
  intros (p & n & -> & Hp & _ & Hn & _) (p' & n' & -> & Hp' & _ & Hn' & _).
  rewrite !append_assoc. simpl. intros Heq.
  apply span_unique with (p := PyStr.isupper_az) in Heq; auto.
  destruct Heq as (-> & _ & Heq).
  apply span_unique with (p := PyStr.isdecimal) in Heq; auto.
  destruct Heq as (-> & _ & ->). auto.
Qed.

Lemma ticket_match_complete t after :
  is_ticket t ->
  exists m,
    re_match false ticket_pattern
      (String "[" (String.append t (String "]" after))) = Some m
    /\ group m 1 = Some t /\ m_rest m = after.
Proof.
  intros Ht.
  assert (M : exists cs,
             mrel false ticket_pattern
                  (String "[" (String.append t (String "]" after))) []
                  after cs).
  { destruct Ht as (p & n & -> & Hp & Hpl & Hn & Hnl).
    rewrite append_assoc. simpl. eexists.
    unfold ticket_pattern, seq. simpl.
    eapply M_seq; [apply M_lit; reflexivity|].
    eapply M_seq.
    - apply M_grp.
      eapply M_seq; [apply M_rep; [exact Hp | lia | simpl; lia]|].
      eapply M_seq; [apply M_lit; reflexivity|].
      eapply M_seq; [apply M_rep; [exact Hn | lia | simpl; lia]|].
      apply M_eps.
    - eapply M_seq; [apply M_lit; reflexivity | apply M_eps]. }
  destruct M as [cs M].
  destruct (re_match_complete _ _ _ _ _ M) as [m Hm].
  exists m. split; auto.
  destruct (ticket_match_sound _ _ Hm) as (t' & Ht' & Heq & Hg).
  injection Heq as Heq.
  destruct (ticket_unique _ _ _ _ Ht Ht' Heq) as [-> ->]. auto.
Qed.

Lemma ticket_match_length s m t :
  re_match false ticket_pattern s = Some m ->
  group m 1 = Some t ->
  s = String "[" (String.append t (String "]" (m_rest m)))
  /\ is_ticket t
  /\ String.length s - String.length (m_rest m) - 1
     = String.length (String.append t "]").
Proof.
  intros Hm Hg. destruct (ticket_match_sound _ _ Hm) as (t' & Ht' & Heq & Hg').
  assert (t' = t) by congruence. subst t'. repeat split; auto.
  assert (L1 : String.length s
               = String.length t + String.length (m_rest m) + 2).
  { rewrite Heq. simpl. rewrite length_append. simpl. lia. }
  assert (L2 : String.length (String.append t "]") = String.length t + 1).
  { rewrite length_append. reflexivity. }
  rewrite L1, L2. lia.
Qed.

Arguments re_match : simpl never.

Lemma findall_from_zero r s :
  findall_from r s 0
  = match re_match false r s with
    | Some m =>
        (match group m 1 with Some g => g | None => "" end)
        :: match s with
           | String _ s' =>
               findall_from r s'
                 (String.length s - String.length (m_rest m) - 1)
           | EmptyString => []
           end
    | None =>
        match s with
        | String _ s' => findall_from r s' 0
        | EmptyString => []
        end
    end.
Proof. destruct s; reflexivity. Qed.

(** Everything [findall] returns is a bracketed ticket key of the text. *)
Lemma findall_sound s : forall skip t,
  In t (findall_from ticket_pattern s skip) ->
  is_ticket t /\ bracketed t s.
Proof.
  induction s as [|c s IH]; intros skip t.
  - destruct skip as [|n]; [rewrite findall_from_zero | simpl; tauto].
    destruct (re_match false ticket_pattern "") as [m|] eqn:Hm; [|simpl; tauto].
    apply re_match_sound in Hm. unfold ticket_pattern, seq in Hm. simpl in Hm.
    inversion Hm as [| | |? ? ? ? s1 cs1 ? ? Hopen _| | | |]; subst.
    inversion Hopen.
  - assert (Hshift : forall n, In t (findall_from ticket_pattern s n) ->
                               is_ticket t /\ bracketed t (String c s)).
    { intros n Hin. destruct (IH n t Hin) as (Ht & before & after & ->).
      split; auto. exists (String c before), after. reflexivity. }
    destruct skip as [|n]; [|apply Hshift].
    rewrite findall_from_zero.
    destruct (re_match false ticket_pattern (String c s)) as [m|] eqn:Hm;
      [|apply Hshift].
    intros [Hfound|Hin]; [|eapply Hshift; eauto].
    destruct (ticket_match_sound _ _ Hm) as (t' & Ht' & Heq & Hg).
    rewrite Hg in Hfound. subst t'. split; auto.
    exists "", (m_rest m). simpl. exact Heq.
Qed.

(** Every bracketed ticket key of the text is returned: the scan cannot
    jump over its opening bracket. *)
Lemma findall_complete t after before : forall skip,
  is_ticket t -> skip <= String.length before ->
  In t (findall_from ticket_pattern
          (String.append before
             (String "[" (String.append t (String "]" after)))) skip).
Proof.
  intros skip Ht. revert skip.
  induction before as [|c before IH]; intros skip Hskip.
  - simpl in Hskip. assert (skip = 0) by lia. subst skip.
    simpl String.append. rewrite findall_from_zero.
    destruct (ticket_match_complete t after Ht) as (m & -> & -> & _).
    now left.
  - simpl String.append. destruct skip as [|n].
    + rewrite findall_from_zero.
      destruct (re_match false ticket_pattern _) as [m|] eqn:Hm.
      * right. apply IH.
        destruct (ticket_match_sound _ _ Hm) as (t' & Ht' & Heq & Hg).
        destruct (ticket_match_length _ _ _ Hm Hg) as (_ & _ & ->).
        injection Heq as -> Heq.
        apply (prefix_before "[" (String.append t' "]") (m_rest m) before
                 (String.append t (String "]" after))).
        -- apply (ticket_no_open _ Ht').
        -- rewrite append_assoc. simpl. auto.
      * apply IH. lia.
    + simpl. apply IH. simpl in Hskip. lia.
Qed.

Lemma tickets_fold matches : forall tickets,
  NoDup tickets ->
  let result := fold_left (fun acc m => set_add string_dec m acc) matches tickets in
  NoDup result /\ forall t, In t result <-> In t tickets \/ In t matches.
Proof.
  induction matches as [|m matches IH]; intros tickets Hnd; simpl.
  - split; auto. tauto.
  - destruct (IH (set_add string_dec m tickets)) as [Hnd' Hin].
    + now apply set_add_nodup.
    + split; auto. intros t. rewrite Hin, set_add_iff. intuition congruence.
Qed.
End TicketFacts.

Section TicketClaims.
Import Re LinearTicketExtractor.

(** C5. For every text, [extract_tickets_from_text] returns a set (no
    duplicates) whose members are exactly the ticket keys (2 to 6 letters A-Z,
    a hyphen, 1 to 6 digits) that occur in the text enclosed in square
    brackets; it is therefore empty when there is none, and it is a value for
    every text.  On the sample text it is the set of AB-123 and ABCD-4567. *)
Theorem C5_extract_tickets (text : string) :
  NoDup (extract_tickets_from_text text)
  /\ (forall t, In t (extract_tickets_from_text text)
                <-> is_ticket t /\ bracketed t text)
  /\ ((forall t, ~ (is_ticket t /\ bracketed t text)) ->
      extract_tickets_from_text text = [])
  /\ extract_tickets_from_text
       "fix: resolve issue [AB-123] and [ABCD-4567] duplicate [AB-123]"
     = ["AB-123"; "ABCD-4567"].
Proof.
  destruct (tickets_fold (findall ticket_pattern text) (empty_set string))
    as [Hnd Hin]; [constructor|].
  fold (extract_tickets_from_text text) in Hnd, Hin.
  assert (Hiff : forall t, In t (extract_tickets_from_text text)
                           <-> is_ticket t /\ bracketed t text).
  { intros t. rewrite Hin. split.
    - intros [[]|H]. now apply findall_sound in H.
    - intros (Ht & before & after & ->). right.
      apply findall_complete; auto. lia. }
  split; [exact Hnd|]. split; [exact Hiff|]. split; [|reflexivity].
  intros Hnone. destruct (extract_tickets_from_text text) as [|t l] eqn:E; auto.
  exfalso. apply (Hnone t), Hiff. now left.
Qed.
End TicketClaims.

(* ================================================================== *)
(** ** The reference JSON decoder on the output of the encoder *)

Section JsonFacts.
Import Json.

(** Each character is read back from its encoding. *)
Lemma scan_encode_char (c : ascii) (tail : string) :
  scan_string (String.append (encode_char c) tail)
  = match scan_string tail with
    | Some (w, r) => Some (String c w, r)
    | None => None
    end.
Proof.
  destruct c as [[] [] [] [] [] [] [] []]; reflexivity.
Qed.

Lemma scan_encode (s rest : string) :
  scan_string (String.append (encode_chars s) (String quote rest)) = Some (s, rest).
Proof.
  induction s as [|c s IH]; [reflexivity|].
  simpl encode_chars. rewrite append_assoc, scan_encode_char, IH. reflexivity.
Qed.

Lemma encode_string_append (s rest : string) :
  String.append (encode_string s) rest
  = String quote (String.append (encode_chars s) (String quote rest)).
Proof. unfold encode_string. simpl. now rewrite append_assoc. Qed.

Lemma parse_string_value (f : nat) (s rest : string) :
  parse_value (S f) (String.append (encode_string s) rest) = Some (Str s, rest).
Proof.
  rewrite encode_string_append. simpl. now rewrite scan_encode.
Qed.

(** One member written by the encoder, then what [parse_members] does
    next. *)
Lemma parse_member (f : nat) (k v rest : string) (acc : dict value) :
  parse_members (S (S f))
    (String.append (encode_string k)
       (String.append ": " (String.append (encode_string v) rest))) acc
  = match skip_ws rest with
    | String e s5 =>
        if Ascii.eqb e "," then
          parse_members (S f) (skip_ws s5) (dict_set acc k (Str v))
        else if Ascii.eqb e "}" then Some (Obj (dict_set acc k (Str v)), s5)
        else None
    | EmptyString => None
    end.
Proof.
  rewrite encode_string_append.
  cbn [parse_members]. 
  change (Ascii.eqb quote quote) with true. cbv iota.
  rewrite scan_encode.
  change (skip_ws (String.append ": " (String.append (encode_string v) rest)))
    with (String ":" (String " " (String.append (encode_string v) rest))).
  change (Ascii.eqb ":" ":") with true. cbv iota.
  change (skip_ws (String " " (String.append (encode_string v) rest)))
    with (skip_ws (String.append (encode_string v) rest)).
  rewrite encode_string_append.
  change (skip_ws (String quote ?x)) with (String quote x).
  rewrite <- encode_string_append, parse_string_value. reflexivity.
Qed.

Lemma encode_members_cons (k v : string) (m : list (string * string)) :
  m <> [] ->
  encode_members ((k, v) :: m)
  = String.append (encode_string k)
      (String.append ": "
         (String.append (encode_string v)
            (String.append ", " (encode_members m)))).
Proof. destruct m; [congruence | reflexivity]. Qed.

Lemma encode_members_starts (m : list (string * string)) :
  m <> [] -> exists x, encode_members m = String quote x.
Proof.
  destruct m as [|[k v] m]; [congruence|]. intros _.
  destruct m; simpl; eauto.
Qed.

Lemma parse_members_flat (m : list (string * string)) :
  forall acc f tail,
  m <> [] -> length m <= f ->
  parse_members (S f) (String.append (encode_members m) (String "}" tail)) acc
  = Some (Obj (store_all m acc), tail).
Proof.
  induction m as [|[k v] m IH]; intros acc f tail Hne Hf; [congruence|].
  destruct f as [|f]; [simpl in Hf; lia|].
  destruct m as [|kv m].
  - change (encode_members [(k, v)])
      with (String.append (encode_string k) (String.append ": " (encode_string v))).
    rewrite !append_assoc, parse_member. reflexivity.
  - rewrite encode_members_cons by discriminate.
    rewrite !append_assoc, parse_member.
    destruct (encode_members_starts (kv :: m)) as [x Hx]; [discriminate|].
    change (skip_ws (String.append ", " ?y)) with (String "," (String " " y)).
    change (Ascii.eqb "," ",") with true. cbv iota.
    change (skip_ws (String " " ?y)) with (skip_ws y).
    rewrite Hx at 1.
    change (skip_ws (String.append (String quote x) ?y))
      with (String.append (String quote x) y).
    rewrite <- Hx. rewrite IH; [reflexivity | discriminate | simpl in *; lia].
Qed.

Lemma length_encode_members (m : list (string * string)) :
  length m <= String.length (encode_members m).
Proof.
  induction m as [|[k v] m IH]; [simpl; lia|].
  destruct m as [|kv m].
  - simpl. lia.
  - rewrite encode_members_cons by discriminate.
    rewrite !length_append.
    change (String.length ": ") with 2. change (String.length ", ") with 2.
    change (length ((k, v) :: kv :: m)) with (S (length (kv :: m))). lia.
Qed.

Lemma store_all_fresh (m : dict string) : forall acc,
  dict_wf m -> (forall k, In k (keys m) -> ~ In k (keys acc)) ->
  store_all m acc = acc ++ flat m.
Proof.
  unfold store_all.
  induction m as [|[k v] m IH]; intros acc Hwf Hfresh; simpl.
  - now rewrite app_nil_r.
  - inversion Hwf as [|? ? Hnotin Hwf']; subst.
    rewrite dict_set_fresh by (apply Hfresh; simpl; auto).
    rewrite IH; auto.
    + now rewrite <- app_assoc.
    + intros k' Hin. unfold keys. rewrite map_app, in_app_iff. simpl.
      intros [H|[H|[]]].
      * apply (Hfresh k'); simpl; auto.
      * subst. auto.
Qed.

(** The reference decoder reads back what the reference encoder writes. *)
Lemma loads_dumps_flat (m : dict string) :
  dict_wf m -> Json.loads (dumps_flat m) = Ok (Obj (flat m)).
Proof.
  intros Hwf. unfold Json.loads, dumps_flat.
  change (skip_ws (String "{" ?x)) with (String "{" x).
  set (fuel := 2 * String.length (String "{" (String.append (encode_members m) "}")) + 1).
  replace (2 * String.length (String "{" (String.append (encode_members m) "}")) + 2)
    with (S fuel) by (unfold fuel; lia).
  assert (Hfuel : length m < fuel).
  { unfold fuel. simpl String.length. rewrite length_append.
    pose proof (length_encode_members m). lia. }
  destruct m as [|kv m].
  - reflexivity.
  - destruct (encode_members_starts (kv :: m)) as [x Hx]; [discriminate|].
    cbn [parse_value]. change (Ascii.eqb "{" quote) with false.
    change (Ascii.eqb "{" "{") with true. cbv iota.
    rewrite Hx at 1.
    change (skip_ws (String.append (String quote x) "}"))
      with (String quote (String.append x "}")).
    change (Ascii.eqb quote "}") with false. cbv iota.
    change (String quote (String.append x "}"))
      with (String.append (String quote x) "}").
    rewrite <- Hx.
    destruct fuel as [|f]; [lia|].
    rewrite parse_members_flat; [|discriminate|lia].
    simpl skip_ws. rewrite store_all_fresh; auto.
Qed.
End JsonFacts.

(* ================================================================== *)
(** ** [parse_version_json] *)

Section VersionJsonFacts.
Import Json VersionComparator.

Variable json_loads : string -> pyresult value.

Lemma keys_flat (m : dict string) : keys (flat m) = keys m.
Proof. unfold keys, flat. rewrite map_map. reflexivity. Qed.

(** Direct string values under fresh lower-case keys are stored one after
    the other, as they are. *)
Lemma item_fold_flat (m : dict string) : forall acc,
  dict_wf m -> lowercase_keys m = true ->
  (forall k, In k (keys m) -> ~ In k (keys acc)) ->
  fold_left item_step (flat m) acc = acc ++ flat m.
Proof.
  induction m as [|[k v] m IH]; intros acc Hwf Hlow Hfresh; simpl.
  - now rewrite app_nil_r.
  - unfold lowercase_keys in Hlow. simpl in Hlow.
    apply andb_true_iff in Hlow. destruct Hlow as [Hk Hlow].
    apply String.eqb_eq in Hk. rewrite Hk.
    inversion Hwf as [|? ? Hnotin Hwf']; subst.
    rewrite dict_set_fresh by (apply Hfresh; simpl; auto).
    rewrite IH; auto.
    + now rewrite <- app_assoc.
    + intros k' Hin. unfold keys. rewrite map_app, in_app_iff. simpl.
      intros [H|[H|[]]].
      * apply (Hfresh k'); simpl; auto.
      * subst. auto.
Qed.
End VersionJsonFacts.

(* ================================================================== *)
(** ** The decoder under the recursion limit *)

Section DecoderLimitFacts.
Import Json.

(** Unless the limit is hit, the three functions give what the ones without
    a limit give. *)
Lemma parse_within_agrees fuel :
  (forall depth s,
     is_too_deep (parse_value_within fuel depth s) = true
     \/ parse_value_within fuel depth s = of_option (parse_value fuel s))
  /\ (forall depth s acc,
        is_too_deep (parse_members_within fuel depth s acc) = true
        \/ parse_members_within fuel depth s acc
           = of_option (parse_members fuel s acc))
  /\ (forall depth s acc,
        is_too_deep (parse_elements_within fuel depth s acc) = true
        \/ parse_elements_within fuel depth s acc
           = of_option (parse_elements fuel s acc)).
Proof.
  induction fuel as [|f (IHv & IHm & IHe)]; [repeat split; intros; now right|].
  repeat split.
  - intros depth [|c s1]; [now right|]. cbn [parse_value_within parse_value].
    destruct (Ascii.eqb c quote).
    { right. now destruct (scan_string s1) as [[w r]|]. }
    destruct (Ascii.eqb c "{").
    { destruct depth as [|inner]; [now left|].
      destruct (skip_ws s1) as [|d s2]; [now right|].
      destruct (Ascii.eqb d "}"); [now right|]. apply IHm. }
    destruct (Ascii.eqb c "[").
    { destruct depth as [|inner]; [now left|].
      destruct (skip_ws s1) as [|d s2]; [now right|].
      destruct (Ascii.eqb d "]"); [now right|]. apply IHe. }
    right. now destruct (scan_constant (String c s1)).
  - intros depth [|c s1] acc; [now right|].
    cbn [parse_members_within parse_members].
    destruct (Ascii.eqb c quote); [|now right].
    destruct (scan_string s1) as [[key s2]|]; [|now right].
    destruct (skip_ws s2) as [|d s3]; [now right|].
    destruct (Ascii.eqb d ":"); [|now right].
    destruct (IHv depth (skip_ws s3)) as [H | ->].
    { left. now destruct (parse_value_within f depth (skip_ws s3)) as [[v s4]|e]. }
    destruct (parse_value f (skip_ws s3)) as [[v s4]|]; [|now right].
    cbn [of_option]. cbv zeta.
    destruct (skip_ws s4) as [|e s5]; [now right|].
    destruct (Ascii.eqb e ","); [apply IHm|].
    destruct (Ascii.eqb e "}"); now right.
  - intros depth s acc. cbn [parse_elements_within parse_elements].
    destruct (IHv depth s) as [H | ->].
    { left. now destruct (parse_value_within f depth s) as [[v s1]|e]. }
    destruct (parse_value f s) as [[v s1]|]; [|now right].
    cbn [of_option].
    destruct (skip_ws s1) as [|e s2]; [now right|].
    destruct (Ascii.eqb e ","); [apply IHe|].
    destruct (Ascii.eqb e "]"); now right.
Qed.

(** The limit changes the answer of the decoder only where it is hit. *)
Lemma loads_within_agrees depth text :
  is_too_deep (loads_within depth text) = true
  \/ loads_within depth text = loads text.
Proof.
  unfold loads_within, loads.
  destruct (proj1 (parse_within_agrees (2 * String.length text + 2))
              depth (skip_ws text)) as [H | ->].
  { left. now destruct (parse_value_within _ _ _) as [[v rest]|e]. }
  right. now destruct (parse_value _ _) as [[v rest]|].
Qed.

(** With enough calls left, the limit is not hit: for one, a text without an
    object or an array needs none. *)
Example loads_within_samples :
  loads_within 0 "42" = Ok (Num "42")
  /\ loads_within 0 "[]" = Raise (too_deep "array")
  /\ loads_within 1 "[]" = Ok (Arr [])
  /\ loads_within 1 "[{}]" = Raise (too_deep "object")
  /\ loads_within 2 "[{}]" = Ok (Arr [Obj []])
  /\ loads_within 2 "[[[" = Raise (too_deep "array")
  /\ loads_within 3 "[[[" = Raise expecting_value
  /\ loads_within 0 "]" = Raise expecting_value.
Proof. repeat split; reflexivity. Qed.

Lemma mul_bracket_S n : PyStr.mul "[" (S n) = String "[" (PyStr.mul "[" n).
Proof. reflexivity. Qed.

Lemma length_mul_bracket n : String.length (PyStr.mul "[" n) = n.
Proof.
  induction n; [reflexivity|]. rewrite mul_bracket_S. simpl. now rewrite IHn.
Qed.

Lemma skip_ws_mul_bracket n : skip_ws (PyStr.mul "[" n) = PyStr.mul "[" n.
Proof. destruct n; reflexivity. Qed.

(** More brackets than the limit allows: the limit is hit before the end of
    the text is seen. *)
Lemma open_brackets_too_deep depth :
  forall fuel n, depth < n -> 2 * depth + 1 <= fuel ->
  parse_value_within fuel depth (PyStr.mul "[" n) = Raise (too_deep "array").
Proof.
  induction depth as [|d IH]; intros fuel n Hn Hf.
  - destruct fuel as [|f]; [lia|]. destruct n as [|n]; [lia|]. reflexivity.
  - destruct fuel as [|[|f]]; try lia.
    destruct n as [|[|n]]; try lia.
    rewrite mul_bracket_S. cbn [parse_value_within].
    change (Ascii.eqb "[" quote) with false.
    change (Ascii.eqb "[" "{") with false.
    change (Ascii.eqb "[" "[") with true. cbv iota.
    rewrite skip_ws_mul_bracket, mul_bracket_S.
    change (Ascii.eqb "[" "]") with false. cbv iota.
    cbn [parse_elements_within]. rewrite <- mul_bracket_S.
    rewrite IH by lia. reflexivity.
Qed.

(** Brackets that are never closed are no JSON. *)
Lemma open_brackets_not_json fuel :
  forall n, 0 < n ->
  parse_value fuel (PyStr.mul "[" n) = None
  /\ parse_value (S fuel) (PyStr.mul "[" n) = None.
Proof.
  induction fuel as [|f IH]; intros n Hn.
  - split; [reflexivity|]. destruct n as [|[|n]]; [lia| |]; reflexivity.
  - split; [now apply IH|].
    destruct n as [|[|n]]; [lia|reflexivity|].
    rewrite mul_bracket_S. cbn [parse_value].
    change (Ascii.eqb "[" quote) with false.
    change (Ascii.eqb "[" "{") with false.
    change (Ascii.eqb "[" "[") with true. cbv iota.
    rewrite skip_ws_mul_bracket, mul_bracket_S.
    change (Ascii.eqb "[" "]") with false. cbv iota.
    cbn [parse_elements]. rewrite <- mul_bracket_S.
    now rewrite (proj1 (IH (S n) ltac:(lia))).
Qed.

Lemma loads_open_brackets n :
  0 < n -> loads (PyStr.mul "[" n) = Raise expecting_value.
Proof.
  intros Hn. unfold loads. rewrite skip_ws_mul_bracket.
  now rewrite (proj1 (open_brackets_not_json _ n Hn)).
Qed.

Lemma loads_within_open_brackets depth n :
  depth < n ->
  loads_within depth (PyStr.mul "[" n) = Raise (too_deep "array").
Proof.
  intros Hn. unfold loads_within.
  rewrite skip_ws_mul_bracket, length_mul_bracket.
  now rewrite open_brackets_too_deep by lia.
Qed.

End DecoderLimitFacts.

Section VersionJsonClaims.
Import Json VersionComparator.

(** When [json.loads] raises [JSONDecodeError] on the text,
    [parse_version_json] does not raise: it returns the map with the single
    key [content], bound to the text stripped of surrounding white space. *)
Lemma parse_version_json_fallback
    (json_loads : string -> pyresult value) (text msg : string) :
  json_loads text = Raise (JSONDecodeError msg) ->
  parse_version_json json_loads text
  = Ok [("content", Str (PyStr.strip text))].
Proof. intros H. unfold parse_version_json. now rewrite H. Qed.

Example parse_version_json_fallback_sample :
  let text := "  v2025.7.10 (build 7)
" in
  Json.loads text = Raise (JSONDecodeError "Expecting value")
  /\ parse_version_json Json.loads text
     = Ok [("content", Str "v2025.7.10 (build 7)")].
Proof. split; reflexivity. Qed.

(** Any other exception of [json.loads] leaves [parse_version_json]
    uncaught: the [except] clause names [JSONDecodeError] only. *)
Lemma parse_version_json_propagates
    (json_loads : string -> pyresult value) (text : string) (e : exn) :
  json_loads text = Raise e ->
  (forall msg, e <> JSONDecodeError msg) ->
  parse_version_json json_loads text = Raise e.
Proof.
  intros H He. unfold parse_version_json. rewrite H.
  destruct e; try reflexivity. now destruct (He msg).
Qed.

(** C6, at the inputs where the code departs from it.  A text of [n] opening
    brackets is no JSON: the decoder without a limit rejects it with
    [JSONDecodeError].  When fewer than [n] nested calls are left before the
    recursion limit, [json.loads] raises [RecursionError] on it instead, the
    [except] clause does not catch that, and [parse_version_json] raises too
    where the claim has it return the map with the single key [content]. *)
Theorem C6_recursion_error_escapes (depth n : nat) :
  depth < n ->
  let text := PyStr.mul "[" n in
  let error :=
    RecursionError
      "maximum recursion depth exceeded while decoding a JSON array from a unicode string" in
  Json.loads text = Raise (JSONDecodeError "Expecting value")
  /\ Json.loads_within depth text = Raise error
  /\ parse_version_json (Json.loads_within depth) text = Raise error
  /\ parse_version_json (Json.loads_within depth) text
     <> Ok [("content", Str (PyStr.strip text))].
Proof.
  intros Hn text error.
  assert (Hdeep : Json.loads_within depth text = Raise error)
    by now apply loads_within_open_brackets.
  assert (Hraise : parse_version_json (Json.loads_within depth) text
                   = Raise error).
  { apply parse_version_json_propagates; [exact Hdeep | discriminate]. }
  repeat split.
  - apply loads_open_brackets. lia.
  - exact Hdeep.
  - exact Hraise.
  - rewrite Hraise. discriminate.
Qed.

Lemma C6_recursion_error_escapes_witness :
  999 < 1000
  /\ (let text := PyStr.mul "[" 1000 in
      let error :=
        RecursionError
          "maximum recursion depth exceeded while decoding a JSON array from a unicode string" in
      Json.loads text = Raise (JSONDecodeError "Expecting value")
      /\ Json.loads_within 999 text = Raise error
      /\ parse_version_json (Json.loads_within 999) text = Raise error
      /\ parse_version_json (Json.loads_within 999) text
         <> Ok [("content", Str (PyStr.strip text))]).
Proof.
  split; [lia|]. apply (C6_recursion_error_escapes 999 1000). lia.
Defined.

(** C10. When the text is valid JSON whose top-level value is not an object,
    [parse_version_json] returns the empty map: no error and no [content]
    entry. *)
Theorem C10_non_object_json
    (json_loads : string -> pyresult value) (text : string) (data : value) :
  json_loads text = Ok data ->
  is_dict data = false ->
  parse_version_json json_loads text = Ok [].
Proof.
  intros H Hd. unfold parse_version_json. rewrite H.
  destruct data; try reflexivity. discriminate.
Qed.

Lemma C10_non_object_json_witness :
  let quoted := String quote (String.append "v1.2.3" (String quote EmptyString)) in
  (Json.loads "[1, 2]" = Ok (Arr [Num "1"; Num "2"])
   /\ parse_version_json Json.loads "[1, 2]" = Ok [])
  /\ (Json.loads quoted = Ok (Str "v1.2.3")
      /\ parse_version_json Json.loads quoted = Ok [])
  /\ (Json.loads "42" = Ok (Num "42")
      /\ parse_version_json Json.loads "42" = Ok []).
Proof.
  intros quoted. split; [|split].
  - split; [reflexivity|].
    apply (C10_non_object_json Json.loads "[1, 2]" (Arr [Num "1"; Num "2"]));
      reflexivity.
  - split; [reflexivity|].
    apply (C10_non_object_json Json.loads quoted (Str "v1.2.3")); reflexivity.
  - split; [reflexivity|].
    apply (C10_non_object_json Json.loads "42" (Num "42")); reflexivity.
Defined.

(** C7, as stated, fails on a key with a capital letter: the map with the
    single entry A -> 1 is serialised, parsed back by [json.loads] as it was,
    and [parse_version_json] returns it under the key a. *)
Lemma C7_uppercase_key_counterexample :
  let m := [("A", "1")] in
  Json.loads (dumps_flat m) = Ok (Obj (flat m))
  /\ parse_version_json Json.loads (dumps_flat m) = Ok (flat [("a", "1")])
  /\ parse_version_json Json.loads (dumps_flat m) <> Ok (flat m).
Proof.
  intros m. split; [reflexivity|]. split; [reflexivity|].
  intros H. vm_compute in H. discriminate H.
Qed.

(** C7, amended.  For every flat map of strings whose keys are in lower
    case, serialising it to JSON and applying [parse_version_json] to the
    text returns the map unchanged: this holds for every decoder and every
    text that the decoder reads as that map, and in particular for the
    reference encoder and decoder. *)
Theorem C7_flat_roundtrip_lowercase (m : dict string) :
  dict_wf m ->
  lowercase_keys m = true ->
  (forall (json_loads : string -> pyresult value) (text : string),
      json_loads text = Ok (Obj (flat m)) ->
      parse_version_json json_loads text = Ok (flat m))
  /\ parse_version_json Json.loads (dumps_flat m) = Ok (flat m).
Proof.
  intros Hwf Hlow.
  assert (H : forall (json_loads : string -> pyresult value) (text : string),
             json_loads text = Ok (Obj (flat m)) ->
             parse_version_json json_loads text = Ok (flat m)).
  { intros json_loads text H. unfold parse_version_json. rewrite H.
    rewrite item_fold_flat; auto. }
  split; [exact H|]. apply H. now apply loads_dumps_flat.
Qed.

Lemma C7_flat_roundtrip_lowercase_witness :
  let m := [("appcd", "v2025.7.10"); ("iac-gen", "v0.52.6"); ("ui", "")] in
  dict_wf m
  /\ lowercase_keys m = true
  /\ parse_version_json Json.loads (dumps_flat m) = Ok (flat m).
Proof.
  intros m.
  assert (Hwf : dict_wf m).
  { unfold dict_wf. simpl. repeat constructor; simpl; intuition discriminate. }
  split; [exact Hwf|]. split; [reflexivity|].
  apply (C7_flat_roundtrip_lowercase m Hwf). reflexivity.
Defined.
End VersionJsonClaims.

(* ================================================================== *)
(** * Further properties *)

(* ================================================================== *)
(** ** Reconciliation and classification, continued *)

Section ReconciliationMore.
Import ServiceMapper VersionComparator.

Lemma prefix_append (p s : string) : String.prefix p (String.append p s) = true.
Proof.
  induction p as [|c p IH]; simpl; [now destruct s|].
  destruct (ascii_dec c c); [exact IH | congruence].
Qed.

Lemma keys_dict_set_In {V : Type} (d : dict V) (k k' : string) (v : V) :
  In k (keys (dict_set d k' v)) <-> k = k' \/ In k (keys d).
Proof.
  rewrite keys_dict_set. destruct (dict_mem d k') eqn:E.
  - split; auto. intros [->|H]; auto. now apply dict_mem_In.
  - rewrite in_app_iff. simpl. intuition congruence.
Qed.

Lemma env_fold_keys dep env : forall u k,
  In k (keys (fold_left (env_step dep) env u)) <-> In k (keys u) \/ In k (keys env).
Proof.
  induction env as [|[e v] env IH]; intros u k; simpl; [tauto|].
  rewrite IH. unfold env_step.
  destruct (map_env_to_deployed e); rewrite keys_dict_set_In; intuition congruence.
Qed.

Lemma deployed_fold_keys mapped dep : forall u k,
  In k (keys (fold_left (deployed_step mapped) dep u))
  <-> In k (keys u)
      \/ In k (map (String.append "deployed_only_")
                   (filter (fun d => negb (set_mem string_dec d mapped)) (keys dep))).
Proof.
  induction dep as [|[d v] dep IH]; intros u k; simpl; [tauto|].
  rewrite IH. unfold deployed_step.
  destruct (negb (set_mem string_dec d mapped)); simpl.
  - rewrite keys_dict_set_In. intuition congruence.
  - tauto.
Qed.

Lemma filter_ext_referenced env l :
  filter (fun d => negb (set_mem string_dec d
            (fold_left mapped_step (keys env) (empty_set string)))) l
  = filter (fun d => negb (referenced env d)) l.
Proof. apply filter_ext. intros d. now rewrite mapped_referenced. Qed.

Lemma length_dict_set {V : Type} (d : dict V) (k : string) (v : V) :
  length (dict_set d k v) <= S (length d).
Proof.
  induction d as [|[k' v'] d IH]; simpl; auto.
  destruct (String.eqb k' k); simpl; lia.
Qed.

Lemma env_fold_length dep env : forall u,
  length (fold_left (env_step dep) env u) <= length u + length env.
Proof.
  induction env as [|[e v] env IH]; intros u; simpl; [lia|].
  etransitivity; [apply IH|]. unfold env_step.
  destruct (map_env_to_deployed e);
    match goal with |- context [dict_set ?d ?k ?x] =>
      pose proof (length_dict_set d k x) end; lia.
Qed.

Lemma deployed_fold_length mapped dep : forall u,
  length (fold_left (deployed_step mapped) dep u) <= length u + length dep.
Proof.
  induction dep as [|[d v] dep IH]; intros u; simpl; [lia|].
  etransitivity; [apply IH|]. unfold deployed_step.
  destruct (negb (set_mem string_dec d mapped)); [|lia].
  match goal with |- context [dict_set ?d ?k ?x] =>
    pose proof (length_dict_set d k x) end; lia.
Qed.

(** X1. The keys of the unified comparison are the env keys and the
    synthetic keys [deployed_only_d] of the deployed services [d] that no env
    key refers to, and nothing else; it has no repeated key and at most as
    many records as the two maps have entries. *)
Theorem unified_keys (env deployed : dict string) :
  let unified := create_unified_comparison env deployed in
  (forall k, In k (keys unified)
             <-> In k (keys env) \/ In k (deployed_only_keys env deployed))
  /\ dict_wf unified
  /\ length unified <= length env + length deployed.
Proof.
  intros unified. split; [|split].
  - intros k. unfold unified, create_unified_comparison.
    rewrite deployed_fold_keys, env_fold_keys, filter_ext_referenced.
    unfold deployed_only_keys. simpl. tauto.
  - apply unified_wf.
  - unfold unified, create_unified_comparison.
    etransitivity; [apply deployed_fold_length|].
    pose proof (env_fold_length deployed env []). simpl in *. lia.
Qed.

(** X2. An env key that does not start with [deployed_only_] keeps, in the
    unified comparison, the record the first loop built for it: its own
    version and name, the mapped deployed name and the version the deployed
    map holds under that name (absent when there is no mapped name or the
    deployed map lacks it). *)
Theorem unified_env_lookup (env deployed : dict string) (e v : string) :
  dict_wf env ->
  In (e, v) env ->
  String.prefix "deployed_only_" e = false ->
  dict_get (create_unified_comparison env deployed) e
  = Some (env_record deployed e v).
Proof.
  intros Hwf Hin Hpre. unfold create_unified_comparison.
  rewrite deployed_fold_keep.
  - apply (env_fold_get deployed env [] e v Hwf Hin).
  - intros d _ _ Heq. subst e. now rewrite prefix_append in Hpre.
Qed.

Lemma unified_env_lookup_witness :
  let env := [("appcd", "v0.65.4"); ("llm_gateway", "v0.6.3"); ("iacgen", "v1")] in
  let deployed := [("appcd", "v2025.7.10"); ("exporter", "v0.9.9")] in
  dict_wf env
  /\ In ("iacgen", "v1") env
  /\ String.prefix "deployed_only_" "iacgen" = false
  /\ dict_get (create_unified_comparison env deployed) "iacgen"
     = Some (mkComparison (Some "v1") None (Some "iacgen") (Some "iac-gen")).
Proof.
  intros env deployed.
  assert (Hwf : dict_wf env).
  { unfold dict_wf. simpl. repeat constructor; simpl; intuition discriminate. }
  split; [exact Hwf|]. split; [simpl; auto|]. split; [reflexivity|].
  apply (unified_env_lookup env deployed "iacgen" "v1" Hwf); [simpl; auto|reflexivity].
Defined.

Lemma has_differences_unmatched (l : dict comparison) :
  Forall (fun kv => is_deployed_only (snd kv) && is_env_only (snd kv) = false) l ->
  negb (is_empty (filter (fun kv => is_differing (snd kv)) l))
  || negb (is_empty (filter (fun kv => is_env_only (snd kv)) l))
  || negb (is_empty (filter (fun kv => is_deployed_only (snd kv)) l))
  = negb (forallb (fun kv => is_matched (snd kv)) l).
Proof.
  induction 1 as [|[k r] l Hr Hl IH]; [reflexivity|].
  simpl in *. pose proof (count_classes r Hr) as Hc.
  unfold count_true in Hc. simpl in Hc.
  destruct (is_matched r), (is_differing r), (is_env_only r),
    (is_deployed_only r); simpl in *; try discriminate; auto;
    rewrite ?orb_true_r; auto.
Qed.

Lemma in_sync_matched (env deployed : dict string) :
  dict_wf env -> dict_wf deployed ->
  forallb (fun kv => is_matched (snd kv)) (create_unified_comparison env deployed)
  = in_sync env deployed.
Proof.
  intros Hwe Hwd. apply eq_true_iff_eq. unfold in_sync.
  rewrite andb_true_iff, !forallb_forall. split.
  - intros Hall.
    assert (Href : forall d, In d (keys deployed) -> referenced env d = true).
    { intros d Hd. destruct (referenced env d) eqn:E; auto.
      unfold keys in Hd. apply in_map_iff in Hd.
      destruct Hd as ([d' v] & Heq & Hin). simpl in Heq. subst d'.
      assert (G : dict_get (create_unified_comparison env deployed)
                           (String.append "deployed_only_" d)
                  = Some (mkComparison None (Some v) None (Some d))).
      { unfold create_unified_comparison. apply deployed_fold_get; auto.
        now rewrite mapped_referenced. }
      apply dict_get_In in G. apply Hall in G. discriminate G. }
    split; auto. intros [e v] Hin. simpl.
    assert (G : dict_get (create_unified_comparison env deployed) e
                = Some (env_record deployed e v)).
    { unfold create_unified_comparison. rewrite deployed_fold_keep.
      - apply (env_fold_get deployed env [] e v Hwe Hin).
      - intros d Hd Hm. rewrite mapped_referenced, (Href d Hd) in Hm.
        discriminate. }
    apply dict_get_In in G. apply Hall in G.
    unfold is_matched, env_record in G. simpl in G.
    destruct (map_env_to_deployed e); [|discriminate].
    destruct (dict_get deployed s); [exact G | discriminate].
  - intros [Henv Href] [k r] Hin. simpl.
    unfold create_unified_comparison in Hin. apply deployed_fold_In in Hin.
    destruct Hin as [Hin|(d & v & Hd & Hm & _)].
    + apply env_fold_In in Hin. destruct Hin as [[]|(v & Hin & ->)].
      specialize (Henv _ Hin). simpl in Henv. unfold is_matched. simpl.
      destruct (map_env_to_deployed k); [|discriminate].
      destruct (dict_get deployed s); [exact Henv | discriminate].
    + rewrite mapped_referenced in Hm.
      rewrite (Href d) in Hm; [discriminate|].
      change d with (fst (d, v)). now apply in_map.
Qed.

(** X3. For well-formed maps, [compare_versions] reports no difference
    exactly when every env service is mapped to a deployed service holding
    the same version and every deployed service is the mapped name of some
    env service. *)
Theorem has_differences_in_sync (env deployed : dict string) :
  dict_wf env ->
  dict_wf deployed ->
  snd (compare_versions deployed env) = negb (in_sync env deployed).
Proof.
  intros Hwe Hwd. rewrite has_differences_nonempty, compare_versions_buckets.
  cbv zeta. simpl differences. simpl env_only. simpl deployed_only.
  rewrite has_differences_unmatched by apply unified_has_version.
  now rewrite in_sync_matched.
Qed.

Lemma has_differences_in_sync_witness :
  let env := [("iacgen", "v0.52.6"); ("appcdui", "v0.17.3")] in
  let deployed := [("ui", "v0.17.3"); ("iac-gen", "v0.52.6")] in
  dict_wf env /\ dict_wf deployed
  /\ in_sync env deployed = true
  /\ snd (compare_versions deployed env) = false
  /\ snd (compare_versions (("vault", "v1") :: deployed) env) = true.
Proof.
  intros env deployed.
  assert (Hwe : dict_wf env).
  { unfold dict_wf. simpl. repeat constructor; simpl; intuition discriminate. }
  assert (Hwd : dict_wf deployed).
  { unfold dict_wf. simpl. repeat constructor; simpl; intuition discriminate. }
  assert (Hwd' : dict_wf (("vault", "v1") :: deployed)).
  { unfold dict_wf. simpl. repeat constructor; simpl; intuition discriminate. }
  split; [exact Hwe|]. split; [exact Hwd|]. split; [reflexivity|]. split.
  - rewrite (has_differences_in_sync env deployed Hwe Hwd). reflexivity.
  - rewrite (has_differences_in_sync env _ Hwe Hwd'). reflexivity.
Defined.
End ReconciliationMore.

(* ================================================================== *)
(** ** Lower case *)

Section LowerFacts.
Import PyStr.

Lemma lower_char_idem (c : ascii) : lower_char (lower_char c) = lower_char c.
Proof. destruct c as [[] [] [] [] [] [] [] []]; reflexivity. Qed.

Lemma lower_idem (s : string) : lower (lower s) = lower s.
Proof. induction s; simpl; [reflexivity|]. now rewrite lower_char_idem, IHs. Qed.

Lemma isword_lower_char (c : ascii) : isword (lower_char c) = isword c.
Proof. destruct c as [[] [] [] [] [] [] [] []]; reflexivity. Qed.

Lemma all_isword_lower (s : string) : all isword (lower s) = all isword s.
Proof. induction s; simpl; [reflexivity|]. now rewrite isword_lower_char, IHs. Qed.

Lemma truthy_lower (s : string) : truthy (lower s) = truthy s.
Proof. now destruct s. Qed.

Lemma lower_append (a b : string) :
  lower (String.append a b) = String.append (lower a) (lower b).
Proof. induction a; simpl; [reflexivity|]. now rewrite IHa. Qed.
End LowerFacts.

Section MapperMore.
Import ServiceMapper.

(** X4. [map_env_to_deployed] is the plain table lookup of the name in
    lower case: the fallback to the env name is never taken, since every
    name of the table is non-empty; and the case of the env name does not
    matter. *)
Theorem map_env_to_deployed_lookup (e : string) :
  map_env_to_deployed e = mapping_get (PyStr.lower e)
  /\ map_env_to_deployed (PyStr.lower e) = map_env_to_deployed e.
Proof.
  assert (H : forall x, map_env_to_deployed x = mapping_get (PyStr.lower x)).
  { intros x. unfold map_env_to_deployed.
    destruct (mapping_get (PyStr.lower x)) as [m|] eqn:E; auto.
    now rewrite (mapping_get_truthy _ _ E). }
  split; [apply H|]. now rewrite !H, lower_idem.
Qed.
End MapperMore.

(* ================================================================== *)
(** ** [parse_env_content], continued *)

Section EnvParserMore.
Import Re VersionComparator.

(** A literal word consumes a text of its length that is equal to it, up to
    case when case is ignored, and captures nothing. *)
Lemma mrel_lits ic (w : string) : forall s cs s' cs',
  mrel ic (lits w) s cs s' cs' ->
  exists x, s = String.append x s' /\ cs' = cs
            /\ String.length x = String.length w
            /\ (ic = true -> PyStr.lower x = PyStr.lower w).
Proof.
  induction w as [|c w IH]; intros s cs s' cs' M; simpl in M.
  - inversion M; subst. exists EmptyString. auto.
  - inversion M as [| | |? ? ? ? s1 cs1 ? ? M1 M2| | | |]; subst.
    inversion M1 as [|? c' ? ? Hc| | | | | |]; subst.
    apply IH in M2. destruct M2 as (x & -> & -> & Hlen & Hlow).
    exists (String c' x). simpl. repeat split; auto.
    intros ->. rewrite Hlow by reflexivity.
    unfold char_eq in Hc. apply Ascii.eqb_eq in Hc. now rewrite Hc.
Qed.

Lemma lits_word ic (w : string) s cs s' cs' :
  PyStr.all PyStr.isword w = true -> PyStr.truthy w = true -> ic = true ->
  mrel ic (lits w) s cs s' cs' ->
  let g := PyStr.take (String.length s - String.length s') s in
  PyStr.truthy g = true /\ PyStr.all PyStr.isword g = true.
Proof.
  intros Hw Ht Hic M. apply mrel_lits in M.
  destruct M as (x & -> & _ & Hlen & Hlow). cbv zeta. rewrite take_append.
  split.
  - destruct x, w; simpl in *; auto; discriminate.
  - rewrite <- all_isword_lower, (Hlow Hic), all_isword_lower. exact Hw.
Qed.

(** Group 1 of every pattern is a non-empty word. *)
Lemma env_pattern_group1 p l m :
  In p version_patterns -> re_match true p l = Some m ->
  exists g1, group m 1 = Some g1
             /\ PyStr.truthy g1 = true /\ PyStr.all PyStr.isword g1 = true.
Proof.
  intros Hin Hm. apply re_match_sound in Hm. unfold group.
  assert (S1 : sets p 1 = true).
  { unfold version_patterns in Hin. simpl in Hin.
    destruct Hin as [<-|[<-|[<-|[<-|[<-|[]]]]]]; reflexivity. }
  pose proof (mrel_sets _ _ _ _ _ _ Hm 1 (or_introl S1)) as G1.
  destruct (mrel_caps _ _ _ _ _ _ Hm 1)
    as [E|(body & s0 & cs0 & s1 & cs1 & Hb & M & Hg)].
  { simpl in E. congruence. }
  exists (PyStr.take (String.length s0 - String.length s1) s0).
  split; [exact Hg|].
  assert (Hbody : body = Rep PyStr.isword 1 None
                  \/ body = alts [ lits "SGAI_ORCHESTRATION";
                                   lits "STACKGEN_NOTIFICATIONS";
                                   lits "APPCD_ANALYZER"; lits "SGAI_KNOWLEDGE";
                                   lits "SGAI_CONTROL" ]).
  { unfold version_patterns in Hin. simpl in Hin.
    destruct Hin as [<-|[<-|[<-|[<-|[<-|[]]]]]]; cbn in Hb;
      repeat (destruct Hb as [Hb|Hb];
              [injection Hb as <-; auto; fail | try congruence]);
      try (destruct Hb as [Hb|Hb]; [congruence|]); try contradiction;
      try (injection Hb as <-; auto). }
  destruct Hbody as [->| ->].
  - inversion M; subst. rewrite take_append. split.
    + destruct w; simpl in *; [lia | auto].
    + assumption.
  - cbn [alts] in M.
    repeat match goal with
           | H : mrel _ (Alt _ _) _ _ _ _ |- _ => inversion H; subst; clear H
           end;
      match goal with
      | H : mrel _ _ _ _ _ _ |- _ =>
          first
            [ exact (lits_word true "SGAI_ORCHESTRATION" _ _ _ _
                       eq_refl eq_refl eq_refl H)
            | exact (lits_word true "STACKGEN_NOTIFICATIONS" _ _ _ _
                       eq_refl eq_refl eq_refl H)
            | exact (lits_word true "APPCD_ANALYZER" _ _ _ _
                       eq_refl eq_refl eq_refl H)
            | exact (lits_word true "SGAI_KNOWLEDGE" _ _ _ _
                       eq_refl eq_refl eq_refl H)
            | exact (lits_word true "SGAI_CONTROL" _ _ _ _
                       eq_refl eq_refl eq_refl H) ]
      end.
Qed.

Lemma forallb_dict_set {V : Type} (P : string * V -> bool) (d : dict V) k v :
  forallb P d = true -> P (k, v) = true -> forallb P (dict_set d k v) = true.
Proof.
  intros Hd Hv. apply forallb_forall. intros [k' v'] Hin.
  apply In_dict_set in Hin. destruct Hin as [[-> ->]|Hin]; auto.
  rewrite forallb_forall in Hd. auto.
Qed.

Lemma for_patterns_clean ps : forall l versions,
  (forall p, In p ps -> In p version_patterns) ->
  dict_wf versions -> forallb clean_entry versions = true ->
  exists versions', for_patterns ps l versions = Ok versions'
                    /\ dict_wf versions' /\ forallb clean_entry versions' = true.
Proof.
  induction ps as [|p ps IH]; intros l versions Hsub Hwf Hc; simpl; [eauto|].
  assert (Hrest : forall q, In q ps -> In q version_patterns)
    by (intros q Hq; apply Hsub; simpl; auto).
  assert (Hp : In p version_patterns) by (apply Hsub; simpl; auto).
  destruct (re_match true p l) as [m|] eqn:Hm; [|auto].
  rewrite (ngroups_two p Hp). simpl.
  destruct (env_pattern_group1 p l m Hp Hm) as (g1 & G1 & Ht1 & Hw1).
  destruct (env_pattern_groups p l m Hp Hm) as (g1' & g2 & G1' & G2 & Hv2 & Ht2).
  rewrite G1, G2. simpl.
  rewrite (strip_id g2) by (apply isvalue_not_space, Hv2).
  eexists. split; [reflexivity|]. split; [now apply dict_wf_set|].
  apply forallb_dict_set; auto. unfold clean_entry. simpl.
  rewrite lower_idem, String.eqb_refl, truthy_lower, all_isword_lower.
  now rewrite Ht1, Hw1, Ht2, Hv2.
Qed.

Lemma for_lines_clean lines : forall versions,
  dict_wf versions -> forallb clean_entry versions = true ->
  exists versions', for_lines lines versions = Ok versions'
                    /\ dict_wf versions' /\ forallb clean_entry versions' = true.
Proof.
  induction lines as [|line lines IH]; intros versions Hwf Hc; simpl; [eauto|].
  assert (Hstep : exists v', line_step versions line = Ok v'
                             /\ dict_wf v' /\ forallb clean_entry v' = true).
  { unfold line_step. destruct (negb _ || _); [eauto|].
    apply for_patterns_clean; auto. }
  destruct Hstep as (v' & -> & Hwf' & Hc'). simpl. now apply IH.
Qed.

(** X5. For every text over code points 0..255, the map
    [parse_env_content] returns has no repeated key; every key is non-empty,
    made of word characters and in lower case, and every value is non-empty
    and holds no white space and no quote.  The bound on the code points is
    part of the statement: beyond it [str.lower] can turn a word character
    into one that is none (U+0130 becomes i followed by U+0307), so nothing
    is said here about keys read from such texts. *)
Theorem parse_env_entries_clean (text : string) :
  exists versions,
    parse_env_content text = Ok versions
    /\ dict_wf versions
    /\ forallb clean_entry versions = true.
Proof. apply for_lines_clean; [constructor | reflexivity]. Qed.

Lemma split_nl_nonempty (s : string) : PyStr.split_nl s <> [].
Proof.
  destruct s as [|c s]; simpl; [discriminate|].
  destruct (PyStr.code c =? 10); [discriminate|].
  destruct (PyStr.split_nl s); discriminate.
Qed.

Lemma split_nl_append (a b : string) :
  PyStr.split_nl (String.append a (String "010"%char b))
  = PyStr.split_nl a ++ PyStr.split_nl b.
Proof.
  induction a as [|c a IH]; [reflexivity|].
  simpl. rewrite IH. destruct (PyStr.code c =? 10); [reflexivity|].
  pose proof (split_nl_nonempty a). destruct (PyStr.split_nl a); [congruence|].
  reflexivity.
Qed.

(** X6. Parsing two texts joined by a line feed is parsing the second one
    on top of the map obtained from the first: entries of the second text
    overwrite those of the first under the same key and the others are
    added after them. *)
Theorem parse_env_concat (a b : string) :
  parse_env_content (String.append a (String.append nl b))
  = (versions <- parse_env_content a ;;
     for_lines (PyStr.split_nl b) versions).
Proof.
  unfold parse_env_content, nl. simpl String.append.
  now rewrite split_nl_append, for_lines_app.
Qed.
End EnvParserMore.

(** * A well-formed [NAME_VERSION] line *)

Section VersionLine.
Import PyStr Re VersionComparator.

Lemma rep_greedy_exact {R : Type} (p : ascii -> bool) (w : string) :
  forall lo hi T (k : string -> option R) r,
  PyStr.all p w = true -> lo <= String.length w ->
  within hi (String.length w) ->
  (hi = Some (String.length w) \/ PyStr.all p (PyStr.take 1 T) = false
   \/ T = EmptyString) ->
  k T = Some r ->
  rep_greedy p lo hi (String.append w T) k = Some r.
Proof.
  induction w as [|c w IH]; intros lo hi T k r Hw Hlo Hhi Hstop Hk.
  - simpl in *. assert (lo = 0) by lia. subst lo.
    destruct T as [|c T]; simpl; [exact Hk|].
    destruct Hstop as [->|[Hc|Hc]]; simpl in *.
    + now rewrite andb_false_r.
    + rewrite andb_true_r in Hc. now rewrite Hc.
    + discriminate.
  - simpl in *. apply andb_true_iff in Hw. destruct Hw as [Hc Hw].
    assert (Hmore : more hi = true).
    { destruct hi as [h|]; simpl in *; auto. apply Nat.ltb_lt. lia. }
    rewrite Hc, Hmore. simpl.
    rewrite (IH (pred lo) (option_map pred hi) T k r); auto.
    + lia.
    + destruct hi as [h|]; simpl in *; auto. lia.
    + destruct Hstop as [->|H]; auto.
Qed.

Lemma rep_greedy_prefix {R : Type} (p : ascii -> bool) (w : string) :
  forall lo T (k : string -> option R) r,
  PyStr.all p w = true ->
  rep_greedy p (lo - String.length w) None T k = Some r ->
  rep_greedy p lo None (String.append w T) k = Some r.
Proof.
  induction w as [|c w IH]; intros lo T k r Hw H.
  - simpl in *. now rewrite Nat.sub_0_r in H.
  - simpl in *. apply andb_true_iff in Hw. destruct Hw as [Hc Hw].
    rewrite Hc. simpl. rewrite (IH (pred lo) T k r); auto.
    replace (pred lo - String.length w) with (lo - S (String.length w)) by lia.
    exact H.
Qed.

Lemma isword_not_space c : isword c = true -> isspace c = false.
Proof.
  destruct c as [[] [] [] [] [] [] [] []]; vm_compute; congruence.
Qed.

Lemma isspace_not_word c : isspace c = true -> isword c = false.
Proof.
  intros H. destruct (isword c) eqn:E; auto.
  apply isword_not_space in E. congruence.
Qed.

Lemma isspace_not_underscore c :
  isspace c = true -> char_eq true "_" c = false.
Proof.
  destruct c as [[] [] [] [] [] [] [] []]; vm_compute; congruence.
Qed.

Lemma isblank_space s : all isblank s = true -> all isspace s = true.
Proof.
  apply all_impl. intros c. unfold isblank. rewrite andb_true_iff. tauto.
Qed.

Lemma rstrip_append (x y : string) :
  rstrip y = y -> y <> EmptyString ->
  rstrip (String.append x y) = String.append x y.
Proof.
  intros Hy Hne. induction x as [|c x IH]; simpl; auto.
  rewrite IH. destruct (String.append x y) eqn:E; auto.
  destruct x; simpl in E; congruence.
Qed.

Lemma split_nl_line (s : string) :
  all (fun c => negb (code c =? 10)) s = true -> split_nl s = [s].
Proof.
  induction s as [|c s IH]; simpl; auto.
  rewrite andb_true_iff. intros [Hc Hs]. rewrite (IH Hs).
  apply negb_true_iff in Hc. now rewrite Hc.
Qed.

Lemma opt_quote_cases q :
  opt_quote q = true ->
  q = EmptyString \/ exists c, q = String c EmptyString /\ isquote c = true.
Proof.
  destruct q as [|c [|]]; simpl; eauto; discriminate.
Qed.

Lemma isquote_facts c :
  isquote c = true -> isspace c = false /\ isvalue c = false.
Proof.
  destruct c as [[] [] [] [] [] [] [] []]; vm_compute; intuition congruence.
Qed.

Lemma isvalue_facts c :
  isvalue c = true -> isspace c = false /\ isquote c = false.
Proof.
  unfold isvalue. rewrite negb_true_iff, orb_false_iff. tauto.
Qed.

Lemma assignment_tail_match {R : Type} (ws1 ws2 q1 value q2 : string)
    (cs : captures) (k : string -> captures -> option R) (r : R) :
  all isspace ws1 = true -> all isspace ws2 = true ->
  opt_quote q1 = true -> opt_quote q2 = true ->
  truthy value = true -> all isvalue value = true ->
  k EmptyString ((2, value) :: cs) = Some r ->
  rmatch true assignment_tail
    (String.append ws1
       (String "=" (String.append ws2
                      (String.append q1 (String.append value q2)))))
    cs k = Some r.
Proof.
  intros H1 H2 Hq1 Hq2 Hne Hv Hk.
  destruct value as [|v value]; [discriminate|].
  simpl in Hv. apply andb_true_iff in Hv. destruct Hv as [Hv0 Hv].
  destruct (isvalue_facts _ Hv0) as [Hvs Hvq].
  unfold assignment_tail. cbn [seq fold_right rmatch].
  apply rep_greedy_exact; auto; [lia|exact I|].
  cbn [char_eq lower_char]. 
  change (char_eq true "=" "=") with true. cbv iota.
  apply rep_greedy_exact; auto; [lia|exact I| |].
  { right. left.
    destruct (opt_quote_cases _ Hq1) as [->|[c [-> Hc]]]; simpl.
    - now rewrite Hvs.
    - destruct (isquote_facts _ Hc) as [-> _]. reflexivity. }
  apply rep_greedy_exact.
  { destruct (opt_quote_cases _ Hq1) as [->|[c [-> Hc]]]; simpl; auto.
    now rewrite Hc. }
  { lia. }
  { destruct (opt_quote_cases _ Hq1) as [->|[c [-> Hc]]]; simpl; lia. }
  { destruct (opt_quote_cases _ Hq1) as [->|[c [-> Hc]]]; simpl; auto.
    right. left. now rewrite Hvq. }
  change (String v (String.append value q2))
    with (String.append (String v value) q2).
  apply rep_greedy_exact.
  { simpl. now rewrite Hv0, Hv. }
  { simpl. lia. }
  { exact I. }
  { destruct (opt_quote_cases _ Hq2) as [->|[c [-> Hc]]]; simpl; auto.
    right. left. destruct (isquote_facts _ Hc) as [_ ->]. reflexivity. }
  rewrite take_append.
  rewrite <- (append_nil_r q2) at 1.
  apply rep_greedy_exact; auto.
  { destruct (opt_quote_cases _ Hq2) as [->|[c [-> Hc]]]; simpl; auto.
    now rewrite Hc. }
  { lia. }
  { destruct (opt_quote_cases _ Hq2) as [->|[c [-> Hc]]]; simpl; lia. }
Qed.

Lemma suffix_version_match (name ws1 ws2 q1 value q2 : string) :
  truthy name = true -> all isword name = true ->
  all isspace ws1 = true -> all isspace ws2 = true ->
  opt_quote q1 = true -> opt_quote q2 = true ->
  truthy value = true -> all isvalue value = true ->
  re_match true pattern_suffix_version
    (version_line name ws1 ws2 q1 value q2)
  = Some (mkMatch [(2, value); (1, name)] EmptyString).
Proof.
  intros Hn Hw H1 H2 Hq1 Hq2 Hne Hv.
  unfold re_match, pattern_suffix_version, version_line.
  change (seq (Grp 1 (Rep isword 1 None) :: lits "_VERSION" :: ?l))
    with (Seq (Grp 1 (Rep isword 1 None)) (Seq (lits "_VERSION") assignment_tail)).
  set (T := String.append ws1 _).
  set (line := String.append name _).
  cbn [rmatch].
  set (kk := fun s' : string => _).
  unfold line. apply rep_greedy_prefix; auto.
  replace (1 - String.length name) with 0
    by (destruct name; [discriminate | simpl; lia]).
  assert (Hhead : isword match T with String c _ => c | EmptyString => "="%char end = false
                  /\ kk T = None /\ T <> EmptyString).
  { unfold T, kk. destruct ws1 as [|c ws1]; cbn [String.append].
    - repeat split; congruence.
    - simpl in H1. apply andb_true_iff in H1. destruct H1 as [Hc _].
      rewrite (isspace_not_word _ Hc).
      cbn [lits rmatch]. rewrite (isspace_not_underscore _ Hc).
      repeat split; congruence. }
  destruct Hhead as [Hh [HkT HT]].
  assert (Hrun : rep_greedy isword 0 None T kk = None).
  { destruct T as [|c T']; [congruence|]. simpl. rewrite Hh. simpl. exact HkT. }
  assert (Hok : kk (String.append "_VERSION" T)
                = Some (mkMatch [(2, value); (1, name)] EmptyString)).
  { unfold kk, line. rewrite take_append. unfold T.
    cbn [lits rmatch String.append].
    change (char_eq true "_" "_") with true.
    change (char_eq true "V" "V") with true.
    change (char_eq true "E" "E") with true.
    change (char_eq true "R" "R") with true.
    change (char_eq true "S" "S") with true.
    change (char_eq true "I" "I") with true.
    change (char_eq true "O" "O") with true.
    change (char_eq true "N" "N") with true.
    cbv iota.
    now apply assignment_tail_match. }
  assert (Hfail : kk (String.append "VERSION" T) = None
                  /\ kk (String.append "ERSION" T) = None
                  /\ kk (String.append "RSION" T) = None
                  /\ kk (String.append "SION" T) = None
                  /\ kk (String.append "ION" T) = None
                  /\ kk (String.append "ON" T) = None
                  /\ kk (String.append "N" T) = None).
  { unfold kk. repeat split; reflexivity. }
  destruct Hfail as (F1 & F2 & F3 & F4 & F5 & F6 & F7).
  clearbody kk. clearbody T. clear Hh HkT.
  simpl in *. rewrite Hrun, F7, F6, F5, F4, F3, F2, F1. exact Hok.
Qed.

Lemma version_line_strip (name ws1 ws2 q1 value q2 : string) :
  truthy name = true -> all isword name = true ->
  opt_quote q2 = true ->
  truthy value = true -> all isvalue value = true ->
  strip (version_line name ws1 ws2 q1 value q2)
  = version_line name ws1 ws2 q1 value q2.
Proof.
  intros Hn Hw Hq2 Hne Hv. unfold strip, version_line.
  assert (Hl : forall t, lstrip (String.append name t) = String.append name t).
  { intros t. destruct name as [|c name]; [discriminate|]. simpl in *.
    apply andb_true_iff in Hw. destruct Hw as [Hc _].
    now rewrite (isword_not_space _ Hc). }
  rewrite Hl.
  assert (Hr : rstrip (String.append value q2) = String.append value q2
               /\ String.append value q2 <> EmptyString).
  { split; [|destruct value; [discriminate | simpl; congruence]].
    destruct (opt_quote_cases _ Hq2) as [->|[c [-> Hc]]].
    - rewrite append_nil_r. now apply rstrip_id, isvalue_not_space.
    - apply rstrip_append; [|congruence]. simpl.
      destruct (isquote_facts _ Hc) as [-> _]. reflexivity. }
  assert (Hstep : forall x y, rstrip y = y /\ y <> EmptyString ->
                   rstrip (String.append x y) = String.append x y
                   /\ String.append x y <> EmptyString).
  { intros x y [Hy Hy']. split; [now apply rstrip_append|].
    destruct x; simpl; congruence. }
  change (String "=" (String.append ws2 ?t))
    with (String.append "=" (String.append ws2 t)).
  refine (proj1 (Hstep _ _ _)). do 5 apply Hstep. exact Hr.
Qed.

Lemma version_line_one_line (name ws1 ws2 q1 value q2 : string) :
  all isword name = true ->
  all isblank ws1 = true -> all isblank ws2 = true ->
  opt_quote q1 = true -> opt_quote q2 = true ->
  all isvalue value = true ->
  split_nl (version_line name ws1 ws2 q1 value q2)
  = [version_line name ws1 ws2 q1 value q2].
Proof.
  intros Hw H1 H2 Hq1 Hq2 Hv. apply split_nl_line.
  assert (Hb : forall s, all isblank s = true ->
                         all (fun c => negb (code c =? 10)) s = true).
  { intros s. apply all_impl. intros c. unfold isblank.
    rewrite andb_true_iff. tauto. }
  assert (Hwd : forall s, all isword s = true ->
                          all (fun c => negb (code c =? 10)) s = true).
  { intros s. apply all_impl. intros c.
    destruct c as [[] [] [] [] [] [] [] []]; vm_compute; congruence. }
  assert (Hva : forall s, all isvalue s = true ->
                          all (fun c => negb (code c =? 10)) s = true).
  { intros s. apply all_impl. intros c.
    destruct c as [[] [] [] [] [] [] [] []]; vm_compute; congruence. }
  assert (Hq : forall q, opt_quote q = true ->
                         all (fun c => negb (code c =? 10)) q = true).
  { intros q H. destruct (opt_quote_cases _ H) as [->|[c [-> Hc]]]; auto.
    simpl. rewrite andb_true_r. revert Hc.
    destruct c as [[] [] [] [] [] [] [] []]; vm_compute; congruence. }
  unfold version_line.
  change (String "=" (String.append ws2 ?t))
    with (String.append "=" (String.append ws2 t)).
  rewrite !all_append.
  rewrite (Hwd name), (Hb ws1), (Hb ws2), (Hq q1), (Hva value), (Hq q2)
    by assumption.
  reflexivity.
Qed.

Lemma version_line_step (versions : dict string)
    (name ws1 ws2 q1 value q2 : string) :
  truthy name = true -> all isword name = true ->
  all isspace ws1 = true -> all isspace ws2 = true ->
  opt_quote q1 = true -> opt_quote q2 = true ->
  truthy value = true -> all isvalue value = true ->
  line_step versions (version_line name ws1 ws2 q1 value q2)
  = Ok (dict_set versions (lower name) value).
Proof.
  intros Hn Hw H1 H2 Hq1 Hq2 Hne Hv.
  unfold line_step. cbv zeta.
  rewrite version_line_strip by assumption.
  assert (Hs : negb (truthy (version_line name ws1 ws2 q1 value q2))
               || startswith "#" (version_line name ws1 ws2 q1 value q2)
               = false).
  { unfold version_line. destruct name as [|c name]; [discriminate|].
    simpl in Hw. apply andb_true_iff in Hw. destruct Hw as [Hc _].
    revert Hc. simpl.
    destruct c as [[] [] [] [] [] [] [] []]; vm_compute; congruence. }
  rewrite Hs. unfold version_patterns. cbn [for_patterns].
  rewrite suffix_version_match by assumption.
  change (ngroups pattern_suffix_version =? 2) with true. cbv iota.
  unfold group. simpl.
  now rewrite strip_id by (now apply isvalue_not_space).
Qed.

(** X7. A line [NAME_VERSION=value], with optional blanks around the equals
    sign and optional quotes around the value, stores the value under the
    name in lower case: the first pattern matches it with the whole name as
    group 1, whatever the name holds.  Alone in a text, it gives the map
    with that one entry. *)
Theorem parse_version_line (versions : dict string)
    (name ws1 ws2 q1 value q2 : string) :
  truthy name = true -> all isword name = true ->
  all isblank ws1 = true -> all isblank ws2 = true ->
  opt_quote q1 = true -> opt_quote q2 = true ->
  truthy value = true -> all isvalue value = true ->
  line_step versions (version_line name ws1 ws2 q1 value q2)
  = Ok (dict_set versions (lower name) value)
  /\ parse_env_content (version_line name ws1 ws2 q1 value q2)
     = Ok [(lower name, value)].
Proof.
  intros Hn Hw H1 H2 Hq1 Hq2 Hne Hv.
  assert (Hstep : forall d, line_step d (version_line name ws1 ws2 q1 value q2)
                            = Ok (dict_set d (lower name) value)).
  { intros d. apply version_line_step; auto using isblank_space. }
  split; [apply Hstep|].
  unfold parse_env_content.
  rewrite version_line_one_line by assumption.
  simpl. now rewrite Hstep.
Qed.

Lemma parse_version_line_witness :
  line_step [("appcd", "v1")] "IACGEN_VERSION = 'v0.52.6'"
  = Ok [("appcd", "v1"); ("iacgen", "v0.52.6")]
  /\ parse_env_content "IACGEN_VERSION = 'v0.52.6'"
     = Ok [("iacgen", "v0.52.6")].
Proof.
  apply (parse_version_line [("appcd", "v1")]
           "IACGEN" " " " " "'" "v0.52.6" "'"); reflexivity.
Defined.

End VersionLine.

(** * More on [parse_version_json] *)

Section VersionJsonMore.
Import Json VersionComparator.

Lemma lower_keyed_set (d : dict value) (k : string) (v : value) :
  lower_keyed d -> PyStr.lower k = k -> lower_keyed (dict_set d k v).
Proof.
  intros [Hwf Hl] Hk. split; [now apply dict_wf_set|].
  apply Forall_forall. intros k' Hin. apply keys_dict_set_In in Hin.
  destruct Hin as [->|Hin]; auto.
  rewrite Forall_forall in Hl. auto.
Qed.

Lemma sub_fold_lower_keyed key sub : forall acc,
  lower_keyed acc -> lower_keyed (fold_left (sub_step key) sub acc).
Proof.
  induction sub as [|[sk sv] sub IH]; intros acc Hacc; simpl; auto.
  apply IH. destruct (_ && _); auto.
  apply lower_keyed_set; auto.
  change (String "_" (PyStr.lower sk))
    with (String.append "_" (PyStr.lower sk)).
  now rewrite !lower_append, !lower_idem.
Qed.

Lemma item_fold_lower_keyed items : forall acc,
  lower_keyed acc -> lower_keyed (fold_left item_step items acc).
Proof.
  induction items as [|[k v] items IH]; intros acc Hacc; simpl; auto.
  apply IH. destruct v; auto.
  - apply lower_keyed_set; auto using lower_idem.
  - destruct (dict_get items0 "version").
    + apply lower_keyed_set; auto using lower_idem.
    + now apply sub_fold_lower_keyed.
Qed.

(** X8. Whatever [json.loads] does on the text, the map that
    [parse_version_json] returns has distinct keys, all in lower case. *)
Theorem parse_version_json_keys
    (json_loads : string -> pyresult value) (text : string)
    (versions : dict value) :
  parse_version_json json_loads text = Ok versions ->
  dict_wf versions /\ Forall (fun k => PyStr.lower k = k) (keys versions).
Proof.
  unfold parse_version_json. intros H.
  assert (Hnil : lower_keyed []).
  { split; [constructor | constructor]. }
  destruct (json_loads text) as [data|e].
  - destruct data; injection H as <-; try exact Hnil.
    now apply item_fold_lower_keyed.
  - destruct e; try discriminate. injection H as <-.
    split; [|repeat constructor].
    constructor; [simpl; tauto | constructor].
Qed.

Lemma parse_version_json_keys_witness :
  let text := dumps_flat [("UI", "v1"); ("Iac-Gen", "v2"); ("ui", "v3")] in
  parse_version_json Json.loads text
  = Ok [("ui", Str "v3"); ("iac-gen", Str "v2")]
  /\ dict_wf [("ui", Str "v3"); ("iac-gen", Str "v2")]
  /\ Forall (fun k => PyStr.lower k = k) ["ui"; "iac-gen"].
Proof.
  intros text.
  assert (H : parse_version_json Json.loads text
              = Ok [("ui", Str "v3"); ("iac-gen", Str "v2")])
    by reflexivity.
  split; [exact H|].
  exact (parse_version_json_keys Json.loads text _ H).
Defined.

Lemma item_fold_flat_get (m : dict string) (k : string) : forall acc,
  dict_get (fold_left item_step (flat m) acc) k
  = match lookup_last_ci m k with
    | Some v => Some (Str v)
    | None => dict_get acc k
    end.
Proof.
  induction m as [|[k' v] m IH]; intros acc; simpl; auto.
  rewrite IH. destruct (lookup_last_ci m k); auto.
  destruct (String.eqb (PyStr.lower k') k) eqn:E.
  - apply String.eqb_eq in E. subst k. apply dict_get_set_eq.
  - apply String.eqb_neq in E. now apply dict_get_set_neq.
Qed.

(** X9. On a JSON object whose values are all strings, a service is found
    under its key in lower case; when two keys differ only in case, the
    entry holds the value of the last of them. *)
Theorem parse_version_json_last_wins
    (json_loads : string -> pyresult value) (text : string)
    (m : dict string) :
  json_loads text = Ok (Obj (flat m)) ->
  exists versions,
    parse_version_json json_loads text = Ok versions
    /\ forall k, dict_get versions k = option_map Str (lookup_last_ci m k).
Proof.
  intros H. unfold parse_version_json. rewrite H.
  eexists. split; [reflexivity|]. intros k.
  rewrite item_fold_flat_get. now destruct (lookup_last_ci m k).
Qed.

Lemma parse_version_json_last_wins_witness :
  let m := [("UI", "v1"); ("Iac-Gen", "v2"); ("ui", "v3")] in
  exists versions,
    parse_version_json Json.loads (dumps_flat m) = Ok versions
    /\ forall k, dict_get versions k = option_map Str (lookup_last_ci m k).
Proof.
  intros m.
  apply (parse_version_json_last_wins Json.loads (dumps_flat m) m).
  reflexivity.
Defined.

End VersionJsonMore.

(** * More on the ticket extractor *)

Section TicketsMore.
Import Re LinearTicketExtractor.

(** Membership in the extracted set, from the facts on [findall]. *)
Lemma extract_tickets_iff (text t : string) :
  In t (extract_tickets_from_text text) <-> is_ticket t /\ bracketed t text.
Proof.
  destruct (tickets_fold (findall ticket_pattern text) (empty_set string))
    as [_ Hin]; [constructor|].
  fold (extract_tickets_from_text text) in Hin. rewrite Hin. split.
  - intros [[]|H]. now apply findall_sound in H.
  - intros (Ht & before & after & ->). right.
    apply findall_complete; auto. lia.
Qed.

Lemma extract_tickets_NoDup (text : string) :
  NoDup (extract_tickets_from_text text).
Proof.
  destruct (tickets_fold (findall ticket_pattern text) (empty_set string))
    as [Hnd _]; [constructor | exact Hnd].
Qed.

Lemma bracketed_app (t a b : string) :
  bracketed t a \/ bracketed t b -> bracketed t (String.append a b).
Proof.
  intros [(before & after & ->)|(before & after & ->)].
  - exists before, (String.append after b).
    rewrite append_assoc. simpl. now rewrite append_assoc.
  - exists (String.append a before), after. now rewrite append_assoc.
Qed.

Lemma is_ticket_chars (t : string) :
  is_ticket t -> PyStr.all ticket_char t = true.
Proof.
  intros (p & n & -> & Hp & _ & Hn & _).
  change (String "-" n) with (String.append "-" n).
  rewrite !all_append.
  rewrite (all_impl PyStr.isupper_az ticket_char p), (all_impl PyStr.isdecimal ticket_char n);
    auto.
  - intros c H. unfold ticket_char. now rewrite H, orb_true_r.
  - intros c H. unfold ticket_char. now rewrite H.
Qed.

(** A word over a class, found where a text with a character outside the
    class begins, lies before that character. *)
Lemma prefix_before_sep (p : ascii -> bool) (w : string) : forall a c b after,
  String.append a (String c b) = String.append w after ->
  PyStr.all p w = true -> p c = false ->
  exists a', a = String.append w a'.
Proof.
  induction w as [|x w IH]; intros a c b after Heq Hw Hc; simpl in *.
  - now exists a.
  - apply andb_true_iff in Hw. destruct Hw as [Hx Hw].
    destruct a as [|y a]; simpl in Heq; injection Heq as -> Heq.
    + congruence.
    + destruct (IH _ _ _ _ Heq Hw Hc) as [a' ->]. now exists a'.
Qed.

Lemma bracketed_sep (t : string) (c : ascii) (b : string) : forall a,
  is_ticket t -> ticket_char c = false ->
  bracketed t (String.append a (String c b)) ->
  bracketed t a \/ bracketed t b.
Proof.
  intros a Ht Hc (before & after & Heq). revert a Heq.
  induction before as [|x before IH]; intros a Heq.
  - left. simpl in Heq.
    change (String "[" (String.append t (String "]" after)))
      with (String.append "[" (String.append t (String.append "]" after)))
      in Heq.
    rewrite <- !append_assoc in Heq.
    apply prefix_before_sep with (p := ticket_char) in Heq; auto.
    + destruct Heq as [a' ->]. exists EmptyString, a'.
      rewrite !append_assoc. reflexivity.
    + rewrite !all_append, (is_ticket_chars t Ht). reflexivity.
  - destruct a as [|y a]; simpl in Heq; injection Heq as -> Heq.
    + right. now exists before, after.
    + destruct (IH a Heq) as [(b1 & a1 & ->)|H]; auto.
      left. now exists (String x b1), a1.
Qed.

(** X10. The tickets of a text are kept when more text is put around it,
    and a character that no bracketed ticket is written with (a line feed,
    a blank) separates a text into parts that are searched independently:
    the tickets of the whole are those of the parts. *)
Theorem extract_tickets_parts (a b : string) (c : ascii) (t : string) :
  (In t (extract_tickets_from_text a) \/ In t (extract_tickets_from_text b) ->
   In t (extract_tickets_from_text (String.append a b)))
  /\ (ticket_char c = false ->
      (In t (extract_tickets_from_text (String.append a (String c b)))
       <-> In t (extract_tickets_from_text a)
           \/ In t (extract_tickets_from_text b))).
Proof.
  rewrite !extract_tickets_iff. split.
  - intros [[Ht H]|[Ht H]]; split; auto using bracketed_app.
  - intros Hc. split.
    + intros [Ht H]. apply bracketed_sep in H; tauto.
    + intros [[Ht H]|[Ht H]]; split; auto.
      * apply bracketed_app. now left.
      * apply bracketed_app. right.
        destruct H as (b1 & a1 & ->). now exists (String c b1), a1.
Qed.

Lemma extract_tickets_parts_witness :
  let a := "fix: login [AB-123]" in
  let b := "chore: bump [ABCD-4567] again" in
  ticket_char "010" = false
  /\ (In "ABCD-4567"
         (extract_tickets_from_text (String.append a (String "010" b)))
      <-> In "ABCD-4567" (extract_tickets_from_text a)
          \/ In "ABCD-4567" (extract_tickets_from_text b)).
Proof.
  intros a b. split; [reflexivity|].
  apply (extract_tickets_parts a b "010" "ABCD-4567"). reflexivity.
Defined.

End TicketsMore.

(** * Sorting and grouping tickets *)

Section SortedFacts.

Lemma leb_trans (a : string) : forall b c,
  String.leb a b = true -> String.leb b c = true -> String.leb a c = true.
Proof.
  unfold String.leb.
  induction a as [|x a IH]; intros [|y b] [|z c]; simpl; auto; try discriminate.
  unfold Ascii.compare.
  destruct (N.compare_spec (N_of_ascii x) (N_of_ascii y)) as [Hxy|Hxy|Hxy];
    destruct (N.compare_spec (N_of_ascii y) (N_of_ascii z)) as [Hyz|Hyz|Hyz];
    try discriminate; intros H1 H2.
  - rewrite Hxy, Hyz, N.compare_refl. now apply IH with b.
  - rewrite Hxy. now apply N.compare_lt_iff in Hyz as ->.
  - rewrite <- Hyz. now apply N.compare_lt_iff in Hxy as ->.
  - assert (H : (N_of_ascii x < N_of_ascii z)%N) by lia.
    now apply N.compare_lt_iff in H as ->.
Qed.

Lemma insert_sorted_perm x l : Permutation (insert_sorted x l) (x :: l).
Proof.
  induction l as [|y l IH]; simpl; auto.
  destruct (String.leb x y); auto.
  rewrite IH. apply perm_swap.
Qed.

Lemma sorted_perm l : Permutation (sorted l) l.
Proof.
  induction l as [|x l IH]; simpl; auto.
  rewrite insert_sorted_perm. now constructor.
Qed.

Lemma insert_sorted_ascending x l :
  ascending l -> ascending (insert_sorted x l).
Proof.
  unfold ascending. induction l as [|y l IH]; intros H; simpl.
  - repeat constructor.
  - inversion H as [|? ? Hl Hy]; subst.
    destruct (String.leb x y) eqn:E.
    + constructor; auto. constructor; auto.
      rewrite Forall_forall in *. intros z Hz.
      apply leb_trans with y; auto.
    + constructor; auto.
      rewrite Forall_forall in *. intros z Hz.
      apply (Permutation_in _ (insert_sorted_perm x l)) in Hz.
      destruct Hz as [<-|Hz]; auto.
      destruct (String.leb_total x y) as [H0|H0]; congruence.
Qed.

Lemma sorted_ascending l : ascending (sorted l).
Proof.
  induction l as [|x l IH]; simpl; [constructor|].
  now apply insert_sorted_ascending.
Qed.

Lemma insert_sorted_head x l :
  Forall (fun y => String.leb x y = true) l -> insert_sorted x l = x :: l.
Proof.
  destruct l as [|y l]; simpl; auto. intros H. inversion H; subst.
  now rewrite H2.
Qed.

Lemma sorted_id l : ascending l -> sorted l = l.
Proof.
  induction 1 as [|x l Hl IH Hx]; simpl; auto.
  rewrite IH. now apply insert_sorted_head.
Qed.

Lemma filter_ascending (p : string -> bool) l :
  ascending l -> ascending (filter p l).
Proof.
  induction 1 as [|x l Hl IH Hx]; simpl; [constructor|].
  destruct (p x); auto. constructor; auto.
  rewrite Forall_forall in *. intros y Hy. apply filter_In in Hy. apply Hx, Hy.
Qed.

Lemma sorted_In l x : In x (sorted l) <-> In x l.
Proof.
  split; apply Permutation_in; [|symmetry]; apply sorted_perm.
Qed.

Lemma sorted_length l : length (sorted l) = length l.
Proof. apply Permutation_length, sorted_perm. Qed.

Lemma sorted_NoDup l : NoDup l -> NoDup (sorted l).
Proof. apply Permutation_NoDup. symmetry. apply sorted_perm. Qed.

Lemma before_hyphen_ticket (p n : string) :
  PyStr.all PyStr.isupper_az p = true ->
  before_hyphen (String.append p (String "-" n)) = p.
Proof.
  induction p as [|c p IH]; simpl; auto.
  rewrite andb_true_iff. intros [Hc Hp]. rewrite (IH Hp).
  destruct (Ascii.eqb c "-") eqn:E; auto.
  apply Ascii.eqb_eq in E. subst c. discriminate.
Qed.

End SortedFacts.

Section GroupingFacts.

Lemma group_step_get (projects : dict (list string)) (ticket prefix : string) :
  dict_get (group_step projects ticket) prefix
  = if has_prefix prefix ticket
    then Some (match dict_get projects prefix with
               | Some l => l | None => [] end ++ [ticket])
    else dict_get projects prefix.
Proof.
  unfold group_step, has_prefix, dict_mem. cbv zeta.
  destruct (String.eqb (before_hyphen ticket) prefix) eqn:E.
  - apply String.eqb_eq in E. subst prefix.
    destruct (dict_get projects (before_hyphen ticket)) as [l|] eqn:G; simpl.
    + rewrite G. apply dict_get_set_eq.
    + rewrite dict_get_set_eq. apply dict_get_set_eq.
  - apply String.eqb_neq in E.
    destruct (dict_get projects (before_hyphen ticket)) as [l|] eqn:G; simpl.
    + rewrite G. now apply dict_get_set_neq.
    + rewrite dict_get_set_eq. rewrite !dict_get_set_neq; auto.
Qed.

Lemma group_step_wf projects ticket :
  dict_wf projects -> dict_wf (group_step projects ticket).
Proof.
  intros H. unfold group_step. cbv zeta.
  destruct (negb _); [|destruct (dict_get _ _)]; auto using dict_wf_set.
  destruct (dict_get _ _); auto using dict_wf_set.
Qed.

Lemma group_sizes_set (projects : dict (list string)) k l :
  group_sizes (dict_set projects k l) + length (match dict_get projects k with Some l0 => l0 | None => [] end)
  = group_sizes projects + length l.
Proof.
  unfold group_sizes. induction projects as [|[k0 l0] d IH]; simpl.
  - lia.
  - destruct (String.eqb k0 k); simpl; lia.
Qed.

Lemma group_step_sizes projects ticket :
  group_sizes (group_step projects ticket) = S (group_sizes projects).
Proof.
  unfold group_step, dict_mem. cbv zeta.
  destruct (dict_get projects (before_hyphen ticket)) as [l|] eqn:G; simpl.
  - rewrite G. pose proof (group_sizes_set projects (before_hyphen ticket) (l ++ [ticket])) as H.
    rewrite G, length_app in H. simpl in H. lia.
  - rewrite dict_get_set_eq.
    pose proof (group_sizes_set (dict_set projects (before_hyphen ticket) [])
                  (before_hyphen ticket) [ticket]) as H.
    rewrite dict_get_set_eq in H.
    pose proof (group_sizes_set projects (before_hyphen ticket) []) as H'.
    rewrite G in H'. simpl in *. lia.
Qed.

Lemma group_fold tickets : forall projects,
  dict_wf projects ->
  let result := fold_left group_step tickets projects in
  dict_wf result
  /\ group_sizes result = group_sizes projects + length tickets
  /\ forall prefix,
       dict_get result prefix
       = match filter (has_prefix prefix) tickets with
         | [] => dict_get projects prefix
         | g => Some (match dict_get projects prefix with
                      | Some l => l | None => [] end ++ g)
         end.
Proof.
  induction tickets as [|t tickets IH]; intros projects Hwf; simpl.
  - repeat split; auto.
  - destruct (IH (group_step projects t) (group_step_wf _ _ Hwf))
      as (Hwf' & Hsz & Hget).
    split; [exact Hwf'|]. split.
    + rewrite Hsz, group_step_sizes. lia.
    + intros prefix. rewrite Hget, group_step_get.
      destruct (has_prefix prefix t); simpl; [|reflexivity].
      destruct (filter (has_prefix prefix) tickets); auto.
      now rewrite <- app_assoc.
Qed.


(** X11. Grouping tickets by project loses and repeats nothing: the dict of
    projects has one key per prefix that occurs, bound to the tickets with
    that prefix in the order they came in, and the group sizes add up to the
    number of tickets. *)
Theorem group_by_project_partition (tickets : list string) :
  let projects := group_by_project tickets in
  dict_wf projects
  /\ group_sizes projects = length tickets
  /\ forall prefix,
       dict_get projects prefix
       = match filter (has_prefix prefix) tickets with
         | [] => None
         | g => Some g
         end.
Proof.
  destruct (group_fold tickets []) as (Hwf & Hsz & Hget); [constructor|].
  split; [exact Hwf|]. split; [exact Hsz|].
  intros prefix. rewrite Hget. reflexivity.
Qed.

End GroupingFacts.

(** * The ticket reports *)

Section TicketReports.
Import LinearTicketExtractor LinearTicketDetails.

Lemma is_ticket_project (t : string) :
  is_ticket t -> is_project (before_hyphen t).
Proof.
  intros (p & n & -> & Hp & Hpl & _). rewrite before_hyphen_ticket; auto.
  now split.
Qed.

Lemma group_get_some (tickets : list string) (prefix : string) g :
  dict_get (group_by_project tickets) prefix = Some g ->
  g = filter (has_prefix prefix) tickets /\ g <> [].
Proof.
  destruct (group_fold tickets []) as (_ & _ & Hget); [constructor|].
  unfold group_by_project. rewrite Hget. simpl.
  destruct (filter (has_prefix prefix) tickets) eqn:E; [discriminate|].
  intros H. injection H as <-. split; [reflexivity | discriminate].
Qed.

(** X12. In the summary of the ticket reports, computed from the tickets
    extracted from a text: the numbers of tickets per project add up to the
    total, every project is a prefix of 2 to 6 capital letters, and every
    project lists, in ascending order, exactly the extracted tickets that
    start with it. *)
Theorem projects_of_extracted (text : string) :
  let tickets := extract_tickets_from_text text in
  let projects := projects_of tickets in
  group_sizes projects = length tickets
  /\ Forall is_project (keys projects)
  /\ forall prefix g,
       dict_get projects prefix = Some g ->
       g <> [] /\ ascending g
       /\ forall t, In t g <-> In t tickets /\ before_hyphen t = prefix.
Proof.
  intros tickets projects. unfold projects, projects_of. cbv zeta.
  assert (Hg : forall prefix g,
             dict_get (group_by_project (sorted tickets)) prefix = Some g ->
             g <> [] /\ ascending g
             /\ forall t, In t g <-> In t tickets /\ before_hyphen t = prefix).
  { intros prefix g H. apply group_get_some in H. destruct H as [-> Hne].
    split; [exact Hne|]. split.
    - apply filter_ascending, sorted_ascending.
    - intros t. rewrite filter_In, sorted_In. unfold has_prefix.
      now rewrite String.eqb_eq. }
  split; [|split; [|exact Hg]].
  - destruct (group_fold (sorted tickets) []) as (_ & Hsz & _); [constructor|].
    unfold group_by_project. rewrite Hsz. simpl. apply sorted_length.
  - apply Forall_forall. intros k Hk. apply dict_mem_In in Hk.
    unfold dict_mem in Hk.
    destruct (dict_get (group_by_project (sorted tickets)) k) as [g|] eqn:E;
      [|discriminate].
    destruct (Hg k g E) as (Hne & _ & Hin).
    destruct g as [|t g]; [congruence|].
    destruct (proj1 (Hin t) (or_introl eq_refl)) as [Ht <-].
    apply is_ticket_project. now apply extract_tickets_iff in Ht.
Qed.

Lemma fold_dict_set_fresh {V : Type} (f : string -> V) (l : list string) :
  forall acc : dict V,
  NoDup l -> (forall t, In t l -> ~ In t (keys acc)) ->
  fold_left (fun d t => dict_set d t (f t)) l acc
  = acc ++ map (fun t => (t, f t)) l.
Proof.
  induction l as [|x l IH]; intros acc Hnd Hfresh; simpl.
  - now rewrite app_nil_r.
  - inversion Hnd as [|? ? Hx Hl]; subst.
    rewrite dict_set_fresh by (apply Hfresh; now left).
    rewrite IH; auto.
    + now rewrite <- app_assoc.
    + intros t Ht. unfold keys. rewrite map_app, in_app_iff. simpl.
      intros [H|[H|[]]].
      * apply (Hfresh t); [now right | exact H].
      * subst. auto.
Qed.

(** X13. [fetch_all_ticket_details] returns one entry per ticket of the
    set: without an API key every ticket is bound to [None], and with one
    the tickets come in ascending order, each bound to what
    [fetch_ticket_details] returns for it. *)
Theorem fetch_all_ticket_details_entries
    (api_key : option string) (fetch_ticket_details : string -> option details)
    (tickets : set string) :
  NoDup tickets ->
  fetch_all_ticket_details api_key fetch_ticket_details tickets
  = if ServiceMapper.truthy_opt api_key
    then map (fun t => (t, fetch_ticket_details t)) (sorted tickets)
    else map (fun t => (t, None)) tickets.
Proof.
  intros Hnd. unfold fetch_all_ticket_details.
  destruct (ServiceMapper.truthy_opt api_key); simpl.
  - rewrite (fold_dict_set_fresh fetch_ticket_details); auto.
    now apply sorted_NoDup.
  - unfold dict_of_display.
    assert (H : forall l (acc : dict (option details)),
               fold_left (fun d kv => dict_set d (fst kv) (snd kv))
                         (map (fun t : string => (t, @None details)) l) acc
               = fold_left (fun d t => dict_set d t None) l acc).
    { induction l as [|t l IH]; intros acc; simpl; auto. }
    rewrite H, (fold_dict_set_fresh (fun _ => None)); auto.
Qed.

Lemma fetch_all_ticket_details_entries_witness :
  let fetch := fun t => if String.eqb t "AB-1"
                        then Some (mkDetails "AB-1" "Fix login" "Done" "Ada")
                        else None in
  NoDup ["CD-22"; "AB-1"]
  /\ fetch_all_ticket_details (Some "key") fetch ["CD-22"; "AB-1"]
     = [("AB-1", Some (mkDetails "AB-1" "Fix login" "Done" "Ada"));
        ("CD-22", None)]
  /\ fetch_all_ticket_details None fetch ["CD-22"; "AB-1"]
     = [("CD-22", None); ("AB-1", None)].
Proof.
  intros fetch.
  assert (Hnd : NoDup ["CD-22"; "AB-1"]).
  { repeat constructor; simpl; intuition discriminate. }
  split; [exact Hnd|]. split.
  - rewrite (fetch_all_ticket_details_entries (Some "key") fetch _ Hnd).
    reflexivity.
  - rewrite (fetch_all_ticket_details_entries None fetch _ Hnd).
    reflexivity.
Defined.

End TicketReports.

(** * The report of [process_all_services] *)

Section ProcessorFacts.
Import RepositoryProcessor.

Variable skip_unchanged : bool.
Variable fetch_linear_details : bool.
Variable linear_api_key : option string.
Variable extract_repo_path : string -> option string.
Variable call_compare_tags : string -> string -> string -> string.
Variable fetch_ticket_details : string -> option details.

#[local] Abbreviation should_process := (should_process_service skip_unchanged).
#[local] Abbreviation process := (process_service extract_repo_path call_compare_tags).
#[local] Abbreviation step := (service_step skip_unchanged extract_repo_path call_compare_tags).

Lemma truthy_ne (s : string) : PyStr.truthy s = true <-> s <> EmptyString.
Proof. destruct s; simpl; split; congruence. Qed.

Lemma set_update_spec (l : list string) : forall s : set string,
  NoDup s ->
  NoDup (set_update s l) /\ forall t, In t (set_update s l) <-> In t s \/ In t l.
Proof. intros s Hs. now apply (tickets_fold l s). Qed.

Lemma process_service_ok (service : dict string) (r : service_result) :
  should_process service = true ->
  process service = Some r ->
  result_ok r
  /\ (skip_unchanged = true -> r_current_tag r <> r_new_tag r)
  /\ r_service r = get_default service "service" "unknown"
  /\ r_current_tag r = get_default service "current_tag" ""
  /\ r_new_tag r = get_default service "new_tag" "".
Proof.
  unfold should_process_service, process_service, result_ok. cbv zeta.
  set (current := get_default service "current_tag" "").
  set (new := get_default service "new_tag" "").
  intros Hs Hp.
  assert (Hdiff : skip_unchanged = true -> current <> new).
  { intros ->. destruct (negb _ && negb _); [discriminate|]. simpl in Hs.
    destruct (String.eqb current new) eqn:E; [discriminate|].
    now apply String.eqb_neq. }
  assert (Hboth : PyStr.truthy current = true \/ PyStr.truthy new = true).
  { destruct (PyStr.truthy current), (PyStr.truthy new); auto. }
  clear Hs.
  destruct (extract_repo_path _) as [path|]; [|discriminate].
  destruct (PyStr.truthy path) eqn:Hpath; [|discriminate]. simpl in Hp.
  apply truthy_ne in Hpath.
  destruct (PyStr.truthy current) eqn:Hc, (PyStr.truthy new) eqn:Hn;
    simpl in Hp.
  - apply truthy_ne in Hc, Hn.
    destruct (PyStr.truthy (call_compare_tags _ _ _)); simpl in Hp;
      injection Hp as <-; simpl; repeat split; auto; try discriminate.
    + symmetry. apply sorted_length.
    + apply sorted_NoDup, extract_tickets_NoDup.
    + apply sorted_ascending.
    + apply Forall_forall. intros t Ht.
      apply (proj1 (sorted_In _ _)) in Ht.
      now apply (proj1 (extract_tickets_iff _ _)) in Ht.
  - apply truthy_ne in Hc. destruct new; [|discriminate].
    injection Hp as <-; simpl; repeat split; auto.
  - apply truthy_ne in Hn. destruct current; [|discriminate].
    injection Hp as <-; simpl; repeat split; auto.
  - destruct Hboth; discriminate.
Qed.

Lemma count_snoc {A : Type} (p : A -> bool) (l : list A) (x : A) :
  count p (l ++ [x]) = count p l + (if p x then 1 else 0).
Proof.
  unfold count. rewrite filter_app, length_app. simpl. now destruct (p x).
Qed.

Lemma service_step_invariant (seen : list (dict string)) (st : loop_state)
    (service : dict string) :
  loop_invariant should_process process seen st ->
  loop_invariant should_process process (seen ++ [service]) (step st service).
Proof.
  unfold loop_invariant. intros (Hsum & Hp & Hs & Hf & Hr).
  rewrite !count_snoc, flat_map_app, length_app.
  simpl (flat_map _ [service]). simpl (length [service]). rewrite app_nil_r.
  unfold service_step.
  destruct (should_process service) eqn:E; simpl negb; cbv iota; simpl andb.
  - destruct (process service) as [r|] eqn:P.
    + destruct (r_status r) eqn:S; simpl; rewrite !count_snoc;
        unfold is_success, is_error, is_pending in *; rewrite S, <- Hr;
        repeat split; auto; lia.
    + simpl. rewrite app_nil_r. repeat split; auto; lia.
  - simpl. rewrite app_nil_r. repeat split; auto; lia.
Qed.

Lemma services_fold_invariant (services : list (dict string)) :
  forall seen st,
  loop_invariant should_process process seen st ->
  loop_invariant should_process process (seen ++ services)
                 (fold_left step services st).
Proof.
  induction services as [|s services IH]; intros seen st H; simpl.
  - now rewrite app_nil_r.
  - replace (seen ++ s :: services) with ((seen ++ [s]) ++ services)
      by now rewrite <- app_assoc.
    apply IH. now apply service_step_invariant.
Qed.

#[local] Abbreviation run := (process_all_services skip_unchanged
  fetch_linear_details linear_api_key extract_repo_path call_compare_tags
  fetch_ticket_details).

Lemma services_loop_invariant (services : list (dict string)) :
  loop_invariant should_process process services
    (services_loop skip_unchanged extract_repo_path call_compare_tags services).
Proof.
  apply (services_fold_invariant services []).
  unfold loop_invariant, count. simpl. repeat split; reflexivity.
Qed.

Lemma collect_tickets_snoc (rs : list service_result) (r : service_result) :
  collect_tickets (rs ++ [r])
  = match r_status r with
    | success => set_update (collect_tickets rs) (r_tickets r)
    | _ => collect_tickets rs
    end.
Proof. unfold collect_tickets. now rewrite fold_left_app. Qed.

Lemma services_fold_tickets (services : list (dict string)) : forall st,
  total_tickets st = collect_tickets (results st) ->
  total_tickets (fold_left step services st)
  = collect_tickets (results (fold_left step services st)).
Proof.
  induction services as [|s services IH]; intros st H; simpl; auto.
  apply IH. unfold service_step.
  destruct (negb _); simpl; auto.
  destruct (process s) as [r|]; simpl; auto.
  destruct (r_status r) eqn:S; simpl; rewrite collect_tickets_snoc, S;
    congruence.
Qed.

Lemma collect_tickets_spec (rs : list service_result) :
  NoDup (collect_tickets rs)
  /\ forall t, In t (collect_tickets rs)
               <-> exists r, In r rs /\ is_success r = true
                             /\ In t (r_tickets r).
Proof.
  induction rs as [|r rs IH] using rev_ind.
  - split; [constructor|]. intros t. split; [intros [] | intros (r & [] & _)].
  - destruct IH as [Hnd Hin]. rewrite collect_tickets_snoc.
    assert (Hsplit : forall t,
               (exists r0, In r0 (rs ++ [r]) /\ is_success r0 = true
                           /\ In t (r_tickets r0))
               <-> (exists r0, In r0 rs /\ is_success r0 = true
                               /\ In t (r_tickets r0))
                   \/ (is_success r = true /\ In t (r_tickets r))).
    { intros t. split.
      - intros (r0 & H0 & H1 & H2). apply in_app_iff in H0.
        destruct H0 as [H0|[<-|[]]]; eauto.
      - intros [(r0 & H0 & H1 & H2)|[H1 H2]].
        + exists r0. rewrite in_app_iff. auto.
        + exists r. rewrite in_app_iff. simpl. auto. }
    unfold is_success in *.
    destruct (r_status r) eqn:S.
    1-3: split; [exact Hnd|]; intros t; rewrite Hsplit, Hin;
      intuition discriminate.
    destruct (set_update_spec (r_tickets r) _ Hnd) as [Hnd' Hin'].
    split; [exact Hnd'|]. intros t. rewrite Hsplit, Hin', Hin. tauto.
Qed.

Lemma results_ok (services : list (dict string)) :
  Forall (fun r => result_ok r
                   /\ (skip_unchanged = true -> r_current_tag r <> r_new_tag r))
         (flat_map (fun s => if should_process s
                             then match process s with
                                  | Some r => [r]
                                  | None => []
                                  end
                             else []) services).
Proof.
  apply Forall_flat_map, Forall_forall. intros s _.
  destruct (should_process s) eqn:E; [|constructor].
  destruct (process s) as [r|] eqn:P; [|constructor].
  constructor; [|constructor].
  destruct (process_service_ok s r E P) as (H1 & H2 & _). now split.
Qed.

Lemma dict_set_same {V : Type} (d : dict V) (k : string) (v : V) :
  dict_get d k = Some v -> dict_set d k v = d.
Proof.
  induction d as [|[k0 v0] d IH]; simpl; [discriminate|].
  destruct (String.eqb k0 k) eqn:E.
  - apply String.eqb_eq in E. now intros [= ->]; subst.
  - intros H. now rewrite IH.
Qed.

Lemma sort_groups_id (d : dict (list string)) :
  (forall k g, dict_get d k = Some g -> ascending g) ->
  sort_groups d = d.
Proof.
  intros H. unfold sort_groups. induction (keys d) as [|k ks IH]; simpl; auto.
  destruct (dict_get d k) as [g|] eqn:E; auto.
  rewrite (sorted_id g (H k g E)), (dict_set_same d k g E). exact IH.
Qed.

Lemma group_by_project_ascending (l : list string) :
  ascending l ->
  forall k g, dict_get (group_by_project l) k = Some g -> ascending g.
Proof.
  intros Hl k g H. apply group_get_some in H. destruct H as [-> _].
  now apply filter_ascending.
Qed.

Lemma dict_get_map {V : Type} (f : string -> V) (l : list string) (t : string) :
  dict_get (map (fun t => (t, f t)) l) t
  = if in_dec string_dec t l then Some (f t) else None.
Proof.
  induction l as [|x l IH]; simpl; auto.
  destruct (String.eqb x t) eqn:E.
  - apply String.eqb_eq in E. subst x.
    now destruct (string_dec t t); [|congruence].
  - apply String.eqb_neq in E. rewrite IH.
    destruct (string_dec x t); [congruence|].
    now destruct (in_dec string_dec t l).
Qed.

Lemma fetch_all_ticket_details_none (tickets : set string) :
  NoDup tickets ->
  dict_of_display (map (fun t : string => (t, @None details)) tickets)
  = map (fun t => (t, None)) tickets.
Proof.
  intros Hnd. unfold dict_of_display.
  assert (H : forall l (acc : dict (option details)),
             fold_left (fun d kv => dict_set d (fst kv) (snd kv))
                       (map (fun t : string => (t, @None details)) l) acc
             = fold_left (fun d t => dict_set d t None) l acc).
  { induction l as [|t l IH]; intros acc; simpl; auto. }
  rewrite H, (fold_dict_set_fresh (fun _ => None)); auto.
Qed.

(** X14. In the report of [process_all_services], the counters account for
    every service: each service is skipped, failed, processed, or left with
    a result whose status is [new_service] or [no_new_version], which none
    of the three counters counts. *)
Theorem report_counters (services : list (dict string)) :
  let rep := run services in
  let m := rep_metadata rep in
  meta_total_services m = length services
  /\ meta_processed m + meta_skipped m + meta_failed m
     + count is_pending (rep_services rep) = length services
  /\ meta_processed m = count is_success (rep_services rep)
  /\ meta_skipped m = count (fun s => negb (should_process s)) services
  /\ meta_failed m
     = count is_error (rep_services rep)
       + count (fun s => should_process s && is_none (process s)) services.
Proof.
  destruct (services_loop_invariant services) as (H1 & H2 & H3 & H4 & _).
  simpl. repeat split; assumption.
Qed.

Lemma flat_map_results (services : list (dict string)) :
  map r_service
      (flat_map (fun s => if should_process s
                          then match process s with
                               | Some r => [r]
                               | None => []
                               end
                          else []) services)
  = map (fun s => get_default s "service" "unknown")
        (filter (fun s => should_process s && negb (is_none (process s)))
                services).
Proof.
  induction services as [|s services IH]; simpl; auto.
  destruct (should_process s) eqn:E; simpl; auto.
  destruct (process s) as [r|] eqn:P; simpl; auto.
  rewrite IH. f_equal.
  now destruct (process_service_ok s r E P) as (_ & _ & -> & _).
Qed.

(** X15. Every result in the report is consistent with its status: only a
    [success] result carries tickets, and then they are ticket keys in
    ascending order without repetition, counted by [ticket_count]; a
    [new_service] result has no current tag, a [no_new_version] result no
    new tag, and the other two have both.  With [skip_unchanged] no result
    has equal tags.  The results follow the order of the services. *)
Theorem report_results (services : list (dict string)) :
  let rep := run services in
  Forall result_ok (rep_services rep)
  /\ (skip_unchanged = true ->
      Forall (fun r => r_current_tag r <> r_new_tag r) (rep_services rep))
  /\ map r_service (rep_services rep)
     = map (fun s => get_default s "service" "unknown")
           (filter (fun s => should_process s && negb (is_none (process s)))
                   services).
Proof.
  destruct (services_loop_invariant services) as (_ & _ & _ & _ & Hr).
  pose proof (results_ok services) as Hok. rewrite <- Hr in Hok.
  simpl. rewrite Forall_forall in Hok. split; [|split].
  - apply Forall_forall. intros r Hin. apply (Hok r Hin).
  - intros Hs. apply Forall_forall. intros r Hin. now apply (Hok r Hin).
  - rewrite Hr. apply flat_map_results.
Qed.

(** X16. The tickets of the report are those of the successful results,
    each once: the unique count of the metadata, the set the loop gathers
    for the printed summary and the length of [all_tickets] all agree, and
    [all_tickets] lists the tickets in ascending order, each followed by a
    colon and its title when the details were fetched and hold a title. *)
Theorem report_tickets (services : list (dict string)) :
  let rep := run services in
  let all := collect_tickets (rep_services rep) in
  NoDup all
  /\ (forall t, In t all
                <-> exists r, In r (rep_services rep)
                              /\ is_success r = true /\ In t (r_tickets r))
  /\ total_tickets
       (services_loop skip_unchanged extract_repo_path call_compare_tags
                      services) = all
  /\ meta_total_unique_tickets (rep_metadata rep) = length all
  /\ length (rep_all_tickets rep) = length all
  /\ rep_all_tickets rep
     = map (fun t =>
              entry_for t
                (if fetch_linear_details
                    && ServiceMapper.truthy_opt linear_api_key
                 then fetch_ticket_details t else None))
           (sorted all).
Proof.
  simpl.
  set (st := services_loop skip_unchanged extract_repo_path call_compare_tags
                           services).
  destruct (collect_tickets_spec (results st)) as [Hnd Hin].
  split; [exact Hnd|]. split; [exact Hin|]. split.
  { unfold st, services_loop. now apply services_fold_tickets. }
  split; [reflexivity|]. split.
  { now rewrite length_map, sorted_length. }
  apply map_ext_in. intros t Ht.
  unfold ticket_entry, entry_for, get_default, fetch_all_ticket_details.
  destruct fetch_linear_details; simpl.
  - destruct (ServiceMapper.truthy_opt linear_api_key); simpl.
    + rewrite (fold_dict_set_fresh fetch_ticket_details)
        by (auto using sorted_NoDup).
      simpl. rewrite dict_get_map.
      destruct (in_dec string_dec t (sorted (collect_tickets (results st))));
        [reflexivity | contradiction].
    + rewrite (fetch_all_ticket_details_none _ Hnd).
      rewrite (dict_get_map (fun _ => None)).
      now destruct (in_dec _ _ _).
  - rewrite (fetch_all_ticket_details_none _ Hnd).
    rewrite (dict_get_map (fun _ => None)).
    now destruct (in_dec _ _ _).
Qed.

(** X17. [tickets_by_project] of the report files every ticket of the
    report under the letters before its hyphen: the groups are in ascending
    order as built, so the loop that sorts them afterwards changes nothing;
    the group sizes add up to the unique count of the metadata, and every
    key is a prefix of 2 to 6 capital letters. *)
Theorem report_projects (services : list (dict string)) :
  let rep := run services in
  let all := collect_tickets (rep_services rep) in
  rep_tickets_by_project rep = group_by_project (sorted all)
  /\ dict_wf (rep_tickets_by_project rep)
  /\ group_sizes (rep_tickets_by_project rep)
     = meta_total_unique_tickets (rep_metadata rep)
  /\ Forall is_project (keys (rep_tickets_by_project rep))
  /\ forall prefix g,
       dict_get (rep_tickets_by_project rep) prefix = Some g ->
       g <> [] /\ ascending g
       /\ forall t, In t g <-> In t all /\ before_hyphen t = prefix.
Proof.
  simpl.
  set (st := services_loop skip_unchanged extract_repo_path call_compare_tags
                           services).
  set (all := collect_tickets (results st)).
  assert (Hid : sort_groups (group_by_project (sorted all))
                = group_by_project (sorted all)).
  { apply sort_groups_id, group_by_project_ascending, sorted_ascending. }
  rewrite Hid.
  destruct (group_fold (sorted all) []) as (Hwf & Hsz & _); [constructor|].
  assert (Hg : forall prefix g,
             dict_get (group_by_project (sorted all)) prefix = Some g ->
             g <> [] /\ ascending g
             /\ forall t, In t g <-> In t all /\ before_hyphen t = prefix).
  { intros prefix g H. apply group_get_some in H. destruct H as [-> Hne].
    split; [exact Hne|]. split.
    - apply filter_ascending, sorted_ascending.
    - intros t. rewrite filter_In, sorted_In. unfold has_prefix.
      now rewrite String.eqb_eq. }
  split; [reflexivity|]. split; [exact Hwf|]. split.
  { unfold group_by_project. rewrite Hsz. simpl. apply sorted_length. }
  split; [|exact Hg].
  apply Forall_forall. intros k Hk. apply dict_mem_In in Hk.
  unfold dict_mem in Hk.
  destruct (dict_get (group_by_project (sorted all)) k) as [g|] eqn:E;
    [|discriminate].
  destruct (Hg k g E) as (Hne & _ & Hin).
  destruct g as [|t g]; [congruence|].
  destruct (proj1 (Hin t) (or_introl eq_refl)) as [Ht <-].
  apply is_ticket_project.
  apply (collect_tickets_spec (results st)) in Ht.
  destruct Ht as (r & Hr & Hs & Ht).
  destruct (services_loop_invariant services) as (_ & _ & _ & _ & Hres).
  pose proof (results_ok services) as Hok. rewrite <- Hres in Hok.
  rewrite Forall_forall in Hok. destruct (Hok r Hr) as [(_ & _ & Hst) _].
  unfold is_success in Hs. destruct (r_status r); try discriminate.
  destruct Hst as (_ & _ & _ & _ & _ & Hall).
  rewrite Forall_forall in Hall. now apply Hall.
Qed.
End ProcessorFacts.

(** A run on five services: one unchanged, one with tickets, one new, one
    without a usable repository URL and one for which nothing is printed. *)
Example process_all_services_sample :
  let svc := fun name url cur new : string =>
    [("service", name); ("repository", url); ("version_key", "K");
     ("current_tag", cur); ("new_tag", new)] in
  let extract_repo_path := fun url : string =>
    if String.prefix "https://github.com/" url
    then Some (substring 19 (String.length url - 19) url) else None in
  let call_compare_tags := fun path _ _ : string =>
    if String.eqb path "o/ui"
    then "  abc1234 - fix [CD-22] and [AB-1] (Ada, 2025-01-01 10:00)"
    else EmptyString in
  let fetch := fun t : string =>
    if String.eqb t "AB-1"
    then Some (mkDetails "AB-1" "Fix login" "Done" "Ada") else None in
  let rep :=
    RepositoryProcessor.process_all_services true true (Some "key")
      extract_repo_path call_compare_tags fetch
      [ svc "appcd" "https://github.com/o/appcd" "v1" "v1";
        svc "ui" "https://github.com/o/ui" "v1" "v2";
        svc "vault" "https://github.com/o/vault" EmptyString "v2";
        svc "bad" EmptyString "v1" "v2";
        svc "iac" "https://github.com/o/iac" "v1" "v3" ] in
  RepositoryProcessor.rep_metadata rep
  = RepositoryProcessor.mkMetadata 5 1 1 2 2
  /\ map RepositoryProcessor.r_status (RepositoryProcessor.rep_services rep)
     = [RepositoryProcessor.success; RepositoryProcessor.new_service;
        RepositoryProcessor.error]
  /\ RepositoryProcessor.rep_all_tickets rep = ["AB-1: Fix login"; "CD-22"]
  /\ RepositoryProcessor.rep_tickets_by_project rep
     = [("AB", ["AB-1"]); ("CD", ["CD-22"])].
Proof. vm_compute. repeat split. Qed.

(** * [generate_input_json] and what becomes of its entries *)

Section GenerateInputJsonFacts.
Import GenerateInputJson.

Variables current_versions new_versions : dict string.

(** The entry of a table item. *)
#[local] Abbreviation entry_of item :=
  (entry (fst item) (snd item)
         (get_default current_versions (fst item) "v1.0.0")
         (get_default new_versions (version_key (snd item)) "")).

Lemma service_step_filter (table : list (string * service_info)) :
  forall result,
  fold_left (service_step current_versions new_versions) table result
  = result
    ++ map (fun item => entry_of item)
           (filter (fun item =>
                      negb (without_versions current_versions new_versions item))
                   table).
Proof.
  induction table as [|[s info] table IH]; intros result.
  - simpl. now rewrite app_nil_r.
  - cbn [fold_left filter]. rewrite IH.
    assert (Hc : negb (without_versions current_versions new_versions (s, info))
                 = PyStr.truthy (get_default current_versions s "v1.0.0")
                   || PyStr.truthy
                        (get_default new_versions (version_key info) "")).
    { unfold without_versions, get_default. cbn [fst snd].
      destruct (dict_get current_versions s) as [c|]; [|reflexivity].
      now rewrite negb_andb, !negb_involutive. }
    rewrite Hc. unfold service_step.
    destruct (_ || _); [|reflexivity].
    cbn [map fst snd]. now rewrite <- app_assoc.
Qed.

Lemma entry_current_tag s info c n :
  get_default (entry s info c n) "current_tag" "" = c.
Proof. reflexivity. Qed.

Lemma entry_new_tag s info c n :
  get_default (entry s info c n) "new_tag" "" = n.
Proof. reflexivity. Qed.

Lemma entry_service s info c n :
  get_default (entry s info c n) "service" "unknown" = s.
Proof. reflexivity. Qed.

Lemma generated_entries_tagged :
  Forall (fun e => PyStr.truthy (get_default e "current_tag" "")
                   || PyStr.truthy (get_default e "new_tag" "") = true)
         (generate_input_json current_versions new_versions).
Proof.
  unfold generate_input_json.
  rewrite service_step_filter. cbn [app].
  apply Forall_forall. intros e He.
  apply in_map_iff in He. destruct He as ([s info] & <- & Hin).
  apply filter_In in Hin. destruct Hin as [_ Hinc].
  rewrite entry_current_tag, entry_new_tag. cbn [fst snd].
  unfold without_versions, get_default in *. cbn [fst snd] in Hinc.
  destruct (dict_get current_versions s) as [c|]; [|reflexivity].
  destruct (PyStr.truthy c); [reflexivity|].
  cbn [negb andb orb] in *. now apply negb_true_iff, negb_false_iff in Hinc.
Qed.

(** X18. [generate_input_json] lists, in the order of the table, the
    services of [SERVICE_VERSION_MAP] except those deployed with an empty
    version for which the env file gives no version; a service missing from
    the deployed versions is always listed, with the current tag v1.0.0.
    Every entry has a non-empty current tag or a non-empty new tag. *)
Theorem generate_input_json_entries :
  let result := generate_input_json current_versions new_versions in
  result
  = map (fun item => entry_of item)
        (filter (fun item =>
                   negb (without_versions current_versions new_versions item))
                SERVICE_VERSION_MAP)
  /\ length result <= 15
  /\ (forall service info,
        In (service, info) SERVICE_VERSION_MAP ->
        dict_get current_versions service = None ->
        In (entry service info "v1.0.0"
                  (get_default new_versions (version_key info) ""))
           result)
  /\ Forall (fun e => PyStr.truthy (get_default e "current_tag" "")
                      || PyStr.truthy (get_default e "new_tag" "") = true)
            result.
Proof.
  intros result.
  assert (Hres : result
                 = map (fun item => entry_of item)
                       (filter (fun item =>
                                  negb (without_versions current_versions
                                                         new_versions item))
                               SERVICE_VERSION_MAP)).
  { unfold result, generate_input_json. now rewrite service_step_filter. }
  split; [exact Hres|]. split; [|split].
  - rewrite Hres, length_map.
    etransitivity; [apply filter_length_le|].
    apply Nat.eq_le_incl. vm_compute. reflexivity.
  - intros service info Hin Hnone. rewrite Hres.
    apply in_map_iff. exists (service, info). cbn [fst snd]. split.
    + unfold get_default. now rewrite Hnone.
    + apply filter_In. split; [exact Hin|].
      unfold without_versions. cbn [fst snd]. now rewrite Hnone.
  - apply generated_entries_tagged.
Qed.
End GenerateInputJsonFacts.

Section GeneratedInput.
Import GenerateInputJson RepositoryProcessor.

Lemma count_ext_in {A : Type} (p q : A -> bool) (l : list A) :
  (forall x, In x l -> p x = q x) -> count p l = count q l.
Proof.
  intros H. unfold count. f_equal. induction l as [|x l IH]; simpl; auto.
  rewrite (H x) by now left. rewrite IH; auto.
  intros y Hy. apply H. now right.
Qed.

(** X19. Run on the list that [generate_input_json] builds,
    [process_all_services] never skips a service for want of tags: the
    services it skips are exactly those whose two tags are equal, and none
    when unchanged services are included. *)
Theorem generated_input_skipped
    (skip_unchanged fetch_linear_details : bool)
    (linear_api_key : option string)
    (extract_repo_path : string -> option string)
    (call_compare_tags : string -> string -> string -> string)
    (fetch_ticket_details : string -> option details)
    (current_versions new_versions : dict string) :
  let services := generate_input_json current_versions new_versions in
  let rep := process_all_services skip_unchanged fetch_linear_details
               linear_api_key extract_repo_path call_compare_tags
               fetch_ticket_details services in
  meta_skipped (rep_metadata rep)
  = if skip_unchanged
    then count (fun e => String.eqb (get_default e "current_tag" "")
                                    (get_default e "new_tag" "")) services
    else 0.
Proof.
  intros services rep.
  destruct (services_loop_invariant skip_unchanged extract_repo_path
              call_compare_tags services) as (_ & _ & Hs & _).
  unfold rep. cbn [process_all_services rep_metadata meta_skipped].
  rewrite Hs.
  pose proof (generated_entries_tagged current_versions new_versions) as Ht.
  fold services in Ht. rewrite Forall_forall in Ht.
  rewrite (count_ext_in _
             (fun e => skip_unchanged
                       && String.eqb (get_default e "current_tag" "")
                                     (get_default e "new_tag" ""))).
  - destruct skip_unchanged; cbn [andb]; [reflexivity|].
    unfold count. clear. induction services; simpl; auto.
  - intros e He. unfold should_process_service. cbv zeta.
    specialize (Ht e He).
    destruct (PyStr.truthy (get_default e "current_tag" "")),
             (PyStr.truthy (get_default e "new_tag" ""));
      try discriminate; cbn [negb andb];
      now destruct (skip_unchanged && _).
Qed.
End GeneratedInput.

(** * [parse_env_file] and the env parser of [compare_versions.py] *)

Section EnvFileFacts.
Import PyStr Re VersionComparator GenerateInputJson.

Lemma lstrip_char_id (c : ascii) (s : string) :
  all (fun x => negb (Ascii.eqb x c)) (take 1 s) = true ->
  lstrip_char c s = s.
Proof.
  destruct s as [|x s]; simpl; auto.
  destruct (Ascii.eqb x c); simpl; [discriminate | auto].
Qed.

Lemma rstrip_char_id (c : ascii) (s : string) :
  all (fun x => negb (Ascii.eqb x c)) s = true -> rstrip_char c s = s.
Proof.
  induction s as [|x s IH]; simpl; auto.
  rewrite andb_true_iff. intros [Hx Hs]. rewrite (IH Hs).
  destruct s; auto. now destruct (Ascii.eqb x c).
Qed.

Lemma rstrip_char_append (c : ascii) (x y : string) :
  rstrip_char c y = y -> y <> EmptyString ->
  rstrip_char c (String.append x y) = String.append x y.
Proof.
  intros Hy Hne. induction x as [|a x IH]; simpl; auto.
  rewrite IH. destruct (String.append x y) eqn:E; auto.
  destruct x; simpl in E; congruence.
Qed.

Lemma rstrip_char_snoc (c : ascii) (v : string) :
  rstrip_char c (String.append v (String c EmptyString)) = rstrip_char c v.
Proof.
  induction v as [|a v IH]; simpl.
  - now rewrite Ascii.eqb_refl.
  - now rewrite IH.
Qed.

Lemma strip_char_wrapped (c : ascii) (q1 v q2 : string) :
  opt_quote q1 = true -> opt_quote q2 = true ->
  v <> EmptyString -> all (fun x => negb (Ascii.eqb x c)) v = true ->
  strip_char c (String.append q1 (String.append v q2))
  = String.append (unquote c q1) (String.append v (unquote c q2)).
Proof.
  intros Hq1 Hq2 Hne Hv. unfold strip_char.
  assert (Hhead : forall t, lstrip_char c (String.append v t) = String.append v t).
  { intros t. apply lstrip_char_id. destruct v as [|x v]; [congruence|].
    simpl in *. apply andb_true_iff in Hv. destruct Hv as [-> _]. reflexivity. }
  assert (Hl : lstrip_char c (String.append q1 (String.append v q2))
               = String.append (unquote c q1) (String.append v q2)).
  { destruct (opt_quote_cases _ Hq1) as [->|[x [-> _]]]; simpl.
    - apply Hhead.
    - destruct (Ascii.eqb x c); [apply Hhead | reflexivity]. }
  rewrite Hl.
  assert (Hr : rstrip_char c (String.append v q2)
               = String.append v (unquote c q2)
               /\ String.append v (unquote c q2) <> EmptyString).
  { split; [|destruct v; [congruence | simpl; congruence]].
    destruct (opt_quote_cases _ Hq2) as [->|[y [-> _]]]; simpl.
    - rewrite append_nil_r. now apply rstrip_char_id.
    - destruct (Ascii.eqb y c) eqn:E.
      + apply Ascii.eqb_eq in E. subst y. rewrite append_nil_r.
        rewrite rstrip_char_snoc. now apply rstrip_char_id.
      + apply rstrip_char_append; [|congruence]. simpl. now rewrite E. }
  destruct Hr as [Hr Hne'].
  destruct (unquote c q1) as [|a [|]] eqn:E1.
  - simpl. exact Hr.
  - change (String.append (String a "") ?t) with (String a t).
    simpl. rewrite Hr.
    destruct (String.append v (unquote c q2)); [congruence | reflexivity].
  - destruct (opt_quote_cases _ Hq1) as [->|[x [-> _]]]; simpl in E1;
      [discriminate|]. destruct (Ascii.eqb x c); discriminate.
Qed.

Lemma isname_start_facts c :
  isname_start c = true ->
  isspace c = false /\ isword c = true /\ isname_char c = true
  /\ Ascii.eqb c "#" = false.
Proof.
  destruct c as [[] [] [] [] [] [] [] []]; vm_compute; intuition congruence.
Qed.

Lemma isname_char_facts c :
  isname_char c = true -> isspace c = false /\ isword c = true.
Proof.
  destruct c as [[] [] [] [] [] [] [] []]; vm_compute; intuition congruence.
Qed.

Lemma isspace_not_name c : isspace c = true -> isname_char c = false.
Proof.
  intros H. destruct (isname_char c) eqn:E; auto.
  apply isname_char_facts in E. destruct E; congruence.
Qed.

Lemma isvalue_notnewline (s : string) :
  all isvalue s = true -> all notnewline s = true.
Proof.
  apply all_impl. intros c.
  destruct c as [[] [] [] [] [] [] [] []]; vm_compute; congruence.
Qed.

Lemma opt_quote_notnewline q : opt_quote q = true -> all notnewline q = true.
Proof.
  intros H. destruct (opt_quote_cases _ H) as [->|[c [-> Hc]]]; auto.
  simpl. rewrite andb_true_r. revert Hc.
  destruct c as [[] [] [] [] [] [] [] []]; vm_compute; congruence.
Qed.

Lemma env_line_match (key ws1 ws2 q1 value q2 : string) :
  is_env_key key = true ->
  all isspace ws1 = true -> all isspace ws2 = true ->
  opt_quote q1 = true -> opt_quote q2 = true ->
  truthy value = true -> all isvalue value = true ->
  re_match_end false env_line_pattern (env_line key ws1 ws2 q1 value q2)
  = Some (mkMatch [(2, String.append q1 (String.append value q2)); (1, key)]
                  EmptyString).
Proof.
  intros Hk H1 H2 Hq1 Hq2 Hne Hv.
  destruct key as [|k0 key]; [discriminate|]. simpl in Hk.
  apply andb_true_iff in Hk. destruct Hk as [Hk0 Hk].
  destruct value as [|v0 value]; [discriminate|].
  pose proof Hv as Hv'. simpl in Hv'. apply andb_true_iff in Hv'.
  destruct Hv' as [Hv0 _].
  destruct (isvalue_facts _ Hv0) as [Hvs Hvq].
  unfold re_match_end, env_line_pattern, env_line.
  set (body := String.append q1 (String.append (String v0 value) q2)).
  assert (Hbody : all isspace (take 1 body) = false).
  { unfold body. destruct (opt_quote_cases _ Hq1) as [->|[c [-> Hc]]]; simpl.
    - now rewrite Hvs.
    - destruct (isquote_facts _ Hc) as [-> _]. reflexivity. }
  set (rest := String.append ws1 (String "=" (String.append ws2 body))).
  set (line := String.append (String k0 key) rest).
  cbn [seq fold_right rmatch]. unfold line at 1. cbn [String.append].
  rewrite Hk0.
  apply rep_greedy_exact; auto; [lia|exact I| |].
  { right. left. unfold rest. destruct ws1 as [|c ws1]; [reflexivity|].
    simpl in *. apply andb_true_iff in H1. destruct H1 as [Hc _].
    now rewrite (isspace_not_name _ Hc). }
  replace (String.length line - String.length rest)
    with (String.length (String.append (String k0 key) rest)
          - String.length rest) by reflexivity.
  unfold line. rewrite take_append.
  unfold rest at 1.
  apply rep_greedy_exact; auto; [lia|exact I|].
  change (char_eq false "=" "=") with true. cbv iota.
  apply rep_greedy_exact; auto; [lia|exact I|].
  rewrite <- (append_nil_r body) at 1.
  apply rep_greedy_exact.
  - unfold body. rewrite !all_append.
    rewrite (opt_quote_notnewline _ Hq1), (opt_quote_notnewline _ Hq2).
    now rewrite (isvalue_notnewline _ Hv).
  - unfold body. destruct q1; simpl; lia.
  - exact I.
  - auto.
  - replace (String.length body - String.length "") with (String.length body)
      by (simpl; lia).
    assert (Ht : forall s, take (String.length s) s = s).
    { induction s; simpl; congruence. }
    simpl at_end. cbv iota. now rewrite Ht.
Qed.

Lemma unquote_both (q : string) :
  opt_quote q = true ->
  opt_quote (unquote "034" q) = true
  /\ unquote "'" (unquote "034" q) = EmptyString.
Proof.
  intros H. destruct (opt_quote_cases _ H) as [->|[c [-> Hc]]]; [now split|].
  revert Hc. destruct c as [[] [] [] [] [] [] [] []]; vm_compute;
    intuition congruence.
Qed.

Lemma isvalue_no_quote (c : ascii) (s : string) :
  isquote c = true -> all isvalue s = true ->
  all (fun x => negb (Ascii.eqb x c)) s = true.
Proof.
  intros Hc. apply all_impl. intros x Hx.
  destruct (Ascii.eqb x c) eqn:E; auto.
  apply Ascii.eqb_eq in E. subst x.
  destruct (isvalue_facts _ Hx). congruence.
Qed.

Lemma quoted_value_strip (q1 value q2 : string) :
  opt_quote q1 = true -> opt_quote q2 = true ->
  truthy value = true -> all isvalue value = true ->
  strip_char "'"
    (strip_char "034" (strip (String.append q1 (String.append value q2))))
  = value.
Proof.
  intros Hq1 Hq2 Hne Hv.
  assert (Hne' : value <> EmptyString) by (destruct value; [discriminate | congruence]).
  assert (Hs : strip (String.append q1 (String.append value q2))
               = String.append q1 (String.append value q2)).
  { unfold strip.
    assert (Hl : lstrip (String.append q1 (String.append value q2))
                 = String.append q1 (String.append value q2)).
    { destruct (opt_quote_cases _ Hq1) as [->|[c [-> Hc]]]; simpl.
      - destruct value as [|v0 value]; [congruence|]. simpl in *.
        apply andb_true_iff in Hv. destruct Hv as [Hv0 _].
        destruct (isvalue_facts _ Hv0) as [-> _]. reflexivity.
      - destruct (isquote_facts _ Hc) as [-> _]. reflexivity. }
    rewrite Hl. apply rstrip_append.
    - destruct (opt_quote_cases _ Hq2) as [->|[c [-> Hc]]].
      + rewrite append_nil_r. now apply rstrip_id, isvalue_not_space.
      + apply rstrip_append; [|congruence]. simpl.
        destruct (isquote_facts _ Hc) as [-> _]. reflexivity.
    - destruct value; [congruence | simpl; congruence]. }
  rewrite Hs.
  rewrite strip_char_wrapped; auto;
    [|now apply isvalue_no_quote].
  destruct (unquote_both _ Hq1) as [Ho1 Hu1].
  destruct (unquote_both _ Hq2) as [Ho2 Hu2].
  rewrite strip_char_wrapped; auto; [|now apply isvalue_no_quote].
  rewrite Hu1, Hu2. simpl. apply append_nil_r.
Qed.

Lemma env_line_strip (key ws1 ws2 q1 value q2 : string) :
  is_env_key key = true -> opt_quote q2 = true ->
  truthy value = true -> all isvalue value = true ->
  strip (env_line key ws1 ws2 q1 value q2) = env_line key ws1 ws2 q1 value q2
  /\ negb (truthy (env_line key ws1 ws2 q1 value q2))
     || startswith "#" (env_line key ws1 ws2 q1 value q2) = false.
Proof.
  intros Hk Hq2 Hne Hv.
  destruct key as [|k0 key]; [discriminate|]. simpl in Hk.
  apply andb_true_iff in Hk. destruct Hk as [Hk0 _].
  destruct (isname_start_facts _ Hk0) as (Hs & _ & _ & Hh).
  split.
  - unfold strip, env_line.
    assert (Hl : forall t, lstrip (String.append (String k0 key) t)
                           = String.append (String k0 key) t).
    { intros t. simpl. now rewrite Hs. }
    rewrite Hl.
    assert (Hr : rstrip (String.append value q2) = String.append value q2
                 /\ String.append value q2 <> EmptyString).
    { split; [|destruct value; [discriminate | simpl; congruence]].
      destruct (opt_quote_cases _ Hq2) as [->|[c [-> Hc]]].
      - rewrite append_nil_r. now apply rstrip_id, isvalue_not_space.
      - apply rstrip_append; [|congruence]. simpl.
        destruct (isquote_facts _ Hc) as [-> _]. reflexivity. }
    assert (Hstep : forall x y, rstrip y = y /\ y <> EmptyString ->
                     rstrip (String.append x y) = String.append x y
                     /\ String.append x y <> EmptyString).
    { intros x y [Hy Hy']. split; [now apply rstrip_append|].
      destruct x; simpl; congruence. }
    change (String "=" (String.append ws2 ?t))
      with (String.append "=" (String.append ws2 t)).
    refine (proj1 (Hstep _ _ _)). do 4 apply Hstep. exact Hr.
  - unfold env_line. clear Hs Hh. revert Hk0.
    destruct k0 as [[] [] [] [] [] [] [] []]; vm_compute; congruence.
Qed.

Lemma env_file_step (env_vars : dict string)
    (key ws1 ws2 q1 value q2 : string) :
  is_env_key key = true ->
  all isspace ws1 = true -> all isspace ws2 = true ->
  opt_quote q1 = true -> opt_quote q2 = true ->
  truthy value = true -> all isvalue value = true ->
  env_line_step env_vars (env_line key ws1 ws2 q1 value q2)
  = dict_set env_vars key value.
Proof.
  intros Hk H1 H2 Hq1 Hq2 Hne Hv. unfold env_line_step. cbv zeta.
  destruct (env_line_strip key ws1 ws2 q1 value q2 Hk Hq2 Hne Hv) as [-> ->].
  rewrite env_line_match by assumption.
  unfold group. cbn [m_caps caps_get Nat.eqb].
  now rewrite quoted_value_strip.
Qed.

Lemma env_line_key (line : string) (m : match_obj) :
  re_match_end false env_line_pattern line = Some m ->
  exists key, group m 1 = Some key /\ is_env_key key = true.
Proof.
  unfold re_match_end. intros H. apply rmatch_sound in H.
  destruct H as (s' & cs' & M & H).
  destruct (at_end s'); [|discriminate]. injection H as <-.
  unfold group. cbn [m_caps].
  assert (S1 : sets env_line_pattern 1 = true) by reflexivity.
  pose proof (mrel_sets _ _ _ _ _ _ M 1 (or_introl S1)) as G1.
  destruct (mrel_caps _ _ _ _ _ _ M 1)
    as [E|(body & s0 & cs0 & s1 & cs1 & Hb & Mb & Hg)].
  { simpl in E. congruence. }
  cbn in Hb. destruct Hb as [Hb|[Hb|[]]]; [|discriminate].
  injection Hb as <-.
  inversion Mb as [| | |? ? ? ? sa csa ? ? Ma Mr| | | |]; subst.
  inversion Ma as [| |? c ? ? Hc| | | | |]; subst.
  inversion Mr as [| | | | | |? ? ? w ? ? Hw _ _|]; subst.
  exists (String c w). split.
  - rewrite Hg.
    change (String c (String.append w s1)) with (String.append (String c w) s1).
    now rewrite take_append.
  - simpl. now rewrite Hc, Hw.
Qed.

Lemma env_line_step_keys (env_vars : dict string) (line : string) :
  dict_wf env_vars -> forallb is_env_key (keys env_vars) = true ->
  dict_wf (env_line_step env_vars line)
  /\ forallb is_env_key (keys (env_line_step env_vars line)) = true.
Proof.
  intros Hwf Hk. unfold env_line_step. cbv zeta.
  destruct (negb _ || _); [now split|].
  destruct (re_match_end false env_line_pattern (strip line)) as [m|] eqn:E;
    [|now split].
  destruct (env_line_key _ _ E) as (key & -> & Hkey).
  destruct (group m 2) as [value|]; [|now split].
  split; [now apply dict_wf_set|].
  rewrite keys_dict_set. destruct (dict_mem env_vars key); auto.
  rewrite forallb_app, Hk. simpl. now rewrite Hkey.
Qed.

(** X20. Whatever the text, the keys of the map [parse_env_file] returns
    are distinct names made of capital letters, digits and underscores that
    do not start with a digit: a line whose name has a small letter adds
    nothing. *)
Theorem parse_env_file_keys (content : string) :
  dict_wf (parse_env_file content)
  /\ forallb is_env_key (keys (parse_env_file content)) = true.
Proof.
  unfold parse_env_file.
  assert (H : forall lines env_vars,
             dict_wf env_vars -> forallb is_env_key (keys env_vars) = true ->
             dict_wf (fold_left env_line_step lines env_vars)
             /\ forallb is_env_key
                   (keys (fold_left env_line_step lines env_vars)) = true).
  { induction lines as [|l lines IH]; intros env_vars Hwf Hk; simpl; auto.
    destruct (env_line_step_keys env_vars l Hwf Hk). now apply IH. }
  apply H; [constructor | reflexivity].
Qed.

Lemma version_line_env_line (name ws1 ws2 q1 value q2 : string) :
  version_line name ws1 ws2 q1 value q2
  = env_line (String.append name "_VERSION") ws1 ws2 q1 value q2.
Proof. unfold version_line, env_line. now rewrite append_assoc. Qed.

Lemma is_env_key_append (key suffix : string) :
  is_env_key key = true -> all isname_char suffix = true ->
  is_env_key (String.append key suffix) = true.
Proof.
  destruct key as [|c key]; [discriminate|]. simpl.
  rewrite !andb_true_iff. intros [Hc Hk] Hs. split; auto.
  now rewrite all_append, Hk, Hs.
Qed.

Lemma is_env_key_word (key : string) :
  is_env_key key = true -> truthy key = true /\ all isword key = true.
Proof.
  destruct key as [|c key]; [discriminate|]. simpl.
  rewrite !andb_true_iff. intros [Hc Hk]. split; auto. split.
  - now destruct (isname_start_facts _ Hc) as (_ & H & _).
  - revert Hk. apply all_impl. intros x Hx.
    now destruct (isname_char_facts _ Hx).
Qed.

(** X21. The two env parsers of the repository agree on a line
    [NAME_VERSION=value] whose name is in capital letters: with optional
    blanks around the equals sign and optional quotes around the value,
    [parse_env_file] binds the whole key [NAME_VERSION] and
    [parse_env_content] binds the name in lower case, both to the same
    value without its quotes. *)
Theorem env_parsers_agree (name ws1 ws2 q1 value q2 : string) :
  is_env_key name = true ->
  all isblank ws1 = true -> all isblank ws2 = true ->
  opt_quote q1 = true -> opt_quote q2 = true ->
  truthy value = true -> all isvalue value = true ->
  let line := version_line name ws1 ws2 q1 value q2 in
  parse_env_file line = [(String.append name "_VERSION", value)]
  /\ parse_env_content line = Ok [(lower name, value)].
Proof.
  intros Hk H1 H2 Hq1 Hq2 Hne Hv line.
  destruct (is_env_key_word _ Hk) as [Hn Hw].
  assert (Hone : split_nl line = [line]).
  { now apply version_line_one_line. }
  split.
  - unfold parse_env_file. rewrite Hone. cbn [fold_left].
    unfold line. rewrite version_line_env_line.
    rewrite env_file_step; auto using isblank_space.
    now apply is_env_key_append.
  - unfold parse_env_content. rewrite Hone. cbn [for_lines].
    unfold line. rewrite version_line_step; auto using isblank_space.
Qed.
End EnvFileFacts.

Lemma env_parsers_agree_witness :
  let line := "IACGEN_VERSION = 'v0.52.6'" in
  GenerateInputJson.parse_env_file line = [("IACGEN_VERSION", "v0.52.6")]
  /\ VersionComparator.parse_env_content line = Ok [("iacgen", "v0.52.6")].
Proof.
  intros line.
  apply (env_parsers_agree "IACGEN" " " " " "'" "v0.52.6" "'"); reflexivity.
Defined.

(** * The two service tables *)

Section TablesAgree.
Import PyStr Re VersionComparator GenerateInputJson.

Lemma char_eq_refl ic c : char_eq ic c c = true.
Proof. unfold char_eq. destruct ic; apply Ascii.eqb_refl. Qed.

Lemma lits_match {R : Type} ic (w : string) :
  forall s cs (k : string -> captures -> option R),
  rmatch ic (lits w) (String.append w s) cs k = k s cs.
Proof.
  induction w as [|c w IH]; intros s cs k; simpl; auto.
  now rewrite char_eq_refl.
Qed.

Lemma key_value_line (key value : string) :
  String.append key (String "=" value)
  = env_line key EmptyString EmptyString EmptyString value EmptyString.
Proof. unfold env_line. simpl. now rewrite append_nil_r. Qed.

Lemma key_value_one_line (key value : string) :
  is_env_key key = true -> all isvalue value = true ->
  split_nl (String.append key (String "=" value))
  = [String.append key (String "=" value)].
Proof.
  intros Hk Hv. apply split_nl_line.
  change (String "=" value) with (String.append "=" value).
  rewrite !all_append.
  assert (H1 : all (fun c => negb (code c =? 10)) key = true).
  { destruct (is_env_key_word _ Hk) as [_ Hw]. revert Hw.
    apply all_impl. intros c.
    destruct c as [[] [] [] [] [] [] [] []]; vm_compute; congruence. }
  assert (H2 : all (fun c => negb (code c =? 10)) value = true).
  { revert Hv. apply all_impl. intros c.
    destruct c as [[] [] [] [] [] [] [] []]; vm_compute; congruence. }
  now rewrite H1, H2.
Qed.

Lemma key_value_env_file (key value : string) :
  is_env_key key = true ->
  truthy value = true -> all isvalue value = true ->
  parse_env_file (String.append key (String "=" value)) = [(key, value)].
Proof.
  intros Hk Hne Hv. unfold parse_env_file.
  rewrite key_value_one_line by assumption. cbn [fold_left].
  rewrite key_value_line. now rewrite env_file_step.
Qed.

Lemma name_version_env_content (name value : string) :
  is_env_key name = true ->
  truthy value = true -> all isvalue value = true ->
  parse_env_content
    (String.append (String.append name "_VERSION") (String "=" value))
  = Ok [(lower name, value)].
Proof.
  intros Hk Hne Hv.
  destruct (is_env_key_word _ Hk) as [Hn Hw].
  unfold parse_env_content.
  rewrite key_value_one_line; auto.
  2:{ apply is_env_key_append; auto. }
  cbn [for_lines].
  rewrite key_value_line, <- version_line_env_line.
  now rewrite version_line_step.
Qed.

Lemma key_value_strip (key value : string) :
  is_env_key key = true ->
  truthy value = true -> all isvalue value = true ->
  line_step [] (String.append key (String "=" value))
  = for_patterns version_patterns (String.append key (String "=" value)) [].
Proof.
  intros Hk Hne Hv. unfold line_step. cbv zeta.
  rewrite key_value_line.
  destruct (env_line_strip key "" "" "" value "" Hk eq_refl Hne Hv)
    as [-> ->].
  reflexivity.
Qed.

Lemma assignment_tail_plain {R : Type} (value : string) (cs : captures)
    (k : string -> captures -> option R) (r : R) :
  truthy value = true -> all isvalue value = true ->
  k EmptyString ((2, value) :: cs) = Some r ->
  rmatch true assignment_tail (String "=" value) cs k = Some r.
Proof.
  intros Hne Hv Hk.
  pose proof (assignment_tail_match "" "" "" value "" cs k r
                eq_refl eq_refl eq_refl eq_refl Hne Hv Hk) as H.
  cbn [String.append] in H. now rewrite append_nil_r in H.
Qed.

Lemma orchestration_line (value : string) :
  truthy value = true -> all isvalue value = true ->
  parse_env_content (String.append "SGAI_ORCHESTRATION" (String "=" value))
  = Ok [("sgai_orchestration", value)].
Proof.
  intros Hne Hv. unfold parse_env_content.
  rewrite key_value_one_line; auto. cbn [for_lines].
  rewrite key_value_strip; auto.
  unfold version_patterns. cbn [for_patterns].
  change (re_match true pattern_suffix_version
            (String.append "SGAI_ORCHESTRATION" (String "=" value)))
    with (@None match_obj).
  change (re_match true pattern_prefix_version
            (String.append "SGAI_ORCHESTRATION" (String "=" value)))
    with (@None match_obj).
  change (re_match true pattern_suffix_tag
            (String.append "SGAI_ORCHESTRATION" (String "=" value)))
    with (@None match_obj).
  change (re_match true pattern_image
            (String.append "SGAI_ORCHESTRATION" (String "=" value)))
    with (@None match_obj).
  cbv iota.
  assert (Hm : re_match true pattern_special
                 (String.append "SGAI_ORCHESTRATION" (String "=" value))
               = Some (mkMatch [(2, value); (1, "SGAI_ORCHESTRATION")]
                               EmptyString)).
  { unfold re_match, pattern_special.
    change (seq (Grp 1 (alts (lits "SGAI_ORCHESTRATION" :: ?l)) :: ?t))
      with (Seq (Grp 1 (Alt (lits "SGAI_ORCHESTRATION") (alts l)))
                assignment_tail).
    cbn [rmatch]. rewrite lits_match. rewrite take_append.
    now rewrite (assignment_tail_plain value [(1, "SGAI_ORCHESTRATION")] _
                   (mkMatch [(2, value); (1, "SGAI_ORCHESTRATION")]
                            EmptyString)). }
  rewrite Hm. change (ngroups pattern_special =? 2) with true. cbv iota.
  unfold group. simpl.
  now rewrite strip_id by (now apply isvalue_not_space).
Qed.

Lemma notification_line (value : string) :
  truthy value = true -> all isvalue value = true ->
  parse_env_content (String.append "STACKGEN_NOTIFICATION" (String "=" value))
  = Ok [].
Proof.
  intros Hne Hv. unfold parse_env_content.
  rewrite key_value_one_line; auto. cbn [for_lines].
  rewrite key_value_strip by auto.
  reflexivity.
Qed.

Lemma tracked_key (name value service : string) (expected : option string) :
  is_env_key name = true ->
  truthy value = true -> all isvalue value = true ->
  ServiceMapper.map_env_to_deployed (lower name) = expected ->
  let key := String.append name "_VERSION" in
  let line := String.append key (String "=" value) in
  get_default (parse_env_file line) key EmptyString = value
  /\ exists e, parse_env_content line = Ok [(e, value)]
               /\ ServiceMapper.map_env_to_deployed e = expected.
Proof.
  intros Hk Hne Hv Hmap key line. split.
  - unfold line. rewrite key_value_env_file; auto.
    + unfold get_default. simpl. now rewrite String.eqb_refl.
    + now apply is_env_key_append.
  - exists (lower name). split; [|exact Hmap].
    now apply name_version_env_content.
Qed.

(** X22. The table of [generate_input_json] and the table of
    [ServiceMapper] name the same services.  For an entry of
    [SERVICE_VERSION_MAP] and a line [KEY=value] with its version key,
    [parse_env_file] binds the key to the value, which becomes the new tag
    of the service; and [parse_env_content] binds the value to an env name
    that [map_env_to_deployed] sends to that very service.  Three services
    are the exception: the key of [notifications] is a line that
    [parse_env_content] skips, and the env names of [aiden] and [aiden-ui]
    have no deployed counterpart in the mapping. *)
Theorem version_keys_tracked (service : string) (info : service_info)
    (value : string) :
  In (service, info) SERVICE_VERSION_MAP ->
  truthy value = true -> all isvalue value = true ->
  let line := String.append (version_key info) (String "=" value) in
  get_default (parse_env_file line) (version_key info) EmptyString = value
  /\ if String.eqb service "notifications"
     then parse_env_content line = Ok []
     else exists e,
            parse_env_content line = Ok [(e, value)]
            /\ ServiceMapper.map_env_to_deployed e
               = if String.eqb service "aiden" || String.eqb service "aiden-ui"
                 then None else Some service.
Proof.
  intros Hin Hne Hv.
  assert (Hsuffix : forall name expected,
             is_env_key name = true ->
             ServiceMapper.map_env_to_deployed (lower name) = expected ->
             let key := String.append name "_VERSION" in
             let line := String.append key (String "=" value) in
             get_default (parse_env_file line) key EmptyString = value
             /\ exists e, parse_env_content line = Ok [(e, value)]
                          /\ ServiceMapper.map_env_to_deployed e = expected).
  { intros name expected Hk Hmap. now apply tracked_key. }
  unfold SERVICE_VERSION_MAP in Hin. cbn in Hin.
  repeat (destruct Hin as [Hin|Hin]; [injection Hin as <- <-|]);
    try contradiction; cbn [version_key String.eqb Ascii.eqb Bool.eqb orb].
  - exact (Hsuffix "APPCDUI" _ eq_refl eq_refl).
  - exact (Hsuffix "APPCD" _ eq_refl eq_refl).
  - exact (Hsuffix "IACGEN" _ eq_refl eq_refl).
  - exact (Hsuffix "STACK_EXPORTER" _ eq_refl eq_refl).
  - exact (Hsuffix "STACKGEN_VAULT" _ eq_refl eq_refl).
  - exact (Hsuffix "INTEGRATIONS" _ eq_refl eq_refl).
  - exact (Hsuffix "BACKSTAGE_ADAPTER" _ eq_refl eq_refl).
  - exact (Hsuffix "INFRA_CATALOG_TRACKER" _ eq_refl eq_refl).
  - split.
    + rewrite key_value_env_file; auto.
    + exists "sgai_orchestration". split; [|reflexivity].
      now apply orchestration_line.
  - exact (Hsuffix "DEPLOYMENT_MANAGER" _ eq_refl eq_refl).
  - split.
    + rewrite key_value_env_file; auto.
    + now apply notification_line.
  - exact (Hsuffix "TF_MODULE_SERVICE" _ eq_refl eq_refl).
  - exact (Hsuffix "AUDIT_MANAGER" _ eq_refl eq_refl).
  - exact (Hsuffix "AIDEN" _ eq_refl eq_refl).
  - exact (Hsuffix "AIDEN_UI" _ eq_refl eq_refl).
Qed.
End TablesAgree.

Lemma version_keys_tracked_witness :
  let line := "STACK_EXPORTER_VERSION=v0.9.9" in
  GenerateInputJson.parse_env_file line = [("STACK_EXPORTER_VERSION", "v0.9.9")]
  /\ get_default (GenerateInputJson.parse_env_file line)
                 "STACK_EXPORTER_VERSION" EmptyString = "v0.9.9"
  /\ exists e,
       VersionComparator.parse_env_content line = Ok [(e, "v0.9.9")]
       /\ ServiceMapper.map_env_to_deployed e = Some "exporter".
Proof.
  intros line. split; [reflexivity|].
  apply (version_keys_tracked "exporter"
           (GenerateInputJson.mkInfo
              "STACK_EXPORTER_VERSION"
              "https://github.com/appcd-dev/stack-exporter")
           "v0.9.9");
    [vm_compute; tauto | reflexivity | reflexivity].
Defined.

(** * [parse_repo_input] *)

Section RepoInputFacts.
Import PyStr VersionComparator SingleRepoTicketProcessor.

Lemma notcolon_eqb c : notcolon c = negb (Ascii.eqb c ":").
Proof. destruct c as [[] [] [] [] [] [] [] []]; reflexivity. Qed.

Lemma colon_not_space : isspace ":" = false.
Proof. reflexivity. Qed.

Lemma lstrip_idem (s : string) : lstrip (lstrip s) = lstrip s.
Proof.
  induction s as [|c s IH]; simpl; auto.
  destruct (isspace c) eqn:E; auto. simpl. now rewrite E.
Qed.

Lemma lstrip_rstrip (s : string) : lstrip (rstrip s) = rstrip (lstrip s).
Proof.
  induction s as [|c s IH]; simpl; auto.
  destruct (isspace c) eqn:E.
  - destruct (rstrip s) as [|r0 r] eqn:R.
    + simpl. now rewrite <- IH.
    + rewrite <- IH. simpl. now rewrite E.
  - simpl. destruct (rstrip s); simpl; now rewrite E.
Qed.

Lemma rstrip_idem (s : string) : rstrip (rstrip s) = rstrip s.
Proof.
  induction s as [|c s IH]; simpl; auto.
  destruct (rstrip s) as [|r0 r] eqn:R.
  - destruct (isspace c) eqn:E; simpl; auto. now rewrite E.
  - simpl in *. rewrite IH. reflexivity.
Qed.

Lemma strip_lstrip (s : string) : strip (lstrip s) = strip s.
Proof. unfold strip. now rewrite lstrip_idem. Qed.

Lemma strip_rstrip (s : string) : strip (rstrip s) = strip s.
Proof. unfold strip. now rewrite lstrip_rstrip, rstrip_idem. Qed.

Lemma lstrip_before (a : string) (c : ascii) (t : string) :
  isspace c = false ->
  lstrip (String.append a (String c t)) = String.append (lstrip a) (String c t).
Proof.
  intros Hc. induction a as [|x a IH]; simpl.
  - now rewrite Hc.
  - now destruct (isspace x).
Qed.

Lemma rstrip_after (a : string) (c : ascii) (t : string) :
  isspace c = false ->
  rstrip (String.append a (String c t)) = String.append a (String c (rstrip t)).
Proof.
  intros Hc. induction a as [|x a IH]; simpl.
  - destruct (rstrip t); [now rewrite Hc | reflexivity].
  - rewrite IH. destruct (String.append a (String c (rstrip t))) eqn:E; auto.
    destruct a; discriminate.
Qed.

Lemma split_on_free (c : ascii) (s : string) :
  all (fun x => negb (Ascii.eqb x c)) s = true -> split_on c s = [s].
Proof.
  induction s as [|x s IH]; simpl; auto.
  rewrite andb_true_iff. intros [Hx Hs]. rewrite (IH Hs).
  apply negb_true_iff in Hx. now rewrite Hx.
Qed.

Lemma split_on_cons (c : ascii) (a rest : string) :
  all (fun x => negb (Ascii.eqb x c)) a = true ->
  split_on c (String.append a (String c rest)) = a :: split_on c rest.
Proof.
  induction a as [|x a IH]; simpl.
  - now rewrite Ascii.eqb_refl.
  - rewrite andb_true_iff. intros [Hx Ha]. rewrite (IH Ha).
    apply negb_true_iff in Hx. now rewrite Hx.
Qed.

Lemma contains_middle (c : ascii) (a t : string) :
  contains (String c EmptyString) (String.append a (String c t)) = true.
Proof.
  induction a as [|x a IH]; simpl.
  - destruct (ascii_dec c c); [|congruence]. now destruct t.
  - rewrite IH. apply orb_true_r.
Qed.

Lemma colon_free (s : string) :
  all notcolon s = true -> all (fun x => negb (Ascii.eqb x ":")) s = true.
Proof. apply all_impl. intros c. now rewrite notcolon_eqb. Qed.

Lemma all_lstrip (p : ascii -> bool) (s : string) :
  all p s = true -> all p (lstrip s) = true.
Proof.
  induction s as [|c s IH]; simpl; auto.
  rewrite andb_true_iff. intros [Hc Hs].
  destruct (isspace c); auto. simpl. now rewrite Hc, Hs.
Qed.

Lemma all_rstrip (p : ascii -> bool) (s : string) :
  all p s = true -> all p (rstrip s) = true.
Proof.
  induction s as [|c s IH]; simpl; auto.
  rewrite andb_true_iff. intros [Hc Hs]. specialize (IH Hs).
  destruct (rstrip s); simpl in *.
  - destruct (isspace c); simpl; auto. now rewrite Hc.
  - now rewrite Hc.
Qed.

(** X23. A line [repo:from:to] whose three fields hold no colon is read in
    the colon format, whatever white space is around the fields: the result
    is the three fields, each stripped. *)
Theorem parse_repo_input_colons (repo from_tag to_tag : string) :
  all notcolon repo = true -> all notcolon from_tag = true ->
  all notcolon to_tag = true ->
  parse_repo_input
    (String.append repo
       (String ":" (String.append from_tag (String ":" to_tag))))
  = Some (strip repo, strip from_tag, strip to_tag).
Proof.
  intros Hr Hf Ht. unfold parse_repo_input. cbv zeta.
  assert (Hs : strip (String.append repo
                        (String ":" (String.append from_tag (String ":" to_tag))))
               = String.append (lstrip repo)
                   (String ":" (String.append from_tag
                                  (String ":" (rstrip to_tag))))).
  { unfold strip. rewrite lstrip_before by reflexivity.
    rewrite rstrip_after by reflexivity. now rewrite rstrip_after. }
  rewrite Hs.
  assert (Hne : truthy (String.append (lstrip repo)
                   (String ":" (String.append from_tag
                                  (String ":" (rstrip to_tag))))) = true).
  { now destruct (lstrip repo). }
  rewrite Hne, contains_middle. cbn [negb].
  rewrite split_on_cons by (apply colon_free; now apply all_lstrip).
  rewrite split_on_cons by (now apply colon_free).
  rewrite split_on_free by (apply colon_free; now apply all_rstrip).
  now rewrite strip_lstrip, strip_rstrip.
Qed.

Lemma split_ws_space (ws s : string) :
  all isspace ws = true -> split_ws (String.append ws s) = split_ws s.
Proof.
  induction ws as [|c ws IH]; simpl; auto.
  rewrite andb_true_iff. intros [Hc Hws]. rewrite Hc. auto.
Qed.

Lemma split_ws_word (w s : string) :
  truthy w = true -> all (fun c => negb (isspace c)) w = true ->
  all isspace (take 1 s) = true ->
  split_ws (String.append w s) = w :: split_ws s.
Proof.
  induction w as [|x w IH]; [discriminate|]. intros _ Hw Hs.
  simpl in Hw. apply andb_true_iff in Hw. destruct Hw as [Hx Hw].
  apply negb_true_iff in Hx.
  destruct w as [|y w].
  - simpl. rewrite Hx. destruct s as [|z s]; [reflexivity|].
    simpl in Hs. rewrite andb_true_r in Hs. now rewrite Hs.
  - change (String.append (String x (String y w)) s)
      with (String x (String.append (String y w) s)).
    cbn [split_ws]. rewrite Hx.
    rewrite IH; auto.
    simpl in Hw. apply andb_true_iff in Hw. destruct Hw as [Hy _].
    apply negb_true_iff in Hy. simpl. now rewrite Hy.
Qed.

(** X24. A line of three words separated by white space is read in the
    space format, unless it holds exactly two colons: the result is the
    three words.  So a repository given by a URL with its scheme is only
    read in this format. *)
Theorem parse_repo_input_words (repo ws1 from_tag ws2 to_tag : string) :
  truthy repo = true -> all (fun c => negb (isspace c)) repo = true ->
  truthy from_tag = true -> all (fun c => negb (isspace c)) from_tag = true ->
  truthy to_tag = true -> all (fun c => negb (isspace c)) to_tag = true ->
  truthy ws1 = true -> all isspace ws1 = true ->
  truthy ws2 = true -> all isspace ws2 = true ->
  let line :=
    String.append repo
      (String.append ws1
         (String.append from_tag (String.append ws2 to_tag))) in
  length (split_on ":" line) <> 3 ->
  parse_repo_input line = Some (repo, from_tag, to_tag).
Proof.
  intros Hr Hrw Hf Hfw Ht Htw H1 Hw1 H2 Hw2 line Hcolons.
  unfold parse_repo_input. cbv zeta.
  assert (Hs : strip line = line).
  { unfold strip, line.
    assert (Hl : forall t, lstrip (String.append repo t) = String.append repo t).
    { intros t. destruct repo as [|c repo]; [discriminate|]. simpl in *.
      apply andb_true_iff in Hrw. destruct Hrw as [Hc _].
      apply negb_true_iff in Hc. now rewrite Hc. }
    rewrite Hl.
    assert (Hstep : forall x y, rstrip y = y /\ y <> EmptyString ->
                     rstrip (String.append x y) = String.append x y
                     /\ String.append x y <> EmptyString).
    { intros x y [Hy Hy']. split; [now apply rstrip_append|].
      destruct x; simpl; congruence. }
    refine (proj1 (Hstep _ _ _)). do 3 apply Hstep. split.
    - now apply rstrip_id.
    - destruct to_tag; [discriminate | congruence]. }
  rewrite Hs.
  assert (Hne : truthy line = true).
  { unfold line. destruct repo; [discriminate | reflexivity]. }
  rewrite Hne. cbn [negb].
  assert (Hcf : (if contains ":" line
                 then match split_on ":" line with
                      | [repo0; from_tag0; to_tag0] =>
                          Some (strip repo0, strip from_tag0, strip to_tag0)
                      | _ => None
                      end
                 else None) = None).
  { destruct (contains ":" line); [|reflexivity].
    destruct (split_on ":" line) as [|a [|b [|c [|d l]]]]; try reflexivity.
    simpl in Hcolons. congruence. }
  rewrite Hcf.
  assert (Hw : split_ws line = [repo; from_tag; to_tag]).
  { unfold line.
    assert (Hhead : forall ws t, truthy ws = true -> all isspace ws = true ->
                                 all isspace (take 1 (String.append ws t)) = true).
    { intros ws t Hn Ha. destruct ws as [|c ws]; [discriminate|].
      simpl in *. apply andb_true_iff in Ha. destruct Ha as [-> _].
      reflexivity. }
    rewrite split_ws_word; auto.
    rewrite split_ws_space by assumption.
    rewrite split_ws_word; auto.
    rewrite split_ws_space by assumption.
    rewrite <- (append_nil_r to_tag) at 1.
    rewrite split_ws_word; auto. }
  rewrite Hw. now rewrite !strip_id.
Qed.
End RepoInputFacts.

Lemma parse_repo_input_colons_witness :
  PyStr.all VersionComparator.notcolon " appcd-dev/appcd " = true
  /\ SingleRepoTicketProcessor.parse_repo_input " appcd-dev/appcd : v1.0.0:v1.1.0 "
     = Some ("appcd-dev/appcd", "v1.0.0", "v1.1.0").
Proof.
  split; [reflexivity|].
  apply (parse_repo_input_colons " appcd-dev/appcd " " v1.0.0" "v1.1.0 ");
    reflexivity.
Defined.

Lemma parse_repo_input_words_witness :
  length (split_on ":" "https://github.com/appcd-dev/appcd  v1.0.0 v1.1.0") = 2
  /\ SingleRepoTicketProcessor.parse_repo_input
       "https://github.com/appcd-dev/appcd  v1.0.0 v1.1.0"
     = Some ("https://github.com/appcd-dev/appcd", "v1.0.0", "v1.1.0").
Proof.
  split; [reflexivity|].
  apply (parse_repo_input_words "https://github.com/appcd-dev/appcd" "  "
           "v1.0.0" " " "v1.1.0"); try reflexivity.
  vm_compute. discriminate.
Defined.

(** * What the extractor sees of a commit *)

Section CommitLine.
Import LinearTicketExtractor GitHubTagComparator.

Variable iso_minutes : string -> option string.

Lemma extract_tickets_sep (a b : string) (c : ascii) (t : string) :
  ticket_char c = false ->
  In t (extract_tickets_from_text (String.append a (String c b)))
  <-> In t (extract_tickets_from_text a)
      \/ In t (extract_tickets_from_text b).
Proof.
  intros Hc. rewrite !extract_tickets_iff. split.
  - intros [Ht H]. apply bracketed_sep in H; tauto.
  - intros [[Ht H]|[Ht H]]; split; auto.
    + apply bracketed_app. now left.
    + apply bracketed_app. right.
      destruct H as (b1 & a1 & ->). now exists (String c b1), a1.
Qed.

Lemma extract_tickets_short (s : string) (t : string) :
  String.length s < 6 -> ~ In t (extract_tickets_from_text s).
Proof.
  intros Hlen Hin. apply extract_tickets_iff in Hin.
  destruct Hin as [(p & n & -> & _ & Hp & _ & Hn) (before & after & ->)].
  rewrite !length_append in Hlen. simpl in Hlen.
  rewrite !length_append in Hlen. simpl in Hlen. lia.
Qed.

(** X25. Of a commit, the ticket extractor sees what [format_commit_info]
    prints: the tickets of the line are those of the first line of the
    message, of the author name, of the date as printed and of the first
    seven characters of the sha.  A ticket that only the body of the
    message mentions is not in the line. *)
Theorem format_commit_info_tickets (c : commit) (t : string) :
  In t (extract_tickets_from_text (format_commit_info iso_minutes c))
  <-> In t (extract_tickets_from_text (PyStr.take 7 (sha c)))
      \/ In t (extract_tickets_from_text (first_line (message c)))
      \/ In t (extract_tickets_from_text (author_name c))
      \/ In t (extract_tickets_from_text (formatted_date iso_minutes c)).
Proof.
  unfold format_commit_info. cbv zeta.
  set (s := PyStr.take 7 (sha c)).
  set (m := first_line (message c)).
  set (a := author_name c).
  set (d := formatted_date iso_minutes c).
  change (String.append "  " ?x)
    with (String.append "" (String " " (String.append "" (String " " x)))).
  change (String.append " - " ?x)
    with (String " " (String.append "-" (String " " x))).
  change (String.append " (" ?x) with (String " " (String.append "" (String "(" x))).
  change (String.append ", " ?x) with (String "," (String.append "" (String " " x))).
  change (String.append d ")") with (String.append d (String ")" "")).
  repeat rewrite extract_tickets_sep by reflexivity.
  assert (H0 : ~ In t (extract_tickets_from_text "")) by (apply extract_tickets_short; simpl; lia).
  assert (H1 : ~ In t (extract_tickets_from_text "-")) by (apply extract_tickets_short; simpl; lia).
  tauto.
Qed.
End CommitLine.

(** * From the two texts to the verdict *)

Section Pipeline.
Import Json ServiceMapper VersionComparator.

Lemma has_differences_negb_in_sync (env deployed : dict string) :
  dict_wf env -> dict_wf deployed ->
  snd (compare_versions deployed env) = negb (in_sync env deployed).
Proof.
  intros Hwe Hwd. rewrite has_differences_nonempty, compare_versions_buckets.
  cbv zeta. simpl differences. simpl env_only. simpl deployed_only.
  rewrite has_differences_unmatched by apply unified_has_version.
  now rewrite in_sync_matched.
Qed.

Lemma content_not_mapped (e : string) :
  map_env_to_deployed e <> Some "content".
Proof.
  intros H. apply map_env_to_deployed_some in H. destruct H as [H _].
  unfold mapping_get in H.
  destruct (dict_get SERVICE_NAME_MAPPING (PyStr.lower e)) as [v|] eqn:E;
    [|discriminate].
  subst v. apply dict_get_In in E.
  assert (Hall : forallb (fun kv => match snd kv with
                                    | Some m => negb (String.eqb m "content")
                                    | None => true
                                    end) SERVICE_NAME_MAPPING = true)
    by reflexivity.
  rewrite forallb_forall in Hall. specialize (Hall _ E). discriminate.
Qed.

Lemma content_not_referenced (env : dict string) :
  referenced env "content" = false.
Proof.
  unfold referenced. induction (keys env) as [|e l IH]; simpl; auto.
  rewrite IH, orb_false_r.
  destruct (map_env_to_deployed e) as [d|] eqn:E; auto.
  destruct (String.eqb d "content") eqn:Ed; auto.
  apply String.eqb_eq in Ed. subst d. now apply content_not_mapped in E.
Qed.

(** X26. When the version endpoint answers with a text that is not JSON,
    the comparison reports differences whatever the env file holds: the
    text becomes the single deployed service [content], which no env
    service is mapped to. *)
Theorem non_json_always_differs
    (json_loads : string -> pyresult value)
    (env_content deployed_content msg : string) :
  json_loads deployed_content = Raise (JSONDecodeError msg) ->
  exists repo_versions deployed_versions,
    parse_env_content env_content = Ok repo_versions
    /\ deployed_versions = [("content", PyStr.strip deployed_content)]
    /\ parse_version_json json_loads deployed_content
       = Ok (flat deployed_versions)
    /\ snd (compare_versions deployed_versions repo_versions) = true.
Proof.
  intros Hj.
  destruct (for_lines_clean (PyStr.split_nl env_content) [])
    as (repo_versions & Hp & Hwf & _); [constructor | reflexivity |].
  exists repo_versions, [("content", PyStr.strip deployed_content)].
  split; [exact Hp|]. split; [reflexivity|]. split.
  - unfold parse_version_json. now rewrite Hj.
  - rewrite has_differences_negb_in_sync; auto.
    + unfold in_sync. simpl forallb at 2.
      rewrite content_not_referenced. now rewrite andb_false_r.
    + repeat constructor. simpl. tauto.
Qed.
End Pipeline.

Lemma non_json_always_differs_witness :
  let env_content := "APPCD_VERSION=v1" in
  let deployed_content := "  Service Unavailable " in
  Json.loads deployed_content = Raise (JSONDecodeError "Expecting value")
  /\ exists repo_versions deployed_versions,
       VersionComparator.parse_env_content env_content = Ok repo_versions
       /\ deployed_versions = [("content", PyStr.strip deployed_content)]
       /\ VersionComparator.parse_version_json Json.loads deployed_content
          = Ok (flat deployed_versions)
       /\ snd (VersionComparator.compare_versions deployed_versions
                 repo_versions) = true.
Proof.
  intros env_content deployed_content. split; [reflexivity|].
  apply (non_json_always_differs Json.loads env_content deployed_content
           "Expecting value").
  reflexivity.
Defined.

(** * The requests of [process_from_file] *)

Section RequestsFacts.
Import SingleRepoTicketProcessor.

Variable call : string -> string -> string -> string -> bool
                -> bool * string * nat.
Variable verbose : bool.

Lemma set_error_last (s : list request_result) (x : request_result)
    (output : string) :
  set_error (s ++ [x]) (length s) output
  = s ++ [mkRequest (repo x) (from_tag x) (to_tag x) (success x)
                    (ticket_count x) (output_file x) (Some output)].
Proof. induction s as [|y s IH]; simpl; [reflexivity | now rewrite IH]. Qed.

Lemma filter_seq_snoc (f g : nat -> bool) (n : nat) :
  (forall r, r < n -> f r = g r) ->
  filter f (seq 0 (S n))
  = filter g (seq 0 n) ++ (if f n then [n] else []).
Proof.
  intros H. rewrite seq_S, filter_app. simpl. f_equal.
  apply filter_ext_in. intros r Hr. apply in_seq in Hr. apply H. lia.
Qed.

Lemma succeeded_snoc (p : processor) (s : list request_result)
    (x : request_result) (res fl : list ref) :
  store p = s ->
  (forall r, r < length s ->
     succeeded (mkProcessor (s ++ [x]) res fl) r = succeeded p r)
  /\ succeeded (mkProcessor (s ++ [x]) res fl) (length s) = success x.
Proof.
  intros <-. unfold succeeded, deref. simpl. split.
  - intros r Hr. now rewrite nth_error_app1.
  - rewrite nth_error_app2 by lia. now rewrite Nat.sub_diag.
Qed.

Lemma process_single_request_ok (p : processor)
    (repo0 from0 to0 : string) :
  processor_ok call verbose p ->
  let '(p', r) := process_single_request call p repo0 from0 to0 verbose in
  processor_ok call verbose p'
  /\ r = length (store p)
  /\ exists x, store p' = store p ++ [x]
               /\ repo x = repo0 /\ from_tag x = from0 /\ to_tag x = to0.
Proof.
  intros (Hrec & Hres & Hfail). unfold process_single_request. cbv zeta.
  unfold ref in *.
  set (out_file := String.append "tickets_" _).
  destruct (call repo0 from0 to0 out_file verbose) as [[s output] n] eqn:Hc.
  set (x0 := mkRequest repo0 from0 to0 s n out_file None).
  destruct s.
  - split; [|split; [reflexivity | exists x0; now simpl]].
    destruct (succeeded_snoc p (store p) x0 (results p ++ [length (store p)])
                (failed_requests p) eq_refl) as [Hold Hnew].
    unfold processor_ok. cbn [store results failed_requests].
    rewrite length_app, Nat.add_comm. cbn [length Nat.add].
    unfold ref in *.
    split; [|split].
    + apply Forall_app. split; [exact Hrec|]. constructor; [|constructor].
      unfold recorded. cbn [repo from_tag to_tag output_file x0].
      rewrite Hc. now simpl.
    + rewrite (filter_seq_snoc _ (succeeded p)) by exact Hold.
      rewrite Hnew, <- Hres. reflexivity.
    + rewrite (filter_seq_snoc _ (fun r => negb (succeeded p r))).
      * rewrite Hnew, <- Hfail. simpl. now rewrite app_nil_r.
      * intros r Hr. now rewrite Hold.
  - unfold x0. rewrite set_error_last. cbn [repo from_tag to_tag success ticket_count output_file].
    set (x1 := mkRequest repo0 from0 to0 false n out_file (Some output)).
    split; [|split; [reflexivity | exists x1; now simpl]].
    destruct (succeeded_snoc p (store p) x1 (results p)
                (failed_requests p ++ [length (store p)]) eq_refl)
      as [Hold Hnew].
    unfold processor_ok. cbn [store results failed_requests].
    rewrite length_app, Nat.add_comm. cbn [length Nat.add].
    unfold ref in *.
    split; [|split].
    + apply Forall_app. split; [exact Hrec|]. constructor; [|constructor].
      unfold recorded. cbn [repo from_tag to_tag output_file x1].
      rewrite Hc. now simpl.
    + rewrite (filter_seq_snoc _ (succeeded p)) by exact Hold.
      rewrite Hnew, <- Hres. simpl. now rewrite app_nil_r.
    + rewrite (filter_seq_snoc _ (fun r => negb (succeeded p r))).
      * rewrite Hnew, <- Hfail. reflexivity.
      * intros r Hr. now rewrite Hold.
Qed.

Lemma file_line_step_ok (p : processor) (returned : list ref) (line : string) :
  processor_ok call verbose p ->
  let '(p', returned') := file_line_step call verbose (p, returned) line in
  processor_ok call verbose p'
  /\ (if is_request line
      then returned' = returned ++ [length (store p)]
           /\ exists x, store p' = store p ++ [x]
                        /\ parse_repo_input (PyStr.strip line)
                           = Some (repo x, from_tag x, to_tag x)
      else returned' = returned /\ store p' = store p).
Proof.
  intros Hok. unfold file_line_step, is_request. cbv zeta.
  destruct (negb (PyStr.truthy (PyStr.strip line))
            || PyStr.startswith "#" (PyStr.strip line)); simpl; [auto|].
  destruct (parse_repo_input (PyStr.strip line)) as [[[r f] t]|]; simpl;
    [|auto].
  pose proof (process_single_request_ok p r f t Hok) as H.
  destruct (process_single_request call p r f t verbose) as [p' res].
  destruct H as (Hok' & -> & x & Hst & <- & <- & <-).
  split; [exact Hok'|]. split; [reflexivity|]. now exists x.
Qed.

Lemma file_fold_ok (lines : list string) : forall p returned,
  processor_ok call verbose p ->
  let '(p', returned') :=
    fold_left (file_line_step call verbose) lines (p, returned) in
  processor_ok call verbose p'
  /\ returned'
     = returned ++ seq (length (store p)) (length (filter is_request lines))
  /\ map (fun x => Some (repo x, from_tag x, to_tag x)) (store p')
     = map (fun x => Some (repo x, from_tag x, to_tag x)) (store p)
       ++ map (fun l => parse_repo_input (PyStr.strip l))
              (filter is_request lines).
Proof.
  induction lines as [|l lines IH]; intros p returned Hok.
  - simpl. now rewrite !app_nil_r.
  - cbn [fold_left filter].
    pose proof (file_line_step_ok p returned l Hok) as Hstep.
    destruct (file_line_step call verbose (p, returned) l) as [p1 ret1].
    destruct Hstep as [Hok1 Hstep].
    specialize (IH p1 ret1 Hok1).
    destruct (fold_left (file_line_step call verbose) lines (p1, ret1))
      as [p' returned'].
    destruct IH as (Hok' & Hret & Hmap). split; [exact Hok'|].
    revert Hstep. destruct (is_request l); intros Hstep.
    + destruct Hstep as (-> & x & Hst & Hparse).
      rewrite Hret, Hmap, Hst, length_app, map_app. simpl.
      rewrite Hparse, <- !app_assoc. simpl.
      now rewrite Nat.add_comm.
    + destruct Hstep as [-> Hst]. now rewrite Hret, Hmap, Hst.
Qed.

Lemma new_processor_ok : processor_ok call verbose new_processor.
Proof. repeat split; constructor. Qed.

Lemma filter_split_perm {A : Type} (f : A -> bool) (l : list A) :
  Permutation (filter f l ++ filter (fun x => negb (f x)) l) l.
Proof.
  induction l as [|a l IH]; simpl; auto.
  destruct (f a); simpl.
  - now constructor.
  - apply Permutation_sym, Permutation_cons_app. now apply Permutation_sym.
Qed.

(** X27. After [process_from_file], every dict of [failed_requests] is a
    failure that carries, under [error], what the script printed for it:
    the dict is appended to the list before the key is set, but it is the
    same dict, so the summary report never falls back to its default error
    text.  Every dict of [results] is a success without that key. *)
Theorem failed_requests_carry_error (lines : list string) :
  let '(p, returned) := process_from_file call new_processor lines verbose in
  Forall (fun r =>
            exists x, deref p r = Some x /\ recorded call verbose x
                      /\ success x = false
                      /\ exists e, error x = Some e /\ shown_error x = e)
         (failed_requests p)
  /\ Forall (fun r =>
               exists x, deref p r = Some x /\ recorded call verbose x
                         /\ success x = true /\ error x = None)
            (results p).
Proof.
  pose proof (file_fold_ok lines new_processor [] new_processor_ok) as H.
  unfold process_from_file.
  destruct (fold_left (file_line_step call verbose) lines (new_processor, []))
    as [p returned].
  destruct H as ((Hrec & Hres & Hfail) & _ & _).
  assert (Hderef : forall r, In r (seq 0 (length (store p))) ->
                     exists x, deref p r = Some x /\ recorded call verbose x
                               /\ succeeded p r = success x).
  { intros r Hr. apply in_seq in Hr. unfold succeeded, deref.
    destruct (nth_error (store p) r) as [x|] eqn:E.
    - exists x. repeat split; auto.
      rewrite Forall_forall in Hrec. apply Hrec.
      now apply nth_error_In in E.
    - apply nth_error_None in E. lia. }
  split; apply Forall_forall; intros r Hr.
  - rewrite Hfail in Hr. apply filter_In in Hr. destruct Hr as [Hr Hs].
    destruct (Hderef r Hr) as (x & Hx & Hrx & Hsx).
    rewrite Hsx in Hs. apply negb_true_iff in Hs.
    exists x. repeat split; auto.
    unfold recorded in Hrx. unfold shown_error.
    destruct (call _ _ _ _ _) as [[s out] n].
    destruct Hrx as (Hs' & _ & He). rewrite Hs in Hs'. subst s.
    exists out. now rewrite He.
  - rewrite Hres in Hr. apply filter_In in Hr. destruct Hr as [Hr Hs].
    destruct (Hderef r Hr) as (x & Hx & Hrx & Hsx).
    rewrite Hsx in Hs.
    exists x. repeat split; auto.
    unfold recorded in Hrx.
    destruct (call _ _ _ _ _) as [[s out] n].
    destruct Hrx as (Hs' & _ & He). rewrite Hs in Hs'. subst s. exact He.
Qed.

(** X28. [process_from_file] makes one request per line that is neither
    blank nor a comment and is in one of the two formats, in the order of
    the lines and with the fields [parse_repo_input] reads; the list it
    returns holds each of these requests once, and [results] and
    [failed_requests] share them out, so the total of the summary report is
    the number of such lines. *)
Theorem process_from_file_accounts (lines : list string) :
  let '(p, returned) := process_from_file call new_processor lines verbose in
  returned = seq 0 (length (filter is_request lines))
  /\ length (store p) = length (filter is_request lines)
  /\ Permutation (results p ++ failed_requests p) returned
  /\ length (results p) + length (failed_requests p)
     = length (filter is_request lines)
  /\ map (fun x => Some (repo x, from_tag x, to_tag x)) (store p)
     = map (fun l => parse_repo_input (PyStr.strip l))
           (filter is_request lines).
Proof.
  pose proof (file_fold_ok lines new_processor [] new_processor_ok) as H.
  unfold process_from_file.
  destruct (fold_left (file_line_step call verbose) lines (new_processor, []))
    as [p returned].
  destruct H as ((Hrec & Hres & Hfail) & Hret & Hmap). simpl in Hret, Hmap.
  assert (Hlen : length (store p) = length (filter is_request lines)).
  { apply (f_equal (@length _)) in Hmap. now rewrite !length_map in Hmap. }
  assert (Hperm : Permutation (results p ++ failed_requests p) returned).
  { rewrite Hret, Hres, Hfail, Hlen. apply filter_split_perm. }
  split; [exact Hret|]. split; [exact Hlen|]. split; [exact Hperm|].
  split; [|exact Hmap].
  apply Permutation_length in Hperm. rewrite length_app in Hperm.
  rewrite Hperm, Hret. apply length_seq.
Qed.
End RequestsFacts.

(** A run on three lines, with a script that fails on the second
    repository. *)
Example process_from_file_sample :
  let call := fun (repo _ _ _ : string) (_ : bool) =>
                if String.eqb repo "o/b" then (false, "fatal: no such tag", 0)
                else (true, "Extracted 2 Linear tickets", 2) in
  let '(p, returned) :=
    SingleRepoTicketProcessor.process_from_file call
      SingleRepoTicketProcessor.new_processor
      ["o/a:v1:v2"; "# comment"; "o/b v1 v2"; "just two"] false in
  returned = [0; 1]
  /\ SingleRepoTicketProcessor.results p = [0]
  /\ SingleRepoTicketProcessor.failed_requests p = [1]
  /\ map SingleRepoTicketProcessor.shown_error
         (SingleRepoTicketProcessor.store p)
     = ["Unknown error"; "fatal: no such tag"]
  /\ map SingleRepoTicketProcessor.output_file
         (SingleRepoTicketProcessor.store p)
     = ["tickets_o_a_v1_to_v2.txt"; "tickets_o_b_v1_to_v2.txt"].
Proof. vm_compute. repeat split. Qed.
